(** * IoT signal transformation visualisation

    A shallow embedding of [script.js]: the application state, the
    configuration constants, the cached DOM nodes, the mode switch, the
    periodic data updates, the two display branches and the stage animation,
    followed by the properties of the signal simulation and encoding engine.

    Conventions of the embedding.

    - A JavaScript number is a binary64 value: [JS.number] carries a finite
      double as the rational it denotes, next to the two infinities and NaN,
      and every arithmetic operation rounds its exact result to the nearest
      double, ties to even ([JS.round]), overflows to an infinity and follows
      the IEEE 754 rules on the special values.  Zero is unsigned: the only
      divisor of the script is the constant [VOLTAGE_REF], never a computed
      negative zero.  The result of [Math.floor] is a [JS.integral]; a timer
      handle and the clock are integers ([Z]).  The numeric fields of
      [Config] are finite numbers ([Q]), the two decimal literals among them
      being the doubles that the literals denote ([JS.double]).  The module
      [Binary64] replays the numeric path of [updateTemperatureData] on the
      primitive floats of the prover, for comparison.  [toFixed] is the
      fixed notation, which the language uses below 10^21.
    - [Math.random()] and [Date.now()] are inputs: every function that calls
      them takes the drawn number (a double, given as the rational that it
      denotes), or the clock in milliseconds, as an argument.
    - The script mutates three global objects ([AppState], [Elements], the
      host's timer table) and writes to the console.  They are the fields of
      one record, [World], threaded through every function.  [Config] is an
      argument, since the script reads its fields at each call and exposes
      the object through [window.IoTApp.config]. *)

From Stdlib Require Import ZArith QArith Qround Qpower Qreduction Lqa Lia.
From Stdlib Require Import String Ascii DecimalString.
From Stdlib Require Import Floats.
From stdpp Require Import base gmap strings list.

Local Open Scope string_scope.
Local Open Scope Z_scope.

(** ** Built-in functions of the language used by the script *)

Module JS.

(** The binary digits of an integer, as [n.toString(2)] writes them. *)
Fixpoint pos_toString2 (p : positive) : string :=
  match p with
  | xH => "1"
  | xO p' => pos_toString2 p' +:+ "0"
  | xI p' => pos_toString2 p' +:+ "1"
  end.

Definition binary (n : Z) : string :=
  match n with
  | Z0 => "0"
  | Zpos p => pos_toString2 p
  | Zneg p => "-" +:+ pos_toString2 p
  end.

(** The decimal digits of an integer, as [String(n)] writes them below
    10^21. *)
Definition decimal (n : Z) : string := NilZero.string_of_int (Z.to_int n).

(** The filler of [padStart]: [n] characters taken from the repetition of
    [fill]; [rest] is what remains of the copy being consumed. *)
Fixpoint filler (n : nat) (fill rest : string) : string :=
  match n with
  | O => ""
  | S n' =>
      match rest with
      | String c rest' => String c (filler n' fill rest')
      | EmptyString =>
          match fill with
          | String c rest' => String c (filler n' fill rest')
          | EmptyString => ""
          end
      end
  end.

(** [s.padStart(maxLength, fill)]: [s] itself when it is already
    [maxLength] characters or longer (nothing is cut), otherwise the filler
    followed by [s]. *)
Definition padStart (s : string) (maxLength : Z) (fill : string) : string :=
  let intMaxLength := Z.to_nat maxLength in
  let stringLength := String.length s in
  if (intMaxLength <=? stringLength)%nat then s
  else filler (intMaxLength - stringLength) fill fill +:+ s.

(** *** Numbers

    A Number is a finite double, an infinity or NaN.  A finite double is
    carried as the rational it denotes. *)
Inductive number :=
| Fin (q : Q)
| Inf (negative : bool)
| NaN.

(** An integral Number, which is what [Math.floor] returns: an integer, an
    infinity or NaN. *)
Inductive integral :=
| Int (z : Z)
| IntInf (negative : bool)
| IntNaN.

Definition pow2 (e : Z) : Q := (2 ^ e)%Q.

(** The exponent [l] with [2^l <= q < 2^(l+1)], for a positive [q]. *)
Definition floor_log2 (q : Q) : Z :=
  let l := Z.log2 (Qnum q) - Z.log2 (Zpos (Qden q)) in
  if Qle_bool (pow2 l) q then l else l - 1.

(** The nearest integer, the even one on a tie. *)
Definition rne (y : Q) : Z :=
  let f := Qfloor y in
  match Qcompare (y - inject_Z f) (1 # 2) with
  | Lt => f
  | Gt => f + 1
  | Eq => if Z.even f then f else f + 1
  end.

(** The double nearest to a positive rational, ties to even, with 53
    significant bits and the least exponent -1074 of the subnormal doubles;
    the exponent is not bounded above here. *)
Definition nearest (q : Q) : Q :=
  let e := Z.max (floor_log2 q - 52) (-1074) in
  (inject_Z (rne (q / pow2 e)) * pow2 e)%Q.

(** The Number value of a real: the nearest double, or an infinity when
    that is 2^1024 or more in magnitude. *)
Definition round (q : Q) : number :=
  match Qcompare q 0 with
  | Eq => Fin 0
  | Gt => let x := nearest q in
          if Qle_bool (pow2 1024) x then Inf false else Fin (Qred x)
  | Lt => let x := nearest (- q) in
          if Qle_bool (pow2 1024) x then Inf true else Fin (Qred (- x))
  end.

(** A decimal literal of the script, as a Number and as the rational that
    the Number denotes. *)
Definition lit (q : Q) : number := round q.

Definition double (q : Q) : Q :=
  match round q with
  | Fin x => x
  | _ => 0
  end.

(** An integer as a Number. *)
Definition of_Z (z : Z) : number := round (inject_Z z).

Definition is_negative (q : Q) : bool :=
  match Qcompare q 0 with Lt => true | _ => false end.

Definition is_zero (q : Q) : bool :=
  match Qcompare q 0 with Eq => true | _ => false end.

(** [x + y]. *)
Definition add (x y : number) : number :=
  match x, y with
  | Fin a, Fin b => round (a + b)
  | Fin _, Inf s => Inf s
  | Inf s, Fin _ => Inf s
  | Inf s, Inf s' => if Bool.eqb s s' then Inf s else NaN
  | _, _ => NaN
  end.

Definition neg (x : number) : number :=
  match x with
  | Fin a => Fin (- a)
  | Inf s => Inf (negb s)
  | NaN => NaN
  end.

(** [x - y]. *)
Definition sub (x y : number) : number := add x (neg y).

(** [x * y]. *)
Definition mul (x y : number) : number :=
  match x, y with
  | Fin a, Fin b => round (a * b)
  | Fin a, Inf s => if is_zero a then NaN else Inf (xorb (is_negative a) s)
  | Inf s, Fin b => if is_zero b then NaN else Inf (xorb s (is_negative b))
  | Inf s, Inf s' => Inf (xorb s s')
  | _, _ => NaN
  end.

(** [x / y]. *)
Definition div (x y : number) : number :=
  match x, y with
  | Fin a, Fin b =>
      if is_zero b then (if is_zero a then NaN else Inf (is_negative a))
      else round (a / b)
  | Fin _, Inf _ => Fin 0
  | Inf s, Fin b => Inf (xorb s (is_negative b))
  | _, _ => NaN
  end.

(** [x < y], which is false when an operand is NaN. *)
Definition lt (x y : number) : bool :=
  match x, y with
  | Fin a, Fin b => match Qcompare a b with Lt => true | _ => false end
  | Fin _, Inf s => negb s
  | Inf s, Fin _ => s
  | Inf s, Inf s' => s && negb s'
  | _, _ => false
  end.

(** The order of the Numbers, in which NaN is related to nothing. *)
Definition le (x y : number) : Prop :=
  match x, y with
  | Fin a, Fin b => (a <= b)%Q
  | Inf true, Fin _ => True
  | Inf true, Inf _ => True
  | Fin _, Inf false => True
  | Inf false, Inf false => True
  | _, _ => False
  end.

(** The same order on the integral Numbers. *)
Definition int_le (m n : integral) : Prop :=
  match m, n with
  | Int a, Int b => a ≤ b
  | IntInf true, Int _ => True
  | IntInf true, IntInf _ => True
  | Int _, IntInf false => True
  | IntInf false, IntInf false => True
  | _, _ => False
  end.

(** [Math.floor]. *)
Definition floor (x : number) : integral :=
  match x with
  | Fin q => Int (Qfloor q)
  | Inf s => IntInf s
  | NaN => IntNaN
  end.

(** [n.toString(2)] and [String(n)] for an integral Number [n]. *)
Definition toString2 (n : integral) : string :=
  match n with
  | Int z => binary z
  | IntInf false => "Infinity"
  | IntInf true => "-Infinity"
  | IntNaN => "NaN"
  end.

Definition toString10 (n : integral) : string :=
  match n with
  | Int z => decimal z
  | IntInf false => "Infinity"
  | IntInf true => "-Infinity"
  | IntNaN => "NaN"
  end.

(** The fixed notation of a rational: the sign, then the nearest multiple
    of [10^-f] (the larger one on a tie) written with exactly [f]
    decimals. *)
Definition fixed (x : Q) (f : nat) : string :=
  let neg := match Qcompare x 0 with Lt => true | _ => false end in
  let ax := if neg then Qopp x else x in
  let n := Qfloor (ax * inject_Z (10 ^ Z.of_nat f) + (1 # 2)) in
  let m := decimal n in
  let m' :=
    match f with
    | O => m
    | _ =>
        let k := String.length m in
        let padded := if (k <=? f)%nat then filler (S f - k) "0" "0" +:+ m else m in
        let k' := String.length padded in
        substring 0 (k' - f) padded +:+ "." +:+ substring (k' - f) f padded
    end in
  (if neg then "-" else "") +:+ m'.

(** [x.toFixed(f)]. *)
Definition toFixed (x : number) (f : nat) : string :=
  match x with
  | Fin q => fixed q f
  | Inf false => "Infinity"
  | Inf true => "-Infinity"
  | NaN => "NaN"
  end.

(** [a % n] on integral operands; [None] is NaN, which the operator
    returns for a zero divisor and propagates from its operand. *)
Definition rem (a : option Z) (n : Z) : option Z :=
  match a with
  | Some z => if n =? 0 then None else Some (Z.rem z n)
  | None => None
  end.

(** [a + 1], propagating NaN. *)
Definition succ (a : option Z) : option Z :=
  match a with
  | Some z => Some (z + 1)
  | None => None
  end.

End JS.

(** ** Application state *)

(** [AppState.updateIntervals]: the handles returned by [setInterval],
    [None] for [null]. *)
Record update_intervals := {
  ui_temperature : option Z;
  ui_pir : option Z;
  ui_animation : option Z
}.

(** [AppState.data]. *)
Record app_data := {
  temperature : JS.number;
  voltage : JS.number;
  adcValue : JS.integral;
  pirDetected : bool;
  activeStage : option Z
}.

Record app_state := {
  currentMode : string;
  animationFrameId : option Z;
  updateIntervals : update_intervals;
  data : app_data
}.

Definition AppState : app_state := {|
  currentMode := "analog";
  animationFrameId := None;
  updateIntervals := {| ui_temperature := None; ui_pir := None; ui_animation := None |};
  data := {|
    temperature := JS.lit 22.5;
    voltage := JS.lit 2.45;
    adcValue := JS.Int 3041;
    pirDetected := true;
    activeStage := Some 0
  |}
|}.

(** ** Configuration constants *)

(** The four numeric constants are finite Numbers, carried as the rationals
    they denote; 3.3 and 0.6 are not doubles, and [Config] holds the doubles
    that the two literals denote. *)
Record config := {
  UPDATE_INTERVAL : Z;
  ANIMATION_INTERVAL : Z;
  ADC_BITS : Z;
  ADC_MAX : Z;
  VOLTAGE_REF : Q;
  TEMP_MIN : Q;
  TEMP_MAX : Q;
  PIR_DETECTION_CHANCE : Q
}.

Definition Config : config := {|
  UPDATE_INTERVAL := 3000;
  ANIMATION_INTERVAL := 1500;
  ADC_BITS := 12;
  ADC_MAX := 4095;
  VOLTAGE_REF := JS.double 3.3;
  TEMP_MIN := 20;
  TEMP_MAX := 25;
  PIR_DETECTION_CHANCE := JS.double 0.6
|}.

(** ** Cached DOM nodes *)

(** The markup returned by [getAnalogSensorIcon] and [getDigitalSensorIcon]:
    two constant SVG fragments, told apart by name. *)
Inductive svg_icon := AnalogSensorIcon | DigitalSensorIcon.

(** What the script reads and writes of a DOM node: its text, the icon put
    in its [innerHTML], its class list and its inline style (property name
    to value). *)
Record element := {
  textContent : string;
  innerHTML : option svg_icon;
  classList : gset string;
  style : gmap string string
}.

(** What the script queries of the page: [getElementById],
    [querySelectorAll('.stage-card')] in document order, and the number of
    in-page anchor links. *)
Record document := {
  byId : gmap string element;
  stage_cards : list element;
  anchors : nat
}.

(** [Elements]: the node held under each named field (an absent key is
    [null]), and the [stageCards] array. *)
Record elements := {
  refs : gmap string element;
  stageCards : list element
}.

Definition Elements : elements := {| refs := ∅; stageCards := [] |}.

(** The named fields of [Elements], in the order [cacheElements] fills them;
    each is looked up under the id of the same name. *)
Definition element_ids : list string :=
  [ "analogBtn"; "digitalBtn"; "modeText";
    "sensorIconWrapper"; "sensorTitle"; "sensorDescription";
    "sensorValue"; "sensorVoltage"; "sensorState";
    "processingDescription"; "analogProcessing"; "digitalProcessing";
    "adcValue"; "binaryValue"; "jsonPreview";
    "gpioState"; "gpioVoltage"; "pirBinary"; "pirJsonPreview"; "pirPayloadBit";
    "appDisplay"; "appAction" ].

(** ** Timers, listeners and the whole mutable world *)

(** The closures handed to [setInterval] and [setTimeout]. *)
Inductive callback :=
| TemperatureTick
| PirTick
| AnimationTick
| CardReveal (index : nat).

Record timer := {
  handle : Z;
  repeats : bool;
  delay : Z;
  action : callback
}.

(** The closures handed to [addEventListener] by [setupEventListeners]. *)
Inductive listener :=
| ClickSwitches (target : string) (mode : string)
| ClickScrolls (anchor : nat).

Record World := {
  state : app_state;
  elems : elements;
  timers : list timer;
  nextHandle : Z;
  listeners : list listener;
  console : list string
}.

(** The world when the script starts: the two object literals, no timer,
    no listener, an empty console. *)
Definition World0 : World := {|
  state := AppState;
  elems := Elements;
  timers := [];
  nextHandle := 1;
  listeners := [];
  console := []
|}.

(** *** Field updates *)

Definition set_state (f : app_state → app_state) (w : World) : World :=
  {| state := f (state w); elems := elems w; timers := timers w;
     nextHandle := nextHandle w; listeners := listeners w; console := console w |}.

Definition set_elems (f : elements → elements) (w : World) : World :=
  {| state := state w; elems := f (elems w); timers := timers w;
     nextHandle := nextHandle w; listeners := listeners w; console := console w |}.

Definition set_timers (f : list timer → list timer) (w : World) : World :=
  {| state := state w; elems := elems w; timers := f (timers w);
     nextHandle := nextHandle w; listeners := listeners w; console := console w |}.

Definition set_listeners (f : list listener → list listener) (w : World) : World :=
  {| state := state w; elems := elems w; timers := timers w;
     nextHandle := nextHandle w; listeners := f (listeners w); console := console w |}.

Definition set_currentMode (m : string) (s : app_state) : app_state :=
  {| currentMode := m; animationFrameId := animationFrameId s;
     updateIntervals := updateIntervals s; data := data s |}.

Definition set_updateIntervals (f : update_intervals → update_intervals)
    (s : app_state) : app_state :=
  {| currentMode := currentMode s; animationFrameId := animationFrameId s;
     updateIntervals := f (updateIntervals s); data := data s |}.

Definition set_data (f : app_data → app_data) (s : app_state) : app_state :=
  {| currentMode := currentMode s; animationFrameId := animationFrameId s;
     updateIntervals := updateIntervals s; data := f (data s) |}.

Definition set_temperature (x : JS.number) (d : app_data) : app_data :=
  {| temperature := x; voltage := voltage d; adcValue := adcValue d;
     pirDetected := pirDetected d; activeStage := activeStage d |}.

Definition set_voltage (x : JS.number) (d : app_data) : app_data :=
  {| temperature := temperature d; voltage := x; adcValue := adcValue d;
     pirDetected := pirDetected d; activeStage := activeStage d |}.

Definition set_adcValue (x : JS.integral) (d : app_data) : app_data :=
  {| temperature := temperature d; voltage := voltage d; adcValue := x;
     pirDetected := pirDetected d; activeStage := activeStage d |}.

Definition set_pirDetected (x : bool) (d : app_data) : app_data :=
  {| temperature := temperature d; voltage := voltage d; adcValue := adcValue d;
     pirDetected := x; activeStage := activeStage d |}.

Definition set_activeStage (x : option Z) (d : app_data) : app_data :=
  {| temperature := temperature d; voltage := voltage d; adcValue := adcValue d;
     pirDetected := pirDetected d; activeStage := x |}.

Definition set_textContent (t : string) (e : element) : element :=
  {| textContent := t; innerHTML := innerHTML e;
     classList := classList e; style := style e |}.

Definition set_innerHTML (i : svg_icon) (e : element) : element :=
  {| textContent := textContent e; innerHTML := Some i;
     classList := classList e; style := style e |}.

Definition set_classList (f : gset string → gset string) (e : element) : element :=
  {| textContent := textContent e; innerHTML := innerHTML e;
     classList := f (classList e); style := style e |}.

(** [e.style.prop = value]. *)
Definition set_style (prop value : string) (e : element) : element :=
  {| textContent := textContent e; innerHTML := innerHTML e;
     classList := classList e; style := <[prop := value]> (style e) |}.

(** Apply [f] to the node held in field [name] of [Elements]; nothing
    happens when the field is [null]. *)
Definition on_element (name : string) (f : element → element) (w : World) : World :=
  set_elems (λ els, {| refs := alter f name (refs els); stageCards := stageCards els |}) w.

(** Apply [f index card] to every node of [Elements.stageCards]
    ([forEach((card, index) => ...)]). *)
Definition on_stageCards (f : nat → element → element) (w : World) : World :=
  set_elems (λ els, {| refs := refs els; stageCards := imap f (stageCards els) |}) w.

(** [console.log]. *)
Definition console_log (msg : string) (w : World) : World :=
  {| state := state w; elems := elems w; timers := timers w;
     nextHandle := nextHandle w; listeners := listeners w;
     console := (console w ++ [msg])%list |}.

(** [setInterval] and [setTimeout]: a new entry in the timer table under a
    fresh handle, which is returned. *)
Definition schedule (rep : bool) (cb : callback) (ms : Z) (w : World) : Z * World :=
  let h := nextHandle w in
  (h, {| state := state w; elems := elems w;
         timers := (timers w ++ [{| handle := h; repeats := rep; delay := ms; action := cb |}])%list;
         nextHandle := h + 1; listeners := listeners w; console := console w |}).

Definition setInterval (cb : callback) (ms : Z) : World → Z * World := schedule true cb ms.
Definition setTimeout (cb : callback) (ms : Z) : World → Z * World := schedule false cb ms.

(** [clearInterval]: the entry under that handle, if any, is dropped. *)
Definition clearInterval (h : Z) (w : World) : World :=
  set_timers (filter (λ t, handle t ≠ h)) w.

(** Sequencing of statements. *)
Definition andThen (f g : World → World) : World → World := λ w, g (f w).
Infix ">>>" := andThen (at level 61, left associativity).

(** ** Utility functions *)

(** [setElementText]: the text is written when the node exists and its text
    differs.  (Called with the number [adc], the comparison of a string with
    a number always differs and the assignment stores its decimal digits:
    the same final text as with the digits passed as a string.) *)
Definition setElementText (name text : string) : World → World :=
  on_element name (λ e, if decide (textContent e = text) then e else set_textContent text e).

Definition showElement (name : string) : World → World :=
  on_element name (set_style "display" "grid").

Definition hideElement (name : string) : World → World :=
  on_element name (set_style "display" "none").

Definition animateValueUpdate (name : string) : World → World :=
  on_element name (set_style "animation" "none")
  >>> on_element name (set_style "animation" "valueFlash 0.5s ease").

(** ** Initialization: caching and listeners *)

(** [cacheElements]: every named field receives [getElementById] of its own
    name, and [stageCards] the nodes of class [stage-card]. *)
Definition cacheElements (page : document) : World → World :=
  set_elems (λ _,
    {| refs := foldr (λ name m,
                 match byId page !! name with
                 | Some e => <[name := e]> m
                 | None => m
                 end) ∅ element_ids;
       stageCards := stage_cards page |}).

(** [setupEventListeners]: a click listener on each mode button that
    exists, and one on every in-page anchor. *)
Definition setupEventListeners (page : document) (w : World) : World :=
  let on_button name mode :=
    match refs (elems w) !! name with
    | Some _ => [ClickSwitches name mode]
    | None => []
    end in
  set_listeners (λ ls,
    (ls ++ on_button "analogBtn" "analog" ++ on_button "digitalBtn" "digital"
        ++ map ClickScrolls (List.seq 0 (anchors page)))%list) w.

(** ** Mode switching *)

Definition updateModeButtons (mode : string) : World → World :=
  on_element "analogBtn" (set_classList (λ c, c ∖ {["active"]}))
  >>> on_element "digitalBtn" (set_classList (λ c, c ∖ {["active"]}))
  >>> on_element (if String.eqb mode "analog" then "analogBtn" else "digitalBtn")
        (set_classList (λ c, c ∪ {["active"]})).

Definition updateModeText (mode : string) : World → World :=
  on_element "modeText"
    (set_textContent (if String.eqb mode "analog"
                      then "Capteur Analogique" else "Capteur Numérique")).

Definition setSensorIcon (svg : svg_icon) : World → World :=
  on_element "sensorIconWrapper" (set_innerHTML svg).

Definition getAnalogSensorIcon : svg_icon := AnalogSensorIcon.
Definition getDigitalSensorIcon : svg_icon := DigitalSensorIcon.

Definition updateSensorDisplay (mode : string) : World → World :=
  if String.eqb mode "analog" then
    setElementText "sensorTitle" "Capteur Analogique"
    >>> setElementText "sensorDescription" "Signal Analogique"
    >>> setSensorIcon getAnalogSensorIcon
  else
    setElementText "sensorTitle" "Capteur PIR"
    >>> setElementText "sensorDescription" "Signal Numérique"
    >>> setSensorIcon getDigitalSensorIcon.

Definition updateProcessingDisplay (mode : string) : World → World :=
  if String.eqb mode "analog" then
    setElementText "processingDescription" "ADC + Codage"
    >>> showElement "analogProcessing"
    >>> hideElement "digitalProcessing"
  else
    setElementText "processingDescription" "Codage Direct"
    >>> hideElement "analogProcessing"
    >>> showElement "digitalProcessing".

Definition updateApplicationDisplay (mode : string) : World → World :=
  if String.eqb mode "analog" then setElementText "appAction" "Chauffage"
  else setElementText "appAction" "Éclairage".

(** The body of the [forEach] of [animateModeTransition] for one card: the
    card is faded, and its reveal is scheduled after [index * 100] ms. *)
Definition fadeCard (w : World) (index : nat) : World :=
  let w1 :=
    set_elems (λ els,
      {| refs := refs els;
         stageCards := alter (set_style "transform" "scale(0.95)" ∘ set_style "opacity" "0")
                         index (stageCards els) |}) w in
  snd (setTimeout (CardReveal index) (Z.of_nat index * 100) w1).

Definition animateModeTransition (w : World) : World :=
  foldl fadeCard w (List.seq 0 (length (stageCards (elems w)))).

(** The closure scheduled by [animateModeTransition]. *)
Definition revealCard (index : nat) : World → World :=
  set_elems (λ els,
    {| refs := refs els;
       stageCards := alter (set_style "transform" "scale(1)" ∘ set_style "opacity" "1"
                            ∘ set_style "transition" "all 0.5s ease")
                       index (stageCards els) |}).

Definition switchMode (mode : string) (w : World) : World :=
  if String.eqb (currentMode (state w)) mode then w
  else
    (console_log ("🔄 Switching mode to: " +:+ mode)
     >>> set_state (set_currentMode mode)
     >>> updateModeButtons mode
     >>> updateModeText mode
     >>> updateSensorDisplay mode
     >>> updateProcessingDisplay mode
     >>> updateApplicationDisplay mode
     >>> animateModeTransition) w.

(** ** Real-time data updates *)

(** [updateTemperatureData]; [random] is the value of [Math.random()]. *)
Definition updateTemperatureData (cfg : config) (random : Q) : World → World :=
  set_state (set_data (λ d,
    set_temperature
      (JS.add (JS.Fin (TEMP_MIN cfg))
         (JS.mul (JS.Fin random)
            (JS.sub (JS.Fin (TEMP_MAX cfg)) (JS.Fin (TEMP_MIN cfg))))) d))
  >>> set_state (set_data (λ d,
    set_voltage
      (JS.add (JS.lit 2.0)
         (JS.mul (JS.sub (temperature d) (JS.Fin (TEMP_MIN cfg))) (JS.lit 0.1))) d))
  >>> set_state (set_data (λ d,
    set_adcValue
      (JS.floor
         (JS.mul (JS.div (voltage d) (JS.Fin (VOLTAGE_REF cfg)))
            (JS.of_Z (ADC_MAX cfg)))) d)).

(** [updatePIRData]; [random] is the value of [Math.random()]. *)
Definition updatePIRData (cfg : config) (random : Q) : World → World :=
  set_state (set_data (set_pirDetected
    (match Qcompare random (PIR_DETECTION_CHANCE cfg) with Lt => true | _ => false end))).

(** The four constants computed at the head of [updateAnalogDisplay]. *)
Record analog_signal := {
  as_temp : string;
  as_voltage : string;
  as_adc : JS.integral;
  as_binary : string
}.

Definition analogSignal (cfg : config) (d : app_data) : analog_signal := {|
  as_temp := JS.toFixed (temperature d) 1;
  as_voltage := JS.toFixed (voltage d) 2;
  as_adc := adcValue d;
  as_binary := JS.padStart (JS.toString2 (adcValue d)) (ADC_BITS cfg) "0"
|}.

(** The character U+0022, for the JSON text. *)
Definition dq : string := String (ascii_of_nat 34) "".

(** [updateAnalogDisplay]; [now] is the value of [Date.now()]. *)
Definition updateAnalogDisplay (cfg : config) (now : Z) (w : World) : World :=
  let s := analogSignal cfg (data (state w)) in
  (setElementText "sensorValue" (as_temp s +:+ "°C")
   >>> setElementText "sensorVoltage" (as_voltage s +:+ "V")
   >>> setElementText "sensorState" "Actif"
   >>> setElementText "adcValue" (JS.toString10 (as_adc s))
   >>> setElementText "binaryValue" (as_binary s)
   >>> setElementText "jsonPreview"
         ("{" +:+ dq +:+ "temp" +:+ dq +:+ ": " +:+ as_temp s +:+ ", "
          +:+ dq +:+ "ts" +:+ dq +:+ ": "
          +:+ JS.toString10 (JS.floor (JS.div (JS.of_Z now) (JS.lit 1000))) +:+ "}")
   >>> setElementText "appDisplay" (as_temp s +:+ "°C")
   >>> animateValueUpdate "sensorValue") w.

(** The five constants computed at the head of [updateDigitalDisplay]. *)
Record digital_signal := {
  ds_detected : bool;
  ds_state : string;
  ds_voltage : string;
  ds_binary : string;
  ds_status : string
}.

Definition digitalSignal (d : app_data) : digital_signal :=
  let detected := pirDetected d in {|
  ds_detected := detected;
  ds_state := if detected then "HIGH" else "LOW";
  ds_voltage := if detected then "3.3V" else "0V";
  ds_binary := if detected then "1" else "0";
  ds_status := if detected then "Mouvement" else "Aucun"
|}.

Definition updateDigitalDisplay (w : World) : World :=
  let s := digitalSignal (data (state w)) in
  (setElementText "sensorValue" (ds_status s)
   >>> setElementText "sensorVoltage" (ds_voltage s)
   >>> setElementText "sensorState" (ds_state s)
   >>> setElementText "gpioState" (ds_state s)
   >>> setElementText "gpioVoltage" (ds_voltage s)
   >>> setElementText "pirBinary" (ds_binary s)
   >>> setElementText "pirPayloadBit" (ds_binary s)
   >>> setElementText "appDisplay" (ds_status s)
   >>> on_element "sensorValue"
         (set_style "color" (if ds_detected s then "#10b981" else "#94a3b8"))
   >>> animateValueUpdate "sensorValue") w.

Definition updateDisplay (cfg : config) (now : Z) (w : World) : World :=
  if String.eqb (currentMode (state w)) "analog" then updateAnalogDisplay cfg now w
  else updateDigitalDisplay w.

(** [startRealTimeUpdates]; [r1] and [r2] are the two values of
    [Math.random()] drawn by the initial updates. *)
Definition startRealTimeUpdates (cfg : config) (r1 r2 : Q) (w : World) : World :=
  let w1 := (updateTemperatureData cfg r1 >>> updatePIRData cfg r2) w in
  let '(h1, w2) := setInterval TemperatureTick (UPDATE_INTERVAL cfg) w1 in
  let w3 := set_state (set_updateIntervals (λ u,
    {| ui_temperature := Some h1; ui_pir := ui_pir u; ui_animation := ui_animation u |})) w2 in
  let '(h2, w4) := setInterval PirTick (UPDATE_INTERVAL cfg) w3 in
  set_state (set_updateIntervals (λ u,
    {| ui_temperature := ui_temperature u; ui_pir := Some h2;
       ui_animation := ui_animation u |})) w4.

(** The closures of the two intervals of [startRealTimeUpdates]. *)
Definition temperatureTick (cfg : config) (random : Q) (now : Z) (w : World) : World :=
  if String.eqb (currentMode (state w)) "analog"
  then (updateTemperatureData cfg random >>> updateDisplay cfg now) w
  else w.

Definition pirTick (cfg : config) (random : Q) (now : Z) (w : World) : World :=
  if String.eqb (currentMode (state w)) "digital"
  then (updatePIRData cfg random >>> updateDisplay cfg now) w
  else w.

(** ** Stage animations *)

Definition updateStageCardState (isActive : bool) : element → element :=
  if isActive then
    set_style "transform" "scale(1.02)"
    ∘ set_style "boxShadow" "0 0 40px rgba(6, 182, 212, 0.4)"
    ∘ set_style "borderColor" "#06b6d4"
  else
    set_style "transform" "scale(1)"
    ∘ set_style "boxShadow" "0 4px 16px rgba(0, 0, 0, 0.3)"
    ∘ set_style "borderColor" "rgba(148, 163, 184, 0.2)".

Definition cycleActiveStage (w : World) : World :=
  let totalStages := Z.of_nat (length (stageCards (elems w))) in
  let w1 := set_state (set_data (λ d,
    set_activeStage (JS.rem (JS.succ (activeStage d)) totalStages) d)) w in
  on_stageCards (λ index card,
    let isActive := bool_decide (Some (Z.of_nat index) = activeStage (data (state w1))) in
    updateStageCardState isActive card) w1.

Definition startStageAnimations (cfg : config) (w : World) : World :=
  let w1 := set_state (set_data (set_activeStage (Some 0))) w in
  let '(h, w2) := setInterval AnimationTick (ANIMATION_INTERVAL cfg) w1 in
  set_state (set_updateIntervals (λ u,
    {| ui_temperature := ui_temperature u; ui_pir := ui_pir u;
       ui_animation := Some h |})) w2.

(** ** Cleanup *)

(** [if (interval) clearInterval(interval)]: [null] and the handle [0] are
    skipped. *)
Definition clearIfSet (interval : option Z) : World → World :=
  match interval with
  | Some h => if (h =? 0) then id else clearInterval h
  | None => id
  end.

(** [cleanup].  The script never assigns [animationFrameId]; cancelling an
    animation frame touches nothing that [World] holds. *)
Definition cleanup (w : World) : World :=
  let u := updateIntervals (state w) in
  (console_log "🧹 Cleaning up..."
   >>> clearIfSet (ui_temperature u)
   >>> clearIfSet (ui_pir u)
   >>> clearIfSet (ui_animation u)) w.

(** ** Initialization *)

(** [init] on the page [page]; [r1], [r2] and [now] are the two random
    draws of the initial data updates and the clock of the initial render. *)
Definition init (cfg : config) (page : document) (r1 r2 : Q) (now : Z) : World → World :=
  console_log "🚀 IoT Visualization System Initializing..."
  >>> cacheElements page
  >>> setupEventListeners page
  >>> startRealTimeUpdates cfg r1 r2
  >>> startStageAnimations cfg
  >>> updateDisplay cfg now
  >>> console_log "✅ IoT Visualization System Ready".

(** ** The event loop *)

(** What the host can make the script do once [init] has run: a click on a
    cached node, a timer that fires (with the random draw and the clock its
    closure may consume), a change of page visibility (with the two draws of
    a restart), the page being unloaded, and a call through the
    [window.IoTApp] handle. *)
Inductive event :=
| Click (target : string)
| Fires (h : Z) (random : Q) (now : Z)
| VisibilityChange (hidden : bool) (r1 r2 : Q)
| BeforeUnload
| CallSwitchMode (mode : string)
| CallUpdateDisplay (now : Z)
| CallCleanup.

Definition runListener (target : string) (l : listener) (w : World) : World :=
  match l with
  | ClickSwitches t mode => if String.eqb t target then switchMode mode w else w
  | ClickScrolls _ => w
  end.

Definition runCallback (cfg : config) (cb : callback) (random : Q) (now : Z)
    : World → World :=
  match cb with
  | TemperatureTick => temperatureTick cfg random now
  | PirTick => pirTick cfg random now
  | AnimationTick => cycleActiveStage
  | CardReveal index => revealCard index
  end.

Definition step (cfg : config) (w : World) (ev : event) : World :=
  match ev with
  | Click target => foldl (λ w l, runListener target l w) w (listeners w)
  | Fires h random now =>
      match List.find (λ t, handle t =? h) (timers w) with
      | Some t =>
          let w1 := if repeats t then w else clearInterval h w in
          runCallback cfg (action t) random now w1
      | None => w
      end
  | VisibilityChange true _ _ =>
      (console_log "⏸️ Page hidden - pausing updates" >>> cleanup) w
  | VisibilityChange false r1 r2 =>
      (console_log "▶️ Page visible - resuming updates"
       >>> startRealTimeUpdates cfg r1 r2
       >>> startStageAnimations cfg) w
  | BeforeUnload => cleanup w
  | CallSwitchMode mode => switchMode mode w
  | CallUpdateDisplay now => updateDisplay cfg now w
  | CallCleanup => cleanup w
  end.

Definition run (cfg : config) (w : World) (evs : list event) : World :=
  foldl (step cfg) w evs.

(** The worlds the script can be in on [page]: [init] from the initial
    world, then any events. *)
Definition reachable (cfg : config) (page : document) (w : World) : Prop :=
  ∃ r1 r2 now evs, w = run cfg (init cfg page r1 r2 now World0) evs.

(** [AppState.data] after one temperature update drawn at [random]. *)
Definition sampled (cfg : config) (random : Q) (w : World) : app_data :=
  data (state (updateTemperatureData cfg random w)).

(** The right-hand sides of the three assignments of
    [updateTemperatureData], as functions of the draw, of the temperature
    and of the voltage. *)
Definition temperatureOf (cfg : config) (random : Q) : JS.number :=
  JS.add (JS.Fin (TEMP_MIN cfg))
    (JS.mul (JS.Fin random) (JS.sub (JS.Fin (TEMP_MAX cfg)) (JS.Fin (TEMP_MIN cfg)))).

Definition voltageOf (cfg : config) (t : JS.number) : JS.number :=
  JS.add (JS.lit 2.0) (JS.mul (JS.sub t (JS.Fin (TEMP_MIN cfg))) (JS.lit 0.1)).

Definition adcValueOf (cfg : config) (v : JS.number) : JS.integral :=
  JS.floor (JS.mul (JS.div v (JS.Fin (VOLTAGE_REF cfg))) (JS.of_Z (ADC_MAX cfg))).

(** ** Reading the display *)

(** The text of the node cached under [name], [None] when the field is
    [null]. *)
Definition text_of (name : string) (w : World) : option string :=
  textContent <$> refs (elems w) !! name.

(** The active mode, the stage pointer and the number of stage cards. *)
Definition mode_of (w : World) : string := currentMode (state w).
Definition pointer (w : World) : option Z := activeStage (data (state w)).
Definition stageCount (w : World) : Z := Z.of_nat (length (stageCards (elems w))).

(** The stage pointer is an index of a stage card. *)
Definition stage_ok (w : World) : Prop :=
  ∃ p, pointer w = Some p ∧ 0 ≤ p < stageCount w.

(** Every mode-switching listener is one of the two that
    [setupEventListeners] installs. *)
Definition listeners_ok (w : World) : Prop :=
  ∀ target mode, ClickSwitches target mode ∈ listeners w →
    (target = "analogBtn" ∧ mode = "analog") ∨ (target = "digitalBtn" ∧ mode = "digital").

(** [f] leaves the observation [obs] of the world as it was. *)
Definition keeps {A : Type} (obs : World → A) (f : World → World) : Prop :=
  ∀ w, obs (f w) = obs w.

(** The number that a string of binary digits denotes, most significant
    digit first, continuing from [acc]; [None] when a character is not a
    binary digit. *)
Fixpoint binary_value_from (acc : Z) (s : string) : option Z :=
  match s with
  | EmptyString => Some acc
  | String c s' =>
      if Ascii.eqb c "0" then binary_value_from (2 * acc) s'
      else if Ascii.eqb c "1" then binary_value_from (2 * acc + 1) s'
      else None
  end.

Definition binary_value (s : string) : option Z := binary_value_from 0 s.

Definition binary_digits (s : string) : Prop :=
  Forall (λ c, c = "0"%char ∨ c = "1"%char) (list_ascii_of_string s).

(** ** Pages and configurations used as examples *)

Definition blank : element :=
  {| textContent := ""; innerHTML := None; classList := ∅; style := ∅ |}.

(** A page that has every node the script looks up, and [n] stage cards. *)
Definition page_with (n : nat) : document := {|
  byId := list_to_map (map (λ name, (name, blank)) element_ids);
  stage_cards := replicate n blank;
  anchors := 0
|}.

Definition with_TEMP_MAX (x : Q) (cfg : config) : config := {|
  UPDATE_INTERVAL := UPDATE_INTERVAL cfg; ANIMATION_INTERVAL := ANIMATION_INTERVAL cfg;
  ADC_BITS := ADC_BITS cfg; ADC_MAX := ADC_MAX cfg; VOLTAGE_REF := VOLTAGE_REF cfg;
  TEMP_MIN := TEMP_MIN cfg; TEMP_MAX := x;
  PIR_DETECTION_CHANCE := PIR_DETECTION_CHANCE cfg
|}.

Definition with_VOLTAGE_REF (x : Q) (cfg : config) : config := {|
  UPDATE_INTERVAL := UPDATE_INTERVAL cfg; ANIMATION_INTERVAL := ANIMATION_INTERVAL cfg;
  ADC_BITS := ADC_BITS cfg; ADC_MAX := ADC_MAX cfg; VOLTAGE_REF := x;
  TEMP_MIN := TEMP_MIN cfg; TEMP_MAX := TEMP_MAX cfg;
  PIR_DETECTION_CHANCE := PIR_DETECTION_CHANCE cfg
|}.

Definition with_ADC_BITS (x : Z) (cfg : config) : config := {|
  UPDATE_INTERVAL := UPDATE_INTERVAL cfg; ANIMATION_INTERVAL := ANIMATION_INTERVAL cfg;
  ADC_BITS := x; ADC_MAX := ADC_MAX cfg; VOLTAGE_REF := VOLTAGE_REF cfg;
  TEMP_MIN := TEMP_MIN cfg; TEMP_MAX := TEMP_MAX cfg;
  PIR_DETECTION_CHANCE := PIR_DETECTION_CHANCE cfg
|}.

Definition with_PIR_DETECTION_CHANCE (x : Q) (cfg : config) : config := {|
  UPDATE_INTERVAL := UPDATE_INTERVAL cfg; ANIMATION_INTERVAL := ANIMATION_INTERVAL cfg;
  ADC_BITS := ADC_BITS cfg; ADC_MAX := ADC_MAX cfg; VOLTAGE_REF := VOLTAGE_REF cfg;
  TEMP_MIN := TEMP_MIN cfg; TEMP_MAX := TEMP_MAX cfg;
  PIR_DETECTION_CHANCE := x
|}.

(** [Config] with the temperature range widened to 40 degrees. *)
Definition hotConfig : config := with_TEMP_MAX 40 Config.

(** ** Engine construction *)

(** The configurations that the specification calls invalid. *)
Definition invalid_configuration (cfg : config) : Prop :=
  ADC_BITS cfg ≤ 0 ∨ (TEMP_MAX cfg <= TEMP_MIN cfg)%Q ∨
  ¬ ((0 <= PIR_DETECTION_CHANCE cfg)%Q ∧ (PIR_DETECTION_CHANCE cfg <= 1)%Q).

(** ** The numeric path on primitive floats *)

(** The three assignments of [updateTemperatureData] on the primitive
    binary64 floats of the prover, for replaying a concrete reading and
    comparing it with the reading that [JS.round] gives. *)
Module Binary64.

Local Open Scope float_scope.
#[local] Set Warnings "-inexact-float".

(** [Math.floor] of a double, as an integer; [None] for NaN and the
    infinities. *)
Definition floor (x : float) : option Z :=
  match Prim2SF x with
  | S754_zero _ => Some 0%Z
  | S754_finite s m e =>
      let z := if s then Z.neg m else Z.pos m in
      Some (if (0 <=? e)%Z then z * 2 ^ e else z / 2 ^ (- e))%Z
  | _ => None
  end.

Definition TEMP_MIN : float := 20.
Definition TEMP_MAX : float := 25.
Definition VOLTAGE_REF : float := 3.3.
Definition ADC_MAX : float := 4095.
Definition PIR_DETECTION_CHANCE : float := 0.6.

(** The literals 0.1 and 2.45 of the script. *)
Definition tenth : float := 0.1.
Definition initial_voltage : float := 2.45.

Definition temperatureOf (random : float) : float :=
  TEMP_MIN + random * (TEMP_MAX - TEMP_MIN).

Definition voltageOf (temperature : float) : float :=
  2.0 + (temperature - TEMP_MIN) * 0.1.

Definition adcValueOf (voltage : float) : option Z :=
  floor ((voltage / VOLTAGE_REF) * ADC_MAX).

(** The Number that a primitive float denotes. *)
Definition number_of (x : float) : JS.number :=
  match Prim2SF x with
  | S754_zero _ => JS.Fin 0
  | S754_infinity s => JS.Inf s
  | S754_nan => JS.NaN
  | S754_finite s m e =>
      JS.Fin (Qred (inject_Z (if s then Z.neg m else Z.pos m) * JS.pow2 e))
  end.

Definition integral_of (z : option Z) : option JS.integral := JS.Int <$> z.

(** Draws at which the two computations are compared: the two ends of the
    unit interval, its middle, and two draws at which the stored code is
    one more than the floor of the exact quotient, with 3.3 taken as the
    decimal for the first and as the double for the second. *)
Definition draws : list float :=
  [0; 0.5; 0x1.fffffffffffffp-1; 0x1.33466799ac000p-12; 0x1.f3526859b7fd8p-10].

(** A reproducible sequence of pairs of doubles, for comparing the four
    operations of [JS] with those of the primitive floats: 53 bits of a
    linear congruential sequence as the significand, further bits as the
    sign and as the exponent, which [spread] multiplies. *)
Definition lcg (s : Z) : Z :=
  ((s * 6364136223846793005 + 1442695040888963407) mod 2 ^ 63)%Z.

Definition sample (spread s : Z) : float :=
  let m := PrimFloat.of_uint63 (Uint63.of_Z (s mod 2 ^ 53)) in
  let e := (((s / 2 ^ 53) mod 32 - 16) * spread)%Z in
  let x := PrimFloat.ldshiftexp m (Uint63.of_Z (e - 52 + 2101)) in
  if ((s / 2 ^ 58) mod 2 =? 0)%Z then x else PrimFloat.opp x.

Fixpoint samples (spread : Z) (n : nat) (s : Z) : list (float * float) :=
  match n with
  | O => []
  | S n' =>
      let s1 := lcg s in
      let s2 := lcg s1 in
      (sample spread s1, sample spread s2) :: samples spread n' s2
  end.

Definition same (x y : JS.number) : bool :=
  match x, y with
  | JS.Fin a, JS.Fin b => Qeq_bool a b
  | JS.Inf s, JS.Inf s' => Bool.eqb s s'
  | JS.NaN, JS.NaN => true
  | _, _ => false
  end.

Definition operations_agree (p : float * float) : bool :=
  let '(a, b) := p in
  same (JS.add (number_of a) (number_of b)) (number_of (a + b))
  && same (JS.sub (number_of a) (number_of b)) (number_of (a - b))
  && same (JS.mul (number_of a) (number_of b)) (number_of (a * b))
  && same (JS.div (number_of a) (number_of b)) (number_of (a / b)).

End Binary64.

(** The reading that [JS.round] gives at the draw [r] is the reading of the
    primitive floats. *)
Definition binary64_agrees (r : float) : Prop :=
  let t := Binary64.temperatureOf r in
  let v := Binary64.voltageOf t in
  match Binary64.number_of r with
  | JS.Fin q =>
      temperatureOf Config q = Binary64.number_of t ∧
      voltageOf Config (Binary64.number_of t) = Binary64.number_of v ∧
      Some (adcValueOf Config (Binary64.number_of v))
      = Binary64.integral_of (Binary64.adcValueOf v)
  | _ => False
  end.

(** ** Further observations of the world *)

(** The node cached under [name], and the stage card at [index]. *)
Definition node (name : string) (w : World) : option element := refs (elems w) !! name.
Definition card (index : nat) (w : World) : option element := stageCards (elems w) !! index.

(** The names under which [Elements] holds a node. *)
Definition nodes (w : World) : gset string := dom (refs (elems w)).

(** The handles of the timer table are positive, distinct and below the
    next handle that the host will give. *)
Definition handles_ok (w : World) : Prop :=
  1 ≤ nextHandle w ∧ NoDup (handle <$> timers w) ∧
  Forall (λ t, 1 ≤ handle t < nextHandle w) (timers w).

(** The three numbers of the analog reading. *)
Definition analog_data (w : World) : JS.number * JS.number * JS.integral :=
  (temperature (data (state w)), voltage (data (state w)), adcValue (data (state w))).

(** The voltage and the code are the ones computed from the temperature. *)
Definition analog_consistent (cfg : config) (w : World) : Prop :=
  voltage (data (state w)) = voltageOf cfg (temperature (data (state w))) ∧
  adcValue (data (state w)) = adcValueOf cfg (voltage (data (state w))).

(** [f] takes a world where [P] holds to a world where [P] holds. *)
Definition preserves (P : World → Prop) (f : World → World) : Prop :=
  ∀ w, P w → P (f w).

(** The draws carried by an event lie in [[0, 1)], as [Math.random()]
    promises. *)
Definition unit_draw (r : Q) : Prop := (0 <= r)%Q ∧ (r < 1)%Q.

Definition draws_ok (ev : event) : Prop :=
  match ev with
  | Fires _ random _ => unit_draw random
  | VisibilityChange _ r1 r2 => unit_draw r1 ∧ unit_draw r2
  | _ => True
  end.

(** The three intervals that [startRealTimeUpdates] and
    [startStageAnimations] register when the next free handle is [h]. *)
Definition started_timers (cfg : config) (h : Z) : list timer :=
  [ {| handle := h; repeats := true; delay := UPDATE_INTERVAL cfg; action := TemperatureTick |};
    {| handle := h + 1; repeats := true; delay := UPDATE_INTERVAL cfg; action := PirTick |};
    {| handle := h + 2; repeats := true; delay := ANIMATION_INTERVAL cfg;
       action := AnimationTick |} ].

(** The script constructs the engine by running [init] on the world of its
    two object literals.  The engine is running when the three intervals
    are registered under the handles kept in [AppState.updateIntervals]; a
    construction that rejected its configuration would leave none. *)
Definition engine_running (cfg : config) (w : World) : Prop :=
  ∃ h, timers w = started_timers cfg h ∧
       updateIntervals (state w)
       = {| ui_temperature := Some h; ui_pir := Some (h + 1); ui_animation := Some (h + 2) |}.

(** The timeouts that [animateModeTransition] registers for the cards
    [first], ..., [first + count - 1] when the next free handle is [h]. *)
Definition reveal_timer (h : Z) (index : nat) : timer :=
  {| handle := h + Z.of_nat index; repeats := false;
     delay := Z.of_nat index * 100; action := CardReveal index |}.

Definition reveal_timers (h : Z) (count : nat) : list timer :=
  reveal_timer h <$> List.seq 0 count.

(** The events that fire these timeouts, in the order of their delays. *)
Definition reveal_events (h : Z) (count : nat) (random : Q) (now : Z) : list event :=
  (λ index, Fires (h + Z.of_nat index) random now) <$> List.seq 0 count.

(** The two inline styles of a stage card: highlighted or not. *)
Definition highlighted (c : element) : Prop :=
  style c !! "borderColor" = Some "#06b6d4" ∧
  style c !! "boxShadow" = Some "0 0 40px rgba(6, 182, 212, 0.4)" ∧
  style c !! "transform" = Some "scale(1.02)".

Definition plain (c : element) : Prop :=
  style c !! "borderColor" = Some "rgba(148, 163, 184, 0.2)" ∧
  style c !! "boxShadow" = Some "0 4px 16px rgba(0, 0, 0, 0.3)" ∧
  style c !! "transform" = Some "scale(1)".

(** The data and animation ticks are intervals, the card reveals are
    one-shot timeouts. *)
Definition timer_kind_ok (t : timer) : Prop :=
  repeats t = match action t with CardReveal _ => false | _ => true end.

Definition kinds_ok (w : World) : Prop := Forall timer_kind_ok (timers w).

(** [f] changes each cached node [name] by [g name], and neither adds nor
    drops a node. *)
Definition effect (f : World → World) (g : string → element → element) : Prop :=
  ∀ name w, node name (f w) = g name <$> node name w.

(** The timer is registered under the handle stored in a field of
    [AppState.updateIntervals], and [cleanup] does not skip that field. *)
Definition stored_in (interval : option Z) (t : timer) : Prop :=
  match interval with
  | Some h => h ≠ 0 ∧ handle t = h
  | None => False
  end.

Definition cancelled_by_cleanup (w : World) (t : timer) : Prop :=
  stored_in (ui_temperature (updateIntervals (state w))) t ∨
  stored_in (ui_pir (updateIntervals (state w))) t ∨
  stored_in (ui_animation (updateIntervals (state w))) t.

#[global] Instance stored_in_dec (interval : option Z) (t : timer) :
  Decision (stored_in interval t).
Proof. destruct interval; simpl; apply _. Defined.

#[global] Instance cancelled_by_cleanup_dec (w : World) (t : timer) :
  Decision (cancelled_by_cleanup w t).
Proof. unfold cancelled_by_cleanup. apply _. Defined.

(** The listeners that [setupEventListeners] installs on [page]. *)
Definition page_listeners (page : document) : list listener :=
  ((match byId page !! "analogBtn" with
    | Some _ => [ClickSwitches "analogBtn" "analog"]
    | None => []
    end)
   ++ (match byId page !! "digitalBtn" with
       | Some _ => [ClickSwitches "digitalBtn" "digital"]
       | None => []
       end)
   ++ map ClickScrolls (List.seq 0 (anchors page)))%list.

(** * Properties *)

(** ** Binary strings *)

Section BinaryStrings.

Lemma string_length_app (s1 s2 : string) :
  String.length (s1 +:+ s2) = (String.length s1 + String.length s2)%nat.
Proof. induction s1 as [|c s1 IH]; simpl; [reflexivity | now rewrite IH]. Qed.

Lemma string_chars_app (s1 s2 : string) :
  list_ascii_of_string (s1 +:+ s2)
  = (list_ascii_of_string s1 ++ list_ascii_of_string s2)%list.
Proof. induction s1 as [|c s1 IH]; simpl; [reflexivity | now rewrite IH]. Qed.

Lemma binary_digits_app (s1 s2 : string) :
  binary_digits s1 → binary_digits s2 → binary_digits (s1 +:+ s2).
Proof.
  unfold binary_digits. intros H1 H2. rewrite string_chars_app.
  apply Forall_app. split; assumption.
Qed.

Lemma binary_value_from_app (s1 s2 : string) : ∀ acc,
  binary_value_from acc (s1 +:+ s2) =
  match binary_value_from acc s1 with
  | Some a => binary_value_from a s2
  | None => None
  end.
Proof.
  induction s1 as [|c s1 IH]; intros acc; simpl; [reflexivity|].
  destruct (Ascii.eqb c "0"); [apply IH|].
  destruct (Ascii.eqb c "1"); [apply IH | reflexivity].
Qed.

Lemma pos_toString2_length (p : positive) :
  String.length (JS.pos_toString2 p) = Pos.size_nat p.
Proof.
  induction p as [p IH|p IH|]; simpl; [| |reflexivity];
    rewrite string_length_app, IH; simpl; lia.
Qed.

Lemma pos_toString2_digits (p : positive) : binary_digits (JS.pos_toString2 p).
Proof.
  induction p as [p IH|p IH|]; simpl.
  - apply binary_digits_app; [exact IH|].
    constructor; [right; reflexivity | constructor].
  - apply binary_digits_app; [exact IH|].
    constructor; [left; reflexivity | constructor].
  - constructor; [right; reflexivity | constructor].
Qed.

(** Reading the digits of [p] after [acc] shifts [acc] by the number of
    digits and adds [p]. *)
Lemma pos_toString2_value (p : positive) : ∀ acc,
  binary_value_from acc (JS.pos_toString2 p)
  = Some (acc * 2 ^ Z.of_nat (Pos.size_nat p) + Z.pos p).
Proof.
  induction p as [p IH|p IH|]; intros acc; simpl JS.pos_toString2.
  - rewrite binary_value_from_app, IH. simpl binary_value_from. f_equal.
    simpl Pos.size_nat. rewrite Nat2Z.inj_succ, Z.pow_succ_r by lia. lia.
  - rewrite binary_value_from_app, IH. simpl binary_value_from. f_equal.
    simpl Pos.size_nat. rewrite Nat2Z.inj_succ, Z.pow_succ_r by lia. lia.
  - simpl. f_equal. lia.
Qed.

Lemma size_nat_le_width (p : positive) : ∀ n : nat,
  Z.pos p < 2 ^ Z.of_nat n → (Pos.size_nat p ≤ n)%nat.
Proof.
  induction p as [p IH|p IH|]; intros n Hn; simpl.
  - destruct n as [|n]; [simpl in Hn; lia|].
    rewrite Nat2Z.inj_succ, Z.pow_succ_r in Hn by lia.
    apply le_n_S, IH. lia.
  - destruct n as [|n]; [simpl in Hn; lia|].
    rewrite Nat2Z.inj_succ, Z.pow_succ_r in Hn by lia.
    apply le_n_S, IH. lia.
  - destruct n as [|n]; [simpl in Hn; lia | lia].
Qed.

(** A number needs more digits than [n] once it reaches [2^n]. *)
Lemma size_nat_gt_width (p : positive) : ∀ n : nat,
  2 ^ Z.of_nat n ≤ Z.pos p → (n < Pos.size_nat p)%nat.
Proof.
  induction p as [p IH|p IH|]; intros n Hn; simpl.
  - destruct n as [|n]; [lia|].
    rewrite Nat2Z.inj_succ, Z.pow_succ_r in Hn by lia.
    apply le_n_S, IH. lia.
  - destruct n as [|n]; [lia|].
    rewrite Nat2Z.inj_succ, Z.pow_succ_r in Hn by lia.
    apply le_n_S, IH. lia.
  - destruct n as [|n]; [lia|].
    rewrite Nat2Z.inj_succ, Z.pow_succ_r in Hn by lia.
    assert (0 < 2 ^ Z.of_nat n) by (apply Z.pow_pos_nonneg; lia). lia.
Qed.

Lemma filler_zeros_length (n : nat) : ∀ rest,
  rest = "0" ∨ rest = "" → String.length (JS.filler n "0" rest) = n.
Proof.
  induction n as [|n IH]; intros rest [-> | ->]; simpl; try reflexivity;
    rewrite IH; auto.
Qed.

Lemma filler_zeros_digits (n : nat) : ∀ rest,
  rest = "0" ∨ rest = "" → binary_digits (JS.filler n "0" rest).
Proof.
  unfold binary_digits.
  induction n as [|n IH]; intros rest [-> | ->]; simpl; constructor; auto.
Qed.

Lemma filler_zeros_value (n : nat) (s : string) : ∀ rest,
  rest = "0" ∨ rest = "" →
  binary_value_from 0 (JS.filler n "0" rest +:+ s) = binary_value_from 0 s.
Proof.
  induction n as [|n IH]; intros rest [-> | ->]; simpl; try reflexivity;
    apply IH; auto.
Qed.

Lemma binary_length_le (code : Z) (n : nat) :
  0 ≤ code < 2 ^ Z.of_nat n → (1 ≤ n)%nat →
  (String.length (JS.binary code) ≤ n)%nat.
Proof.
  intros [H0 H1] Hn. destruct code as [|p|p]; simpl; [exact Hn| |lia].
  rewrite pos_toString2_length. now apply size_nat_le_width.
Qed.

Lemma binary_digits_of (code : Z) : 0 ≤ code → binary_digits (JS.binary code).
Proof.
  intros H0. destruct code as [|p|p]; simpl; [|apply pos_toString2_digits|lia].
  constructor; [left; reflexivity | constructor].
Qed.

Lemma binary_value_of (code : Z) : 0 ≤ code → binary_value (JS.binary code) = Some code.
Proof.
  intros H0. destruct code as [|p|p]; simpl; [reflexivity| |lia].
  unfold binary_value. rewrite pos_toString2_value. f_equal.
Qed.

(** [padStart] with zeros, on a string that is not longer than the width. *)
Lemma padStart_zeros (s : string) (width : Z) :
  (String.length s ≤ Z.to_nat width)%nat →
  JS.padStart s width "0"
  = JS.filler (Z.to_nat width - String.length s) "0" "0" +:+ s.
Proof.
  intros Hle. unfold JS.padStart.
  destruct (Nat.leb_spec (Z.to_nat width) (String.length s)) as [Hge|Hlt]; [|reflexivity].
  replace (Z.to_nat width - String.length s)%nat with 0%nat by lia. reflexivity.
Qed.

(** A code that fits in [width] bits is rendered on exactly [width]
    binary digits that denote it. *)
Lemma padStart_binary_width (code width : Z) :
  1 ≤ width → 0 ≤ code < 2 ^ width →
  let bits := JS.padStart (JS.binary code) width "0" in
  String.length bits = Z.to_nat width ∧ binary_digits bits ∧
  bits = JS.filler (Z.to_nat width - String.length (JS.binary code)) "0" "0"
         +:+ JS.binary code ∧
  binary_value bits = Some code.
Proof.
  intros Hw [H0 H1] bits.
  assert (Hlen : (String.length (JS.binary code) ≤ Z.to_nat width)%nat).
  { apply binary_length_le; [|lia]. rewrite Z2Nat.id by lia. lia. }
  assert (Hbits : bits = JS.filler (Z.to_nat width - String.length (JS.binary code))
                           "0" "0" +:+ JS.binary code)
    by (apply padStart_zeros; exact Hlen).
  repeat split.
  - rewrite Hbits, string_length_app, filler_zeros_length by auto. lia.
  - rewrite Hbits. apply binary_digits_app;
      [apply filler_zeros_digits; auto | now apply binary_digits_of].
  - exact Hbits.
  - rewrite Hbits. unfold binary_value.
    rewrite filler_zeros_value by auto. now apply binary_value_of.
Qed.

(** A code of [2^width] or more is rendered on more than [width] digits:
    [padStart] never cuts. *)
Lemma padStart_overflow (code width : Z) :
  0 ≤ width → 2 ^ width ≤ code →
  (Z.to_nat width < String.length (JS.padStart (JS.binary code) width "0"))%nat.
Proof.
  intros Hw Hc.
  assert (Hpos : 0 < 2 ^ width) by (apply Z.pow_pos_nonneg; lia).
  destruct code as [|p|p]; [lia| |lia].
  assert (Hlt : (Z.to_nat width < String.length (JS.binary (Z.pos p)))%nat).
  { simpl. rewrite pos_toString2_length. apply size_nat_gt_width.
    rewrite Z2Nat.id by lia. exact Hc. }
  unfold JS.padStart.
  destruct (Nat.leb_spec (Z.to_nat width) (String.length (JS.binary (Z.pos p))));
    [exact Hlt | lia].
Qed.

End BinaryStrings.

(** ** Rounding to the nearest double *)

Section Rounding.

Local Open Scope Q_scope.

Lemma pow2_pos e : 0 < JS.pow2 e.
Proof. apply Qpower_0_lt. reflexivity. Qed.

Lemma pow2_add a b : JS.pow2 (a + b) == JS.pow2 a * JS.pow2 b.
Proof. apply Qpower_plus. discriminate. Qed.

Lemma pow2_le a b : (a ≤ b)%Z → JS.pow2 a <= JS.pow2 b.
Proof. intros H. apply Qpower_le_compat_l; [exact H | discriminate]. Qed.

Lemma pow2_Z n : (0 ≤ n)%Z → inject_Z (2 ^ n) == JS.pow2 n.
Proof. intros H. apply Zpower_Qpower, H. Qed.

Lemma Qmult_lt_both a b c d : 0 < a → a < b → 0 < c → c < d → a * c < b * d.
Proof.
  intros Ha Hab Hc Hcd. apply Qlt_trans with (a * d).
  - rewrite !(Qmult_comm a). apply Qmult_lt_compat_r; assumption.
  - apply Qmult_lt_compat_r; [|assumption]. apply Qlt_trans with c; assumption.
Qed.

Lemma Qmult_le_both a b c d : 0 <= a → a <= b → 0 <= c → c <= d → a * c <= b * d.
Proof.
  intros Ha Hab Hc Hcd. apply Qle_trans with (a * d).
  - rewrite !(Qmult_comm a). apply Qmult_le_compat_r; assumption.
  - apply Qmult_le_compat_r; [assumption|]. apply Qle_trans with c; assumption.
Qed.

(** [floor_log2] gives the binade of a positive rational. *)
Lemma floor_log2_spec q :
  0 < q → JS.pow2 (JS.floor_log2 q) <= q ∧ q < JS.pow2 (JS.floor_log2 q + 1).
Proof.
  intros Hq. destruct q as [n d].
  assert (Hn : (0 < n)%Z).
  { unfold Qlt in Hq. cbn in Hq. lia. }
  pose proof (Z.log2_spec n Hn) as [Hn1 Hn2].
  pose proof (Z.log2_spec (Zpos d) (Pos2Z.is_pos d)) as [Hd1 Hd2].
  pose proof (Z.log2_nonneg n) as Ha. pose proof (Z.log2_nonneg (Zpos d)) as Hb.
  set (a := Z.log2 n) in *. set (b := Z.log2 (Zpos d)) in *.
  assert (EN : inject_Z n == (n # d) * inject_Z (Zpos d)).
  { unfold Qeq, Qmult, inject_Z. cbn. lia. }
  assert (HN1 : JS.pow2 a <= inject_Z n).
  { rewrite <- pow2_Z by lia. rewrite <- Zle_Qle. exact Hn1. }
  assert (HN2 : inject_Z n < JS.pow2 (a + 1)).
  { rewrite <- pow2_Z by lia. rewrite <- Zlt_Qlt. exact Hn2. }
  assert (HD1 : JS.pow2 b <= inject_Z (Zpos d)).
  { rewrite <- pow2_Z by lia. rewrite <- Zle_Qle. exact Hd1. }
  assert (HD2 : inject_Z (Zpos d) < JS.pow2 (b + 1)).
  { rewrite <- pow2_Z by lia. rewrite <- Zlt_Qlt. exact Hd2. }
  assert (HD0 : 0 < inject_Z (Zpos d)) by reflexivity.
  unfold JS.floor_log2. cbn [Qnum Qden]. fold a b.
  destruct (Qle_bool (JS.pow2 (a - b)) (n # d)) eqn:E.
  - apply Qle_bool_iff in E. split; [exact E|].
    destruct (Qlt_le_dec (n # d) (JS.pow2 (a - b + 1))) as [H|H]; [exact H|exfalso].
    assert (H' : JS.pow2 (a - b + 1) * JS.pow2 b <= (n # d) * inject_Z (Zpos d)).
    { apply Qmult_le_both; auto using Qlt_le_weak, pow2_pos. }
    rewrite <- pow2_add, <- EN in H'. replace (a - b + 1 + b)%Z with (a + 1)%Z in H' by lia.
    lra.
  - assert (E' : n # d < JS.pow2 (a - b)).
    { apply Qnot_le_lt. intros H. apply Qle_bool_iff in H. congruence. }
    replace (a - b - 1 + 1)%Z with (a - b)%Z by lia. split; [|exact E'].
    destruct (Qlt_le_dec (n # d) (JS.pow2 (a - b - 1))) as [H|H]; [exfalso|exact H].
    assert (H' : (n # d) * inject_Z (Zpos d) < JS.pow2 (a - b - 1) * JS.pow2 (b + 1)).
    { apply Qmult_lt_both; auto. }
    rewrite <- pow2_add, <- EN in H'. replace (a - b - 1 + (b + 1))%Z with a in H' by lia.
    lra.
Qed.

Lemma floor_log2_mono a b : 0 < a → a <= b → (JS.floor_log2 a ≤ JS.floor_log2 b)%Z.
Proof.
  intros Ha Hab.
  destruct (floor_log2_spec a Ha) as [H1 _].
  destruct (floor_log2_spec b) as [_ H2]; [lra|].
  destruct (Z_le_gt_dec (JS.floor_log2 a) (JS.floor_log2 b)) as [H|H]; [exact H|exfalso].
  pose proof (pow2_le (JS.floor_log2 b + 1) (JS.floor_log2 a) ltac:(lia)). lra.
Qed.

(** Rounding to the nearest integer, ties to even: it is within one half of
    its argument, it fixes the integers and it is monotone. *)
Lemma rne_bounds y : (Qfloor y ≤ JS.rne y ≤ Qfloor y + 1)%Z.
Proof.
  unfold JS.rne. destruct (Qcompare _ _); [destruct (Z.even _)|..]; lia.
Qed.

Lemma rne_error y : inject_Z (JS.rne y) - (1 # 2) <= y ∧ y <= inject_Z (JS.rne y) + (1 # 2).
Proof.
  pose proof (Qfloor_le y) as H1. pose proof (Qlt_floor y) as H2.
  rewrite inject_Z_plus in H2. change (inject_Z 1) with 1 in H2. unfold JS.rne.
  destruct (Qcompare_spec (y - inject_Z (Qfloor y)) (1 # 2)) as [E|E|E].
  - destruct (Z.even (Qfloor y)); rewrite ?inject_Z_plus; change (inject_Z 1) with 1;
      split; lra.
  - split; lra.
  - rewrite inject_Z_plus. change (inject_Z 1) with 1. split; lra.
Qed.

Lemma rne_Z z : JS.rne (inject_Z z) = z.
Proof.
  unfold JS.rne. rewrite Qfloor_Z.
  assert (E0 : inject_Z z - inject_Z z == 0) by ring.
  destruct (Qcompare_spec (inject_Z z - inject_Z z) (1 # 2)) as [E|E|E];
    [|reflexivity|]; rewrite E0 in E; discriminate E.
Qed.

Lemma rne_mono a b : a <= b → (JS.rne a ≤ JS.rne b)%Z.
Proof.
  intros Hab. pose proof (Qfloor_resp_le a b Hab) as Hf.
  destruct (Z.eq_dec (Qfloor a) (Qfloor b)) as [E|E].
  - unfold JS.rne. rewrite E.
    destruct (Qcompare_spec (a - inject_Z (Qfloor b)) (1 # 2)) as [Ea|Ea|Ea];
      destruct (Qcompare_spec (b - inject_Z (Qfloor b)) (1 # 2)) as [Eb|Eb|Eb];
      try destruct (Z.even (Qfloor b)); try lia; exfalso; lra.
  - pose proof (rne_bounds a). pose proof (rne_bounds b). lia.
Qed.

Lemma scaled_lt q e k : q < JS.pow2 (e + k) → q / JS.pow2 e < JS.pow2 k.
Proof.
  intros H. apply Qlt_shift_div_r; [apply pow2_pos|].
  rewrite <- pow2_add. now rewrite Z.add_comm.
Qed.

Lemma scaled_le q e k : JS.pow2 (e + k) <= q → JS.pow2 k <= q / JS.pow2 e.
Proof.
  intros H. apply Qle_shift_div_l; [apply pow2_pos|].
  rewrite <- pow2_add. now rewrite Z.add_comm.
Qed.

Lemma rne_below y k : (0 ≤ k)%Z → y <= JS.pow2 k → inject_Z (JS.rne y) <= JS.pow2 k.
Proof.
  intros Hk H. rewrite <- pow2_Z in * by exact Hk.
  rewrite <- Zle_Qle. rewrite <- (rne_Z (2 ^ k)). now apply rne_mono.
Qed.

Lemma rne_above y k : (0 ≤ k)%Z → JS.pow2 k <= y → JS.pow2 k <= inject_Z (JS.rne y).
Proof.
  intros Hk H. rewrite <- pow2_Z in * by exact Hk.
  rewrite <- Zle_Qle. rewrite <- (rne_Z (2 ^ k)) at 1. now apply rne_mono.
Qed.

(** The nearest double is monotone: within a binade by the monotony of
    [rne], across two binades because the power of two between them is a
    double. *)
Lemma nearest_mono a b : 0 < a → a <= b → JS.nearest a <= JS.nearest b.
Proof.
  intros Ha Hab. assert (Hb : 0 < b) by lra.
  pose proof (floor_log2_mono a b Ha Hab) as Hl.
  destruct (floor_log2_spec a Ha) as [_ Ha2]. destruct (floor_log2_spec b Hb) as [Hb1 _].
  unfold JS.nearest.
  set (la := JS.floor_log2 a) in *. set (lb := JS.floor_log2 b) in *.
  set (ea := Z.max (la - 52) (-1074)). set (eb := Z.max (lb - 52) (-1074)).
  destruct (Z.eq_dec ea eb) as [E|E].
  - rewrite E. apply Qmult_le_compat_r; [|apply Qlt_le_weak, pow2_pos].
    rewrite <- Zle_Qle. apply rne_mono.
    apply Qmult_le_compat_r; [exact Hab|]. apply Qlt_le_weak, Qinv_lt_0_compat, pow2_pos.
  - assert (Hlt : (ea < eb)%Z) by lia. assert (Eb : eb = (lb - 52)%Z) by lia.
    apply Qle_trans with (JS.pow2 53 * JS.pow2 ea).
    + apply Qmult_le_compat_r; [|apply Qlt_le_weak, pow2_pos].
      apply rne_below; [lia|]. apply Qlt_le_weak, scaled_lt.
      apply Qlt_le_trans with (1 := Ha2). apply pow2_le. lia.
    + apply Qle_trans with (JS.pow2 52 * JS.pow2 eb).
      * rewrite <- !pow2_add. apply pow2_le. lia.
      * apply Qmult_le_compat_r; [|apply Qlt_le_weak, pow2_pos].
        apply rne_above; [lia|]. apply scaled_le.
        apply Qle_trans with (2 := Hb1). apply pow2_le. lia.
Qed.

Lemma nearest_nonneg q : 0 < q → 0 <= JS.nearest q.
Proof.
  intros Hq. unfold JS.nearest. apply Qmult_le_0_compat; [|apply Qlt_le_weak, pow2_pos].
  change 0 with (inject_Z 0). rewrite <- Zle_Qle.
  rewrite <- (rne_Z 0). apply rne_mono. change (inject_Z 0) with 0.
  apply Qlt_le_weak, Qlt_shift_div_l; [apply pow2_pos|]. rewrite Qmult_0_l. exact Hq.
Qed.

(** One rounding moves a positive rational below [2^k] by at most half a
    unit in the last place of that binade. *)
Lemma nearest_error q k :
  0 < q → q < JS.pow2 k → (-1021 ≤ k)%Z →
  q - JS.pow2 (k - 54) <= JS.nearest q ∧ JS.nearest q <= q + JS.pow2 (k - 54).
Proof.
  intros Hq Hk Hmin. destruct (floor_log2_spec q Hq) as [H1 _].
  assert (Hl : (JS.floor_log2 q < k)%Z).
  { destruct (Z_lt_ge_dec (JS.floor_log2 q) k) as [H|H]; [exact H|exfalso].
    pose proof (pow2_le k (JS.floor_log2 q) ltac:(lia)). lra. }
  unfold JS.nearest. set (e := Z.max (JS.floor_log2 q - 52) (-1074)).
  assert (He : (e ≤ k - 53)%Z) by lia.
  pose proof (rne_error (q / JS.pow2 e)) as [E1 E2].
  pose proof (pow2_pos e) as Hp.
  assert (Eq : q == (q / JS.pow2 e) * JS.pow2 e) by (field; lra).
  set (y := q / JS.pow2 e) in *. set (m := inject_Z (JS.rne y)) in *.
  assert (Hh : (1 # 2) * JS.pow2 e <= JS.pow2 (k - 54)).
  { change (1 # 2) with (JS.pow2 (-1)). rewrite <- pow2_add. apply pow2_le. lia. }
  assert (A1 : (m - (1 # 2)) * JS.pow2 e <= y * JS.pow2 e)
    by (apply Qmult_le_compat_r; lra).
  assert (A2 : y * JS.pow2 e <= (m + (1 # 2)) * JS.pow2 e)
    by (apply Qmult_le_compat_r; lra).
  assert (B1 : (m - (1 # 2)) * JS.pow2 e == m * JS.pow2 e - (1 # 2) * JS.pow2 e) by ring.
  assert (B2 : (m + (1 # 2)) * JS.pow2 e == m * JS.pow2 e + (1 # 2) * JS.pow2 e) by ring.
  set (h := (1 # 2) * JS.pow2 e) in *. set (x := m * JS.pow2 e) in *.
  set (z := y * JS.pow2 e) in *. split; lra.
Qed.

Lemma round_not_NaN q : JS.round q ≠ JS.NaN.
Proof.
  unfold JS.round. destruct (Qcompare q 0); [discriminate|..];
    cbv zeta; destruct (Qle_bool _ _); discriminate.
Qed.

(** Rounding is monotone, the infinities included. *)
Lemma round_mono a b : a <= b → JS.le (JS.round a) (JS.round b).
Proof.
  intros Hab. unfold JS.round.
  destruct (Qcompare_spec a 0) as [Ea|Ea|Ea]; destruct (Qcompare_spec b 0) as [Eb|Eb|Eb];
    cbv zeta; try (exfalso; lra).
  - cbn. lra.
  - destruct (Qle_bool _ _); cbn; [exact I|]. rewrite Qred_correct. now apply nearest_nonneg.
  - destruct (Qle_bool _ _); cbn; [exact I|]. rewrite Qred_correct.
    pose proof (nearest_nonneg (- a)). lra.
  - pose proof (nearest_mono (- b) (- a) ltac:(lra) ltac:(lra)) as H.
    destruct (Qle_bool (JS.pow2 1024) (JS.nearest (- a))) eqn:Oa;
      destruct (Qle_bool (JS.pow2 1024) (JS.nearest (- b))) eqn:Ob; cbn; try exact I.
    + apply Qle_bool_iff in Ob.
      assert (¬ JS.pow2 1024 <= JS.nearest (- a)) by (rewrite <- Qle_bool_iff; congruence).
      lra.
    + rewrite !Qred_correct. lra.
  - pose proof (nearest_nonneg (- a)). pose proof (nearest_nonneg b).
    destruct (Qle_bool (JS.pow2 1024) (JS.nearest (- a)));
      destruct (Qle_bool (JS.pow2 1024) (JS.nearest b)); cbn; try exact I.
    rewrite !Qred_correct. lra.
  - pose proof (nearest_mono a b ltac:(lra) ltac:(lra)) as H.
    destruct (Qle_bool (JS.pow2 1024) (JS.nearest a)) eqn:Oa;
      destruct (Qle_bool (JS.pow2 1024) (JS.nearest b)) eqn:Ob; cbn; try exact I.
    + apply Qle_bool_iff in Oa.
      assert (¬ JS.pow2 1024 <= JS.nearest b) by (rewrite <- Qle_bool_iff; congruence).
      lra.
    + rewrite !Qred_correct. lra.
Qed.

(** The rounding of a positive rational below [2^k] is finite and within
    [eps] of it, when [eps] is at least half a unit in the last place. *)
Lemma round_error q k eps :
  0 <= q → q < JS.pow2 k → (-1021 ≤ k ≤ 1023)%Z → JS.pow2 (k - 54) <= eps →
  ∃ x, JS.round q = JS.Fin x ∧ q - eps <= x ∧ x <= q + eps.
Proof.
  intros Hq Hk Hr He. pose proof (pow2_pos (k - 54)) as Hp. unfold JS.round.
  destruct (Qcompare_spec q 0) as [E|E|E]; [|exfalso; lra|].
  - exists 0. split; [reflexivity|]. rewrite E. split; lra.
  - destruct (nearest_error q k E Hk ltac:(lia)) as [N1 N2]. cbv zeta.
    assert (Hbig : JS.pow2 k + JS.pow2 (k - 54) < JS.pow2 1024).
    { apply Qle_lt_trans with (JS.pow2 1023 + JS.pow2 969).
      - assert (JS.pow2 k <= JS.pow2 1023) by (apply pow2_le; lia).
        assert (JS.pow2 (k - 54) <= JS.pow2 969) by (apply pow2_le; lia). lra.
      - vm_compute. reflexivity. }
    destruct (Qle_bool (JS.pow2 1024) (JS.nearest q)) eqn:O.
    + apply Qle_bool_iff in O. exfalso. lra.
    + exists (Qred (JS.nearest q)). split; [reflexivity|]. rewrite Qred_correct. split; lra.
Qed.

End Rounding.

(** ** Arithmetic on Numbers *)

Section Arithmetic.

Local Open Scope Q_scope.

Lemma add_Fin a b : JS.add (JS.Fin a) (JS.Fin b) = JS.round (a + b).
Proof. reflexivity. Qed.

Lemma sub_Fin a b : JS.sub (JS.Fin a) (JS.Fin b) = JS.round (a + - b).
Proof. reflexivity. Qed.

Lemma mul_Fin a b : JS.mul (JS.Fin a) (JS.Fin b) = JS.round (a * b).
Proof. reflexivity. Qed.

Lemma positive_flags c : 0 < c → JS.is_zero c = false ∧ JS.is_negative c = false.
Proof.
  intros Hc. unfold JS.is_zero, JS.is_negative.
  destruct (Qcompare_spec c 0) as [E|E|E]; [exfalso; lra | exfalso; lra | split; reflexivity].
Qed.

Lemma div_Fin a c : 0 < c → JS.div (JS.Fin a) (JS.Fin c) = JS.round (a / c).
Proof. intros Hc. unfold JS.div. now rewrite (proj1 (positive_flags c Hc)). Qed.

(** A Number between two doubles is a double between them, and likewise
    for the integral Numbers. *)
Lemma le_Fin_inv lo hi x :
  JS.le (JS.Fin lo) x → JS.le x (JS.Fin hi) → ∃ q, x = JS.Fin q ∧ lo <= q ∧ q <= hi.
Proof. destruct x as [q|[|]|]; cbn; try contradiction. eauto. Qed.

Lemma int_le_Int_inv lo hi n :
  JS.int_le (JS.Int lo) n → JS.int_le n (JS.Int hi) → ∃ c, n = JS.Int c ∧ (lo ≤ c ≤ hi)%Z.
Proof. destruct n as [c|[|]|]; cbn; try contradiction. eauto. Qed.

Lemma Inf_le_round q : JS.le (JS.Inf true) (JS.round q).
Proof.
  pose proof (round_not_NaN q). destruct (JS.round q) as [x|[|]|]; cbn; auto.
Qed.

Lemma round_le_Inf q : JS.le (JS.round q) (JS.Inf false).
Proof.
  pose proof (round_not_NaN q). destruct (JS.round q) as [x|[|]|]; cbn; auto.
Qed.

(** Each operation of the numeric path is monotone in its varying
    operand. *)
Lemma sub_mono a x y : JS.le x y → JS.le (JS.sub x (JS.Fin a)) (JS.sub y (JS.Fin a)).
Proof.
  destruct x as [p|[|]|], y as [q|[|]|]; cbn [JS.le]; try contradiction; intros H;
    cbn [JS.sub JS.neg JS.add]; try exact I.
  - apply round_mono. lra.
  - apply round_le_Inf.
  - apply Inf_le_round.
Qed.

Lemma add_mono a x y : JS.le x y → JS.le (JS.add (JS.Fin a) x) (JS.add (JS.Fin a) y).
Proof.
  destruct x as [p|[|]|], y as [q|[|]|]; cbn [JS.le]; try contradiction; intros H;
    cbn [JS.add]; try exact I.
  - apply round_mono. lra.
  - apply round_le_Inf.
  - apply Inf_le_round.
Qed.

Lemma mul_mono c x y :
  0 < c → JS.le x y → JS.le (JS.mul x (JS.Fin c)) (JS.mul y (JS.Fin c)).
Proof.
  intros Hc. destruct (positive_flags c Hc) as [Hz Hn].
  destruct x as [p|[|]|], y as [q|[|]|]; cbn [JS.le]; try contradiction; intros H;
    cbn [JS.mul]; rewrite ?Hz, ?Hn; cbn [xorb]; try exact I.
  - apply round_mono. apply Qmult_le_compat_r; lra.
  - apply round_le_Inf.
  - apply Inf_le_round.
Qed.

Lemma div_mono c x y :
  0 < c → JS.le x y → JS.le (JS.div x (JS.Fin c)) (JS.div y (JS.Fin c)).
Proof.
  intros Hc. destruct (positive_flags c Hc) as [Hz Hn].
  assert (Hi : 0 <= / c) by (apply Qlt_le_weak, Qinv_lt_0_compat, Hc).
  destruct x as [p|[|]|], y as [q|[|]|]; cbn [JS.le]; try contradiction; intros H;
    cbn [JS.div]; rewrite ?Hz, ?Hn; cbn [xorb]; try exact I.
  - apply round_mono. unfold Qdiv. now apply Qmult_le_compat_r.
  - apply round_le_Inf.
  - apply Inf_le_round.
Qed.

Lemma floor_mono x y : JS.le x y → JS.int_le (JS.floor x) (JS.floor y).
Proof.
  destruct x as [p|[|]|], y as [q|[|]|]; cbn; try contradiction; auto.
  apply Qfloor_resp_le.
Qed.

End Arithmetic.

(** ** The analog pipeline *)

Section AnalogPipeline.

Local Open Scope Q_scope.

Lemma sampled_temperature cfg r w : temperature (sampled cfg r w) = temperatureOf cfg r.
Proof. reflexivity. Qed.

Lemma sampled_voltage cfg r w :
  voltage (sampled cfg r w) = voltageOf cfg (temperature (sampled cfg r w)).
Proof. reflexivity. Qed.

Lemma sampled_adcValue cfg r w :
  adcValue (sampled cfg r w) = adcValueOf cfg (voltage (sampled cfg r w)).
Proof. reflexivity. Qed.

(** The data update touches no other field of the data, and nothing
    outside [AppState.data]. *)
Lemma sampled_other_fields cfg r w :
  pirDetected (sampled cfg r w) = pirDetected (data (state w)) ∧
  activeStage (sampled cfg r w) = activeStage (data (state w)) ∧
  currentMode (state (updateTemperatureData cfg r w)) = currentMode (state w) ∧
  elems (updateTemperatureData cfg r w) = elems w ∧
  timers (updateTemperatureData cfg r w) = timers w ∧
  console (updateTemperatureData cfg r w) = console w.
Proof. repeat split. Qed.

(** The two literals of the voltage formula: 2.0 is a double, 0.1 is not,
    and the double that it denotes is positive. *)
Lemma lit_two : JS.lit 2.0 = JS.Fin 2.
Proof. vm_compute. reflexivity. Qed.

Lemma lit_tenth : JS.lit 0.1 = JS.Fin (3602879701896397 # 36028797018963968).
Proof. vm_compute. reflexivity. Qed.

(** The voltage does not decrease with the temperature, whatever the
    configuration and the temperature. *)
Lemma voltageOf_mono cfg x y : JS.le x y → JS.le (voltageOf cfg x) (voltageOf cfg y).
Proof.
  intros H. unfold voltageOf. rewrite lit_two, lit_tenth.
  apply add_mono, mul_mono; [reflexivity|]. now apply sub_mono.
Qed.

(** The code does not decrease with the voltage when the reference voltage
    and the full scale are positive. *)
Lemma adcValueOf_mono cfg a x y :
  0 < VOLTAGE_REF cfg → JS.of_Z (ADC_MAX cfg) = JS.Fin a → 0 < a →
  JS.le x y → JS.int_le (adcValueOf cfg x) (adcValueOf cfg y).
Proof.
  intros Hv Ha Hpos H. unfold adcValueOf. rewrite Ha.
  apply floor_mono, mul_mono; [exact Hpos|]. now apply div_mono.
Qed.

Lemma default_span : JS.sub (JS.Fin (TEMP_MAX Config)) (JS.Fin (TEMP_MIN Config)) = JS.Fin 5.
Proof. vm_compute. reflexivity. Qed.

Lemma temperatureOf_default_mono r1 r2 :
  r1 <= r2 → JS.le (temperatureOf Config r1) (temperatureOf Config r2).
Proof.
  intros H. unfold temperatureOf. rewrite default_span.
  apply add_mono, mul_mono; [reflexivity | exact H].
Qed.

(** Under [Config] a draw of [[0, 1]] gives a temperature of [[20, 25]], a
    temperature of [[20, 25]] a voltage of [[2, 2.5]], and a voltage of
    [[2, 2.5]] a code of [[2481, 3102]]: each step is monotone and the ends
    are computed. *)
Lemma default_temperature_range r :
  0 <= r → r <= 1 → ∃ t, temperatureOf Config r = JS.Fin t ∧ 20 <= t ∧ t <= 25.
Proof.
  intros H0 H1. apply le_Fin_inv.
  - replace (JS.Fin 20) with (temperatureOf Config 0) by (vm_compute; reflexivity).
    now apply temperatureOf_default_mono.
  - replace (JS.Fin 25) with (temperatureOf Config 1) by (vm_compute; reflexivity).
    now apply temperatureOf_default_mono.
Qed.

Lemma default_voltage_range t :
  20 <= t → t <= 25 → ∃ v, voltageOf Config (JS.Fin t) = JS.Fin v ∧ 2 <= v ∧ v <= 2.5.
Proof.
  intros H0 H1.
  destruct (le_Fin_inv 2 (5 # 2) (voltageOf Config (JS.Fin t))) as (v & E & L & H).
  - replace (JS.Fin 2) with (voltageOf Config (JS.Fin 20)) by (vm_compute; reflexivity).
    now apply voltageOf_mono.
  - replace (JS.Fin (5 # 2)) with (voltageOf Config (JS.Fin 25)) by (vm_compute; reflexivity).
    now apply voltageOf_mono.
  - exists v. split; [exact E|]. split; lra.
Qed.

Lemma default_code_of v :
  2 <= v → v <= 2.5 →
  ∃ c, adcValueOf Config (JS.Fin v) = JS.Int c ∧ (2481 ≤ c ≤ 3102)%Z.
Proof.
  intros H0 H1.
  assert (Hv : 0 < VOLTAGE_REF Config) by (vm_compute; reflexivity).
  assert (Ha : JS.of_Z (ADC_MAX Config) = JS.Fin 4095) by (vm_compute; reflexivity).
  apply int_le_Int_inv.
  - replace (JS.Int 2481) with (adcValueOf Config (JS.Fin 2)) by (vm_compute; reflexivity).
    apply (adcValueOf_mono Config 4095); [exact Hv | exact Ha | reflexivity | exact H0].
  - replace (JS.Int 3102) with (adcValueOf Config (JS.Fin 2.5))
      by (vm_compute; reflexivity).
    apply (adcValueOf_mono Config 4095); [exact Hv | exact Ha | reflexivity | exact H1].
Qed.

Lemma default_reading r w :
  0 <= r → r < 1 →
  ∃ t v c, temperature (sampled Config r w) = JS.Fin t ∧ 20 <= t ∧ t <= 25 ∧
           voltage (sampled Config r w) = JS.Fin v ∧ 2 <= v ∧ v <= 2.5 ∧
           adcValue (sampled Config r w) = JS.Int c ∧ (2481 ≤ c ≤ 3102)%Z.
Proof.
  intros H0 H1.
  destruct (default_temperature_range r H0 ltac:(lra)) as (t & Et & Lt & Ht).
  destruct (default_voltage_range t Lt Ht) as (v & Ev & Lv & Hv).
  destruct (default_code_of v Lv Hv) as (c & Ec & Hc).
  exists t, v, c. rewrite sampled_adcValue, sampled_voltage, sampled_temperature.
  rewrite Et, Ev, Ec. repeat split; tauto || lia.
Qed.

Lemma default_code_range r w :
  0 <= r → r < 1 →
  ∃ c, adcValue (sampled Config r w) = JS.Int c ∧ (2481 ≤ c ≤ 3102)%Z.
Proof.
  intros H0 H1. destruct (default_reading r w H0 H1) as (t & v & c & H).
  exists c. tauto.
Qed.

(** The floor is not capped: a ratio of 1 or more gives a code of at least
    [ADC_MAX], when [ADC_MAX] is a positive integer that a double holds. *)
Lemma code_above_full_scale cfg v :
  (1 ≤ ADC_MAX cfg)%Z → JS.of_Z (ADC_MAX cfg) = JS.Fin (inject_Z (ADC_MAX cfg)) →
  JS.le (JS.Fin 1) (JS.div v (JS.Fin (VOLTAGE_REF cfg))) →
  JS.int_le (JS.Int (ADC_MAX cfg)) (adcValueOf cfg v).
Proof.
  intros HA Hrep Hx. unfold adcValueOf. rewrite Hrep.
  assert (HA' : 1 <= inject_Z (ADC_MAX cfg)).
  { change 1 with (inject_Z 1). rewrite <- Zle_Qle. exact HA. }
  destruct (JS.div v (JS.Fin (VOLTAGE_REF cfg))) as [x|[|]|]; cbn [JS.le] in Hx;
    try contradiction.
  - rewrite mul_Fin.
    assert (Hm : JS.le (JS.Fin (inject_Z (ADC_MAX cfg)))
                   (JS.round (x * inject_Z (ADC_MAX cfg)))).
    { rewrite <- Hrep. unfold JS.of_Z. apply round_mono.
      assert (H : 0 <= (x - 1) * inject_Z (ADC_MAX cfg)) by (apply Qmult_le_0_compat; lra).
      assert (E : x * inject_Z (ADC_MAX cfg)
                  == inject_Z (ADC_MAX cfg) + (x - 1) * inject_Z (ADC_MAX cfg)) by ring.
      rewrite E. set (b := (x - 1) * inject_Z (ADC_MAX cfg)) in *. lra. }
    apply floor_mono in Hm. cbn [JS.floor] in Hm. rewrite Qfloor_Z in Hm. exact Hm.
  - cbn [JS.mul]. destruct (positive_flags (inject_Z (ADC_MAX cfg)) ltac:(lra)) as [-> ->].
    exact I.
Qed.

End AnalogPipeline.

(** ** What the display shows *)

Lemma text_of_setElementText name name' text w :
  text_of name (setElementText name' text w)
  = if decide (name' = name) then (λ _, text) <$> text_of name w else text_of name w.
Proof.
  unfold text_of, setElementText, on_element. cbn.
  destruct (decide (name' = name)) as [->|Hne].
  - rewrite lookup_alter_eq. destruct (refs (elems w) !! name) as [e|]; [|reflexivity].
    cbn. destruct (decide (textContent e = text)) as [->|]; reflexivity.
  - now rewrite lookup_alter_ne.
Qed.

Lemma text_of_set_style name name' prop value w :
  text_of name (on_element name' (set_style prop value) w) = text_of name w.
Proof.
  unfold text_of, on_element. cbn.
  destruct (decide (name' = name)) as [->|Hne].
  - rewrite lookup_alter_eq. now destruct (refs (elems w) !! name).
  - now rewrite lookup_alter_ne.
Qed.

Lemma text_of_animateValueUpdate name name' w :
  text_of name (animateValueUpdate name' w) = text_of name w.
Proof. unfold animateValueUpdate, andThen. now rewrite !text_of_set_style. Qed.

Ltac read_text :=
  unfold andThen;
  rewrite ?text_of_animateValueUpdate, ?text_of_set_style, ?text_of_setElementText;
  repeat (case_decide; try discriminate; try contradiction);
  try reflexivity.

(** The texts on the page after a render in digital mode: each node that
    exists shows the constant computed from [pirDetected]. *)
Lemma updateDigitalDisplay_texts w :
  let s := digitalSignal (data (state w)) in
  let w' := updateDigitalDisplay w in
  text_of "sensorValue" w' = (λ _, ds_status s) <$> text_of "sensorValue" w ∧
  text_of "sensorVoltage" w' = (λ _, ds_voltage s) <$> text_of "sensorVoltage" w ∧
  text_of "sensorState" w' = (λ _, ds_state s) <$> text_of "sensorState" w ∧
  text_of "gpioState" w' = (λ _, ds_state s) <$> text_of "gpioState" w ∧
  text_of "gpioVoltage" w' = (λ _, ds_voltage s) <$> text_of "gpioVoltage" w ∧
  text_of "pirBinary" w' = (λ _, ds_binary s) <$> text_of "pirBinary" w ∧
  text_of "pirPayloadBit" w' = (λ _, ds_binary s) <$> text_of "pirPayloadBit" w ∧
  text_of "appDisplay" w' = (λ _, ds_status s) <$> text_of "appDisplay" w.
Proof.
  intros s w'. subst w'. unfold updateDigitalDisplay. fold s.
  repeat split; read_text.
Qed.

(** The texts on the page after a render in analog mode. *)
Lemma updateAnalogDisplay_texts cfg now w :
  let s := analogSignal cfg (data (state w)) in
  let w' := updateAnalogDisplay cfg now w in
  text_of "sensorVoltage" w' = (λ _, as_voltage s +:+ "V") <$> text_of "sensorVoltage" w ∧
  text_of "adcValue" w' = (λ _, JS.toString10 (as_adc s)) <$> text_of "adcValue" w ∧
  text_of "binaryValue" w' = (λ _, as_binary s) <$> text_of "binaryValue" w.
Proof.
  intros s w'. subst w'. unfold updateAnalogDisplay. fold s.
  repeat split; read_text.
Qed.

(** ** The analog scenario and the claims on the ADC code *)

(** Splits a conjunction into its conjuncts, and leaves them as they are. *)
Ltac conjuncts := repeat match goal with |- _ ∧ _ => split end.

(** The readings that [JS.round] gives are the ones of the primitive
    floats: for the four decimal literals of the script, and for the three
    assignments at each draw of [Binary64.draws]. *)
Lemma binary64_agreement :
  JS.lit 3.3 = Binary64.number_of Binary64.VOLTAGE_REF ∧
  JS.lit 0.6 = Binary64.number_of Binary64.PIR_DETECTION_CHANCE ∧
  JS.lit 0.1 = Binary64.number_of Binary64.tenth ∧
  JS.lit 2.45 = Binary64.number_of Binary64.initial_voltage ∧
  Forall binary64_agrees Binary64.draws.
Proof.
  do 4 (split; [vm_compute; reflexivity|]).
  repeat constructor; vm_compute; conjuncts; reflexivity.
Qed.

(** The motion test is strict and [Config] holds the double that 0.6
    denotes: a draw equal to this double detects nothing, the double just
    below it does. *)
Lemma draw_at_the_detection_chance (w : World) :
  pirDetected (data (state (updatePIRData Config (JS.double 0.6) w))) = false ∧
  pirDetected (data (state (updatePIRData Config
                              (JS.double 0.6 - JS.pow2 (-53))%Q w))) = true ∧
  JS.round (JS.double 0.6 - JS.pow2 (-53))%Q = JS.Fin (Qred (JS.double 0.6 - JS.pow2 (-53))%Q).
Proof. conjuncts; vm_compute; reflexivity. Qed.

(** The four operations of [JS] give the results of the primitive floats
    on 300 pairs of doubles of moderate size and on 60 pairs whose
    exponents range over the whole format, where products and quotients
    overflow to an infinity or underflow to a subnormal double or to
    zero. *)
Lemma binary64_operations_agree :
  forallb Binary64.operations_agree (Binary64.samples 1 300 12345) = true ∧
  forallb Binary64.operations_agree (Binary64.samples 60 60 777) = true.
Proof. split; vm_compute; reflexivity. Qed.

(** C1, as the code has it: with the default [Config], the draw 0.5 gives the
    reading 22.5, the voltage 2.25, the ADC code 2792 (the floor of
    2.25 / 3.3 * 4095 = 2792.04...) and the bit string "101011101000"; these
    are the texts of the page after [init], and the replay on primitive
    floats gives the same voltage and code. *)
Theorem scenario_22_5_encoding (w : World) :
  let d := sampled Config 0.5 w in
  let w' := init Config (page_with 3) 0.5 0.5 0 World0 in
  temperature d = JS.lit 22.5 ∧ voltage d = JS.lit 2.25 ∧ adcValue d = JS.Int 2792 ∧
  as_binary (analogSignal Config d) = "101011101000" ∧
  as_voltage (analogSignal Config d) = "2.25" ∧
  text_of "sensorVoltage" w' = Some "2.25V" ∧
  text_of "adcValue" w' = Some "2792" ∧
  text_of "binaryValue" w' = Some "101011101000" ∧
  Binary64.temperatureOf 0.5 = 22.5%float ∧
  Binary64.voltageOf 22.5 = 2.25%float ∧
  Binary64.adcValueOf 2.25 = Some 2792.
Proof.
  cbv zeta. conjuncts; vm_compute; reflexivity.
Qed.

(** C1 as stated fails: at the reading 22.5 the code is not 2790 and the
    bits are not "101011100110". *)
Lemma scenario_22_5_not_2790 :
  let d := sampled Config 0.5 World0 in
  ¬ (voltage d = JS.lit 2.25 ∧ adcValue d = JS.Int 2790 ∧
     as_binary (analogSignal Config d) = "101011100110").
Proof.
  cbv zeta. intros (_ & H & _). vm_compute in H. discriminate H.
Qed.

(** Two rationals less than one apart have floors at most one apart. *)
Lemma Qfloor_near (a b : Q) :
  (b - 1 <= a)%Q → (a <= b + 1)%Q → Qfloor b - 1 ≤ Qfloor a ≤ Qfloor b + 1.
Proof.
  intros H1 H2.
  pose proof (Qfloor_le a) as Fa. pose proof (Qlt_floor a) as Ga.
  pose proof (Qfloor_le b) as Fb. pose proof (Qlt_floor b) as Gb.
  rewrite inject_Z_plus in Ga, Gb. change (inject_Z 1) with 1%Q in Ga, Gb.
  assert (A : (inject_Z (Qfloor a) < inject_Z (Qfloor b + 2))%Q).
  { rewrite inject_Z_plus. change (inject_Z 2) with 2%Q. lra. }
  assert (B : (inject_Z (Qfloor b) < inject_Z (Qfloor a + 2))%Q).
  { rewrite inject_Z_plus. change (inject_Z 2) with 2%Q. lra. }
  rewrite <- Zlt_Qlt in A, B. lia.
Qed.

(** Under [Config] the code stored for a voltage of [[2, 2.5]] is within one
    of the floor of the exact quotient: the two roundings move the product
    by less than 2^-40. *)
Lemma default_code_near_exact (v : Q) :
  (2 <= v)%Q → (v <= 2.5)%Q →
  ∃ c, adcValueOf Config (JS.Fin v) = JS.Int c ∧
       Qfloor (v / VOLTAGE_REF Config * inject_Z (ADC_MAX Config)) - 1 ≤ c
       ≤ Qfloor (v / VOLTAGE_REF Config * inject_Z (ADC_MAX Config)) + 1.
Proof.
  intros H0 H1. unfold adcValueOf.
  replace (JS.of_Z (ADC_MAX Config)) with (JS.Fin 4095) by (vm_compute; reflexivity).
  replace (VOLTAGE_REF Config) with (3715469692580659 # 1125899906842624)
    by (vm_compute; reflexivity).
  change (inject_Z (ADC_MAX Config)) with 4095%Q.
  rewrite div_Fin by reflexivity.
  set (q1 := (v / (3715469692580659 # 1125899906842624))%Q).
  assert (E1 : (q1 == v * (1125899906842624 # 3715469692580659))%Q) by reflexivity.
  destruct (round_error q1 0 (JS.pow2 (-54))) as (x1 & R1 & L1 & U1);
    [lra | change (JS.pow2 0) with 1%Q; lra | lia | apply Qle_refl |].
  rewrite R1, mul_Fin.
  change (JS.pow2 (-54)) with (1 # 18014398509481984)%Q in L1, U1.
  destruct (round_error (x1 * 4095) 12 (JS.pow2 (-42))) as (x2 & R2 & L2 & U2);
    [lra | change (JS.pow2 12) with 4096%Q; lra | lia | apply Qle_refl |].
  rewrite R2. cbn [JS.floor]. exists (Qfloor x2). split; [reflexivity|].
  change (JS.pow2 (-42)) with (1 # 4398046511104)%Q in L2, U2.
  apply Qfloor_near; lra.
Qed.

(** C2: for every reading the ADC code is [Math.floor] of
    (voltage / VOLTAGE_REF) * ADC_MAX, the two operations being those of the
    language: the largest integer that is not above the product, when the
    product is finite; ADC_MAX = 2^ADC_BITS - 1 = 4095 in [Config]; nothing caps
    it: a ratio of 1 or more gives a code of ADC_MAX or more, and with the
    temperature range widened to 40 degrees the draw 0.9 gives a ratio above
    1 and the code 4715 on 13 binary digits, and with a reference voltage
    of 0 the code is Infinity.  Under [Config] the code is within one of the
    floor of the exact quotient, and one above it at the last draw of the
    statement. *)
Theorem adc_code_unclamped_floor (cfg : config) (r : Q) (w : World) :
  let d := sampled cfg r w in
  let ratio := JS.div (voltage d) (JS.Fin (VOLTAGE_REF cfg)) in
  adcValue d = JS.floor (JS.mul ratio (JS.of_Z (ADC_MAX cfg))) ∧
  (∀ x, JS.mul ratio (JS.of_Z (ADC_MAX cfg)) = JS.Fin x →
     ∃ c, adcValue d = JS.Int c ∧ (inject_Z c <= x)%Q ∧ (x < inject_Z c + 1)%Q) ∧
  (ADC_BITS Config = 12 ∧ ADC_MAX Config = 2 ^ ADC_BITS Config - 1 ∧ ADC_MAX Config = 4095) ∧
  (1 ≤ ADC_MAX cfg → JS.of_Z (ADC_MAX cfg) = JS.Fin (inject_Z (ADC_MAX cfg)) →
   JS.le (JS.Fin 1) ratio → JS.int_le (JS.Int (ADC_MAX cfg)) (adcValue d)) ∧
  (let d' := sampled hotConfig (JS.double 0.9) w in
   JS.lt (JS.Fin 1) (JS.div (voltage d') (JS.Fin (VOLTAGE_REF hotConfig))) = true ∧
   adcValue d' = JS.Int 4715 ∧ ADC_MAX hotConfig < 4715 ∧
   as_binary (analogSignal hotConfig d') = "1001001101011") ∧
  (let d' := sampled (with_VOLTAGE_REF 0 Config) 0.5 w in
   adcValue d' = JS.IntInf false ∧
   as_binary (analogSignal (with_VOLTAGE_REF 0 Config) d') = "0000Infinity") ∧
  (∀ r' w', (0 <= r')%Q → (r' < 1)%Q →
     ∃ v c, voltage (sampled Config r' w') = JS.Fin v ∧
            adcValue (sampled Config r' w') = JS.Int c ∧
            Qfloor (v / VOLTAGE_REF Config * inject_Z (ADC_MAX Config)) - 1 ≤ c
            ≤ Qfloor (v / VOLTAGE_REF Config * inject_Z (ADC_MAX Config)) + 1) ∧
  (∃ v, voltage (sampled Config (1098020480577531 # 576460752303423488) w) = JS.Fin v ∧
        adcValue (sampled Config (1098020480577531 # 576460752303423488) w) = JS.Int 2483 ∧
        Qfloor (v / VOLTAGE_REF Config * inject_Z (ADC_MAX Config)) = 2482).
Proof.
  intros d ratio. split; [reflexivity|]. split; [|split; [conjuncts; reflexivity|]].
  { intros x Hx. exists (Qfloor x). subst d ratio.
    rewrite sampled_adcValue. unfold adcValueOf. rewrite Hx. split; [reflexivity|].
    split; [apply Qfloor_le|]. pose proof (Qlt_floor x) as H.
    rewrite inject_Z_plus in H. exact H. }
  split; [|split; [|split; [|split]]].
  - intros HA Hrep Hx. subst d. rewrite sampled_adcValue.
    now apply code_above_full_scale.
  - cbv zeta. conjuncts; vm_compute; reflexivity.
  - cbv zeta. conjuncts; vm_compute; reflexivity.
  - intros r' w' H0 H1.
    destruct (default_reading r' w' H0 H1) as (t & v & c & _ & _ & _ & Ev & Lv & Hv & Ec & _).
    destruct (default_code_near_exact v Lv Hv) as (c' & Ec' & Hc').
    exists v, c. split; [exact Ev|]. split; [exact Ec|].
    rewrite sampled_adcValue, Ev, Ec' in Ec. injection Ec as <-. exact Hc'.
  - exists (563218024827703 # 281474976710656)%Q. conjuncts; vm_compute; reflexivity.
Qed.

Lemma adc_code_unclamped_floor_witness :
  1 ≤ ADC_MAX hotConfig ∧
  JS.le (JS.Fin 1)
    (JS.div (voltage (sampled hotConfig (JS.double 0.9) World0))
       (JS.Fin (VOLTAGE_REF hotConfig))) ∧
  JS.int_le (JS.Int (ADC_MAX hotConfig))
    (adcValue (sampled hotConfig (JS.double 0.9) World0)).
Proof.
  assert (HA : 1 ≤ ADC_MAX hotConfig) by (vm_compute; discriminate).
  assert (Hrep : JS.of_Z (ADC_MAX hotConfig) = JS.Fin (inject_Z (ADC_MAX hotConfig)))
    by (vm_compute; reflexivity).
  assert (Hx : JS.le (JS.Fin 1)
                 (JS.div (voltage (sampled hotConfig (JS.double 0.9) World0))
                    (JS.Fin (VOLTAGE_REF hotConfig))))
    by (vm_compute; discriminate).
  split; [exact HA|]. split; [exact Hx|].
  exact (proj1 (proj2 (proj2 (proj2
           (adc_code_unclamped_floor hotConfig (JS.double 0.9) World0))))
           HA Hrep Hx).
Defined.

(** Under [Config] the voltage stored for a temperature of [[20, 25]] is
    within 2^-51 of 2 + (t - 20) / 10: the three roundings and the distance
    from the double 0.1 to one tenth add up to less. *)
Lemma default_voltage_near_exact (t : Q) :
  (20 <= t)%Q → (t <= 25)%Q →
  ∃ v, voltageOf Config (JS.Fin t) = JS.Fin v ∧
       (2.0 + (t - TEMP_MIN Config) * 0.1 - JS.pow2 (-51) <= v)%Q ∧
       (v <= 2.0 + (t - TEMP_MIN Config) * 0.1 + JS.pow2 (-51))%Q.
Proof.
  intros H0 H1. unfold voltageOf. rewrite lit_two, lit_tenth.
  change (TEMP_MIN Config) with 20%Q. rewrite sub_Fin.
  destruct (round_error (t + Qopp 20) 3 (JS.pow2 (-51))) as (x0 & R0 & L0 & U0);
    [lra | change (JS.pow2 3) with 8%Q; lra | lia | apply Qle_refl |].
  pose proof (round_mono 0 (t + Qopp 20) ltac:(lra)) as M0.
  rewrite R0 in M0. change (JS.round 0) with (JS.Fin 0) in M0. cbn [JS.le] in M0.
  rewrite R0, mul_Fin.
  change (JS.pow2 (-51)) with (1 # 2251799813685248)%Q in *.
  destruct (round_error (x0 * (3602879701896397 # 36028797018963968)) 0 (JS.pow2 (-54)))
    as (x1 & R1 & L1 & U1);
    [lra | change (JS.pow2 0) with 1%Q; lra | lia | apply Qle_refl |].
  rewrite R1, add_Fin.
  change (JS.pow2 (-54)) with (1 # 18014398509481984)%Q in *.
  destruct (round_error (2 + x1) 2 (JS.pow2 (-52))) as (x2 & R2 & L2 & U2);
    [lra | change (JS.pow2 2) with 4%Q; lra | lia | apply Qle_refl |].
  rewrite R2. exists x2. split; [reflexivity|].
  change (JS.pow2 (-52)) with (1 # 4503599627370496)%Q in *.
  split; lra.
Qed.

(** C5: the voltage of every sample is 2.0 + (t - TEMP_MIN) * 0.1 computed
    by the language from the sampled temperature t, and a sample that is not
    colder has a voltage that is not lower, in every configuration, as the
    formula does not decrease on any two Numbers; under [Config] the
    temperature lies in [TEMP_MIN, TEMP_MAX] and the voltage is within
    2^-51 of the exact value of the formula. *)
Theorem voltage_affine_monotone (cfg : config) (r1 r2 : Q) (w1 w2 : World) :
  let d1 := sampled cfg r1 w1 in
  let d2 := sampled cfg r2 w2 in
  JS.le (temperature d1) (temperature d2) →
  voltage d1
  = JS.add (JS.lit 2.0)
      (JS.mul (JS.sub (temperature d1) (JS.Fin (TEMP_MIN cfg))) (JS.lit 0.1)) ∧
  voltage d2
  = JS.add (JS.lit 2.0)
      (JS.mul (JS.sub (temperature d2) (JS.Fin (TEMP_MIN cfg))) (JS.lit 0.1)) ∧
  JS.le (voltage d1) (voltage d2) ∧
  (∀ t1 t2, JS.le t1 t2 → JS.le (voltageOf cfg t1) (voltageOf cfg t2)) ∧
  (∀ r w, (0 <= r)%Q → (r < 1)%Q →
     ∃ t v, temperature (sampled Config r w) = JS.Fin t ∧
            (TEMP_MIN Config <= t)%Q ∧ (t <= TEMP_MAX Config)%Q ∧
            voltage (sampled Config r w) = JS.Fin v ∧
            (2.0 + (t - TEMP_MIN Config) * 0.1 - JS.pow2 (-51) <= v)%Q ∧
            (v <= 2.0 + (t - TEMP_MIN Config) * 0.1 + JS.pow2 (-51))%Q).
Proof.
  intros d1 d2 Ht. split; [reflexivity|]. split; [reflexivity|]. split; [|split].
  - subst d1 d2. rewrite !sampled_voltage. now apply voltageOf_mono.
  - apply voltageOf_mono.
  - intros r w H0 H1.
    destruct (default_reading r w H0 H1) as (t & v & c & Et & Lt & Ut & Ev & _).
    destruct (default_voltage_near_exact t Lt Ut) as (v' & Ev' & Hv').
    exists t, v. split; [exact Et|]. split; [exact Lt|]. split; [exact Ut|].
    split; [exact Ev|]. rewrite sampled_voltage, Et, Ev' in Ev. injection Ev as <-.
    exact Hv'.
Qed.

Lemma voltage_affine_monotone_witness :
  JS.le (temperature (sampled Config 0.25 World0)) (temperature (sampled Config 0.75 World0)) ∧
  JS.le (voltage (sampled Config 0.25 World0)) (voltage (sampled Config 0.75 World0)).
Proof.
  assert (H : JS.le (temperature (sampled Config 0.25 World0))
                (temperature (sampled Config 0.75 World0)))
    by (vm_compute; discriminate).
  split; [exact H|].
  exact (proj1 (proj2 (proj2 (voltage_affine_monotone Config 0.25 0.75 World0 World0 H)))).
Defined.

(** The two extreme draws replayed on primitive floats: 0 gives the code
    2481; the largest double below 1 gives a temperature that rounds to 25
    and the code 3102. *)
Lemma binary64_extreme_draws :
  Binary64.adcValueOf (Binary64.voltageOf (Binary64.temperatureOf 0)) = Some 2481 ∧
  Binary64.temperatureOf 0x1.fffffffffffffp-1 = 25%float ∧
  Binary64.adcValueOf (Binary64.voltageOf 25) = Some 3102.
Proof. conjuncts; vm_compute; reflexivity. Qed.

(** C9: with the default [Config] every code produced from a sampled
    temperature lies in [2481, 3102], both ends being reached, hence in
    [0, ADC_MAX], and its bit string is not longer than 12 characters. *)
Theorem default_codes_within_adc_range (r : Q) (w : World) :
  (0 <= r)%Q → (r < 1)%Q →
  let d := sampled Config r w in
  (∃ code, adcValue d = JS.Int code ∧ 2481 ≤ code ≤ 3102 ∧ 0 ≤ code ≤ ADC_MAX Config) ∧
  (String.length (as_binary (analogSignal Config d)) ≤ 12)%nat ∧
  adcValue (sampled Config 0 w) = JS.Int 2481 ∧
  adcValue (sampled Config 0.9999 w) = JS.Int 3102 ∧
  adcValue (sampled Config (JS.double 0.9999) w) = JS.Int 3102.
Proof.
  intros H0 H1 d. destruct (default_code_range r w H0 H1) as (c & Ec & Hc). fold d in Ec.
  split; [exists c; split; [exact Ec|]; split; [exact Hc | cbn [ADC_MAX Config]; lia]|].
  split.
  - destruct (padStart_binary_width c 12) as (Hlen & _); [lia | lia |].
    cbn [as_binary analogSignal ADC_BITS Config]. rewrite Ec. cbn [JS.toString2].
    rewrite Hlen. vm_compute. lia.
  - conjuncts; vm_compute; reflexivity.
Qed.

Lemma default_codes_within_adc_range_witness :
  (0 <= 0.5)%Q ∧ (0.5 < 1)%Q ∧
  ∃ code, adcValue (sampled Config 0.5 World0) = JS.Int code ∧
          2481 ≤ code ≤ 3102 ∧ 0 ≤ code ≤ ADC_MAX Config.
Proof.
  assert (H0 : (0 <= 0.5)%Q) by (vm_compute; discriminate).
  assert (H1 : (0.5 < 1)%Q) by reflexivity.
  split; [exact H0|]. split; [exact H1|].
  exact (proj1 (default_codes_within_adc_range 0.5 World0 H0 H1)).
Defined.

(** C6: the bit string of a generated code that fits in ADC_BITS bits has
    exactly ADC_BITS characters, all of them '0' or '1'; it is the code in
    base 2 with zeros added on the left, and read back in base 2 it gives
    the code; it is the text that the render puts in the binaryValue node.
    Every code generated under [Config] fits in its 12 bits and has 12
    digits in base 2; the zeros are seen with a wider register (with
    ADC_BITS = 16 the draw 0.5 gives "0000101011101000") or a lower code
    (with a reference voltage of 5 it gives the code 1842 and the string
    "011100110010"). *)
Theorem generated_bits_fixed_width (cfg : config) (r : Q) (w : World) (code : Z) :
  1 ≤ ADC_BITS cfg →
  adcValue (sampled cfg r w) = JS.Int code →
  0 ≤ code < 2 ^ ADC_BITS cfg →
  let bits := as_binary (analogSignal cfg (sampled cfg r w)) in
  String.length bits = Z.to_nat (ADC_BITS cfg) ∧
  binary_digits bits ∧
  bits = JS.filler (Z.to_nat (ADC_BITS cfg) - String.length (JS.binary code)) "0" "0"
         +:+ JS.binary code ∧
  binary_value bits = Some code ∧
  (∀ now, text_of "binaryValue"
            (updateAnalogDisplay cfg now (updateTemperatureData cfg r w))
          = (λ _, bits) <$> text_of "binaryValue" w) ∧
  (∀ r' w', (0 <= r')%Q → (r' < 1)%Q →
     ∃ code', adcValue (sampled Config r' w') = JS.Int code' ∧
              0 ≤ code' < 2 ^ ADC_BITS Config ∧
              String.length (JS.binary code') = 12%nat) ∧
  as_binary (analogSignal (with_VOLTAGE_REF 5 Config)
               (sampled (with_VOLTAGE_REF 5 Config) 0.5 w)) = "011100110010".
Proof.
  intros Hb Ec Hc bits.
  destruct (padStart_binary_width code (ADC_BITS cfg) Hb Hc) as (Hl & Hd & Hp & Hv).
  assert (E : bits = JS.padStart (JS.binary code) (ADC_BITS cfg) "0").
  { subst bits. cbn [as_binary analogSignal]. now rewrite Ec. }
  rewrite E. do 4 (split; [assumption|]). split; [|split].
  - intros now. rewrite <- E.
    apply (updateAnalogDisplay_texts cfg now (updateTemperatureData cfg r w)).
  - intros r' w' H0 H1. destruct (default_code_range r' w' H0 H1) as (c & Ec' & Hc').
    exists c. split; [exact Ec'|]. split; [cbn [ADC_BITS Config]; lia|].
    apply Nat.le_antisymm.
    + apply binary_length_le; [|lia]. change (2 ^ Z.of_nat 12) with 4096. lia.
    + destruct c as [|p|p]; try lia. simpl JS.binary. rewrite pos_toString2_length.
      apply (size_nat_gt_width p 11). change (2 ^ Z.of_nat 11) with 2048. lia.
  - vm_compute. reflexivity.
Qed.

Lemma generated_bits_fixed_width_witness :
  1 ≤ ADC_BITS (with_ADC_BITS 16 Config) ∧
  adcValue (sampled (with_ADC_BITS 16 Config) 0.5 World0) = JS.Int 2792 ∧
  0 ≤ 2792 < 2 ^ ADC_BITS (with_ADC_BITS 16 Config) ∧
  JS.binary 2792 = "101011101000" ∧
  as_binary (analogSignal (with_ADC_BITS 16 Config)
               (sampled (with_ADC_BITS 16 Config) 0.5 World0))
  = JS.filler (Z.to_nat (ADC_BITS (with_ADC_BITS 16 Config))
               - String.length (JS.binary 2792)) "0" "0" +:+ JS.binary 2792 ∧
  JS.filler (Z.to_nat (ADC_BITS (with_ADC_BITS 16 Config))
             - String.length (JS.binary 2792)) "0" "0" +:+ JS.binary 2792
  = "0000101011101000".
Proof.
  assert (Hb : 1 ≤ ADC_BITS (with_ADC_BITS 16 Config)) by (vm_compute; discriminate).
  assert (Ec : adcValue (sampled (with_ADC_BITS 16 Config) 0.5 World0) = JS.Int 2792)
    by (vm_compute; reflexivity).
  assert (Hc : 0 ≤ 2792 < 2 ^ ADC_BITS (with_ADC_BITS 16 Config))
    by (split; vm_compute; [discriminate | reflexivity]).
  split; [exact Hb|]. split; [exact Ec|]. split; [exact Hc|].
  split; [vm_compute; reflexivity|].
  split; [|vm_compute; reflexivity].
  exact (proj1 (proj2 (proj2
    (generated_bits_fixed_width (with_ADC_BITS 16 Config) 0.5 World0 2792 Hb Ec Hc)))).
Defined.

(** ** What each function leaves unchanged *)

Section Frames.

Context {A : Type} (obs : World → A).

Lemma keeps_id : keeps obs id.
Proof. intros w. reflexivity. Qed.

Lemma keeps_andThen (f g : World → World) :
  keeps obs f → keeps obs g → keeps obs (f >>> g).
Proof. intros Hf Hg w. unfold andThen. now rewrite Hg, Hf. Qed.

Lemma keeps_foldl {B : Type} (f : World → B → World) (l : list B) :
  (∀ b, keeps obs (λ w, f w b)) → ∀ w, obs (foldl f w l) = obs w.
Proof.
  intros Hf. induction l as [|b l IH]; intros w; simpl; [reflexivity|].
  rewrite (IH (f w b)). apply Hf.
Qed.

End Frames.

(** An observation of [AppState] alone is kept by whatever keeps
    [AppState]. *)
Lemma keeps_of_state {A : Type} (q : app_state → A) f :
  keeps state f → keeps (λ w, q (state w)) f.
Proof. intros H w. cbn. now rewrite H. Qed.

Lemma keeps_mode_of_state f : keeps state f → keeps mode_of f.
Proof. apply (keeps_of_state currentMode). Qed.

Lemma keeps_pointer_of_state f : keeps state f → keeps pointer f.
Proof. apply (keeps_of_state (λ s, activeStage (data s))). Qed.

Lemma keeps_stageCount_of_elems f : keeps elems f → keeps stageCount f.
Proof. intros H w. unfold stageCount. now rewrite H. Qed.

Lemma console_log_frame msg :
  keeps state (console_log msg) ∧ keeps elems (console_log msg) ∧
  keeps listeners (console_log msg) ∧ keeps timers (console_log msg).
Proof. repeat split. Qed.

(** The display functions write to the cached nodes only. *)

Lemma updateAnalogDisplay_frame cfg now :
  keeps state (updateAnalogDisplay cfg now) ∧
  keeps listeners (updateAnalogDisplay cfg now) ∧
  keeps timers (updateAnalogDisplay cfg now) ∧
  keeps console (updateAnalogDisplay cfg now) ∧
  keeps stageCount (updateAnalogDisplay cfg now).
Proof. repeat split. Qed.

Lemma updateDigitalDisplay_frame :
  keeps state updateDigitalDisplay ∧
  keeps listeners updateDigitalDisplay ∧
  keeps timers updateDigitalDisplay ∧
  keeps console updateDigitalDisplay ∧
  keeps stageCount updateDigitalDisplay.
Proof. repeat split. Qed.

Lemma updateDisplay_frame cfg now :
  keeps state (updateDisplay cfg now) ∧
  keeps listeners (updateDisplay cfg now) ∧
  keeps timers (updateDisplay cfg now) ∧
  keeps console (updateDisplay cfg now) ∧
  keeps stageCount (updateDisplay cfg now).
Proof.
  repeat split; intros w; unfold updateDisplay;
    destruct (String.eqb (currentMode (state w)) "analog"); reflexivity.
Qed.

(** The data updates write to [AppState.data] only, and not to the stage
    pointer. *)

Lemma updateTemperatureData_frame cfg r :
  keeps mode_of (updateTemperatureData cfg r) ∧
  keeps pointer (updateTemperatureData cfg r) ∧
  keeps elems (updateTemperatureData cfg r) ∧
  keeps listeners (updateTemperatureData cfg r) ∧
  keeps timers (updateTemperatureData cfg r).
Proof. repeat split. Qed.

Lemma updatePIRData_frame cfg r :
  keeps mode_of (updatePIRData cfg r) ∧
  keeps pointer (updatePIRData cfg r) ∧
  keeps elems (updatePIRData cfg r) ∧
  keeps listeners (updatePIRData cfg r) ∧
  keeps timers (updatePIRData cfg r).
Proof. repeat split. Qed.

Lemma temperatureTick_frame cfg r now :
  keeps mode_of (temperatureTick cfg r now) ∧
  keeps pointer (temperatureTick cfg r now) ∧
  keeps stageCount (temperatureTick cfg r now) ∧
  keeps listeners (temperatureTick cfg r now).
Proof.
  repeat split; intros w; unfold temperatureTick, andThen, updateDisplay;
    destruct (String.eqb (currentMode (state w)) "analog"); try reflexivity;
    cbn; destruct (String.eqb (currentMode (state w)) "analog"); reflexivity.
Qed.

Lemma pirTick_frame cfg r now :
  keeps mode_of (pirTick cfg r now) ∧
  keeps pointer (pirTick cfg r now) ∧
  keeps stageCount (pirTick cfg r now) ∧
  keeps listeners (pirTick cfg r now).
Proof.
  repeat split; intros w; unfold pirTick, andThen, updateDisplay;
    destruct (String.eqb (currentMode (state w)) "digital"); try reflexivity;
    cbn; destruct (String.eqb (currentMode (state w)) "analog"); reflexivity.
Qed.

(** The mode transition writes to the stage cards and to the timer table. *)

Lemma fadeCard_frame index :
  keeps state (λ w, fadeCard w index) ∧
  keeps listeners (λ w, fadeCard w index) ∧
  keeps console (λ w, fadeCard w index) ∧
  keeps stageCount (λ w, fadeCard w index).
Proof.
  repeat split. intros w. unfold stageCount, fadeCard. cbn.
  now rewrite length_alter.
Qed.

Lemma animateModeTransition_frame :
  keeps state animateModeTransition ∧
  keeps listeners animateModeTransition ∧
  keeps console animateModeTransition ∧
  keeps stageCount animateModeTransition.
Proof.
  repeat split; intros w; unfold animateModeTransition;
    apply keeps_foldl; intros index; apply fadeCard_frame.
Qed.

Lemma revealCard_frame index :
  keeps state (revealCard index) ∧
  keeps listeners (revealCard index) ∧
  keeps stageCount (revealCard index).
Proof.
  repeat split. intros w. unfold stageCount, revealCard. cbn.
  now rewrite length_alter.
Qed.

(** The world just before the transition animation of a mode switch. *)
Lemma switchMode_unfold mode w :
  String.eqb (currentMode (state w)) mode = false →
  switchMode mode w =
  animateModeTransition
    ((console_log ("🔄 Switching mode to: " +:+ mode)
      >>> set_state (set_currentMode mode)
      >>> updateModeButtons mode
      >>> updateModeText mode
      >>> updateSensorDisplay mode
      >>> updateProcessingDisplay mode
      >>> updateApplicationDisplay mode) w).
Proof. intros H. unfold switchMode. rewrite H. reflexivity. Qed.

Lemma switchMode_same mode w :
  String.eqb (currentMode (state w)) mode = true → switchMode mode w = w.
Proof. intros H. unfold switchMode. now rewrite H. Qed.

Ltac by_mode mode :=
  unfold andThen, updateSensorDisplay, updateProcessingDisplay,
    updateApplicationDisplay, updateModeText, updateModeButtons;
  destruct (String.eqb mode "analog"); reflexivity.

Lemma switchMode_frame mode :
  keeps pointer (switchMode mode) ∧
  keeps listeners (switchMode mode) ∧
  keeps stageCount (switchMode mode) ∧
  keeps (λ w, updateIntervals (state w)) (switchMode mode) ∧
  keeps (λ w, data (state w)) (switchMode mode).
Proof.
  repeat split; intros w;
    (destruct (String.eqb (currentMode (state w)) mode) eqn:E;
     [now rewrite switchMode_same | rewrite switchMode_unfold by exact E]).
  - unfold pointer. rewrite (proj1 animateModeTransition_frame). by_mode mode.
  - rewrite (proj1 (proj2 animateModeTransition_frame)). by_mode mode.
  - rewrite (proj2 (proj2 (proj2 animateModeTransition_frame))). by_mode mode.
  - rewrite (proj1 animateModeTransition_frame). by_mode mode.
  - rewrite (proj1 animateModeTransition_frame). by_mode mode.
Qed.

(** After [switchMode mode] the active mode is [mode], whatever it was. *)
Lemma switchMode_mode mode w : mode_of (switchMode mode w) = mode.
Proof.
  destruct (String.eqb (currentMode (state w)) mode) eqn:E.
  - rewrite switchMode_same by exact E. now apply String.eqb_eq.
  - rewrite switchMode_unfold by exact E. unfold mode_of.
    rewrite (proj1 animateModeTransition_frame). by_mode mode.
Qed.

(** The stage animation and the timers. *)

Lemma cycleActiveStage_frame :
  keeps mode_of cycleActiveStage ∧
  keeps listeners cycleActiveStage ∧
  keeps timers cycleActiveStage ∧
  keeps console cycleActiveStage ∧
  keeps stageCount cycleActiveStage.
Proof.
  repeat split. intros w. unfold stageCount, cycleActiveStage. cbn.
  now rewrite length_imap.
Qed.

Lemma cycleActiveStage_pointer w :
  pointer (cycleActiveStage w) = JS.rem (JS.succ (pointer w)) (stageCount w).
Proof. reflexivity. Qed.

Lemma startStageAnimations_frame cfg :
  keeps mode_of (startStageAnimations cfg) ∧
  keeps listeners (startStageAnimations cfg) ∧
  keeps elems (startStageAnimations cfg).
Proof. repeat split. Qed.

Lemma startStageAnimations_pointer cfg w :
  pointer (startStageAnimations cfg w) = Some 0.
Proof. reflexivity. Qed.

Lemma startRealTimeUpdates_frame cfg r1 r2 :
  keeps mode_of (startRealTimeUpdates cfg r1 r2) ∧
  keeps pointer (startRealTimeUpdates cfg r1 r2) ∧
  keeps listeners (startRealTimeUpdates cfg r1 r2) ∧
  keeps elems (startRealTimeUpdates cfg r1 r2).
Proof. repeat split. Qed.

Lemma clearIfSet_frame i :
  keeps state (clearIfSet i) ∧ keeps elems (clearIfSet i) ∧
  keeps listeners (clearIfSet i) ∧ keeps console (clearIfSet i).
Proof.
  repeat split; intros w; (destruct i as [h|]; [|reflexivity]); simpl;
    now destruct (h =? 0).
Qed.

Lemma cleanup_frame :
  keeps state cleanup ∧ keeps elems cleanup ∧ keeps listeners cleanup.
Proof.
  repeat split; intros w; unfold cleanup, andThen.
  - rewrite !(proj1 (clearIfSet_frame _)). reflexivity.
  - rewrite !(proj1 (proj2 (clearIfSet_frame _))). reflexivity.
  - rewrite !(proj1 (proj2 (proj2 (clearIfSet_frame _)))). reflexivity.
Qed.

Lemma clearInterval_frame h :
  keeps state (clearInterval h) ∧ keeps elems (clearInterval h) ∧
  keeps listeners (clearInterval h).
Proof. repeat split. Qed.

(** ** The event loop *)

Lemma click_frame target (ls : list listener) :
  ∀ w, pointer (foldl (λ w l, runListener target l w) w ls) = pointer w ∧
       listeners (foldl (λ w l, runListener target l w) w ls) = listeners w ∧
       stageCount (foldl (λ w l, runListener target l w) w ls) = stageCount w.
Proof.
  assert (H : ∀ l, keeps pointer (λ w, runListener target l w) ∧
                   keeps listeners (λ w, runListener target l w) ∧
                   keeps stageCount (λ w, runListener target l w)).
  { intros [t m|a]; [|repeat split].
    repeat split; intros w; simpl; destruct (String.eqb t target); try reflexivity;
      apply switchMode_frame. }
  intros w. repeat split; apply keeps_foldl; intros l; apply H.
Qed.

Lemma runCallback_frame cfg cb r now :
  keeps listeners (runCallback cfg cb r now) ∧
  keeps stageCount (runCallback cfg cb r now).
Proof.
  destruct cb; simpl; split;
    first [ apply temperatureTick_frame | apply pirTick_frame
          | apply cycleActiveStage_frame | apply revealCard_frame ].
Qed.

(** No event changes the listeners or the number of stage cards. *)
Lemma step_frame cfg ev :
  keeps listeners (λ w, step cfg w ev) ∧ keeps stageCount (λ w, step cfg w ev).
Proof.
  split; intros w; destruct ev as [target|h r now|[|] r1 r2| |m|now|]; simpl.
  all: try apply click_frame.
  all: try (destruct (List.find _ (timers w)) as [t|]; [|reflexivity];
            rewrite (proj1 (runCallback_frame _ _ _ _)) || rewrite (proj2 (runCallback_frame _ _ _ _));
            now destruct (repeats t)).
  all: try (unfold andThen; rewrite ?(proj2 (proj2 cleanup_frame));
            rewrite ?(keeps_stageCount_of_elems _ (proj1 (proj2 cleanup_frame))); reflexivity).
  all: try reflexivity.
  all: try apply switchMode_frame.
  all: try apply updateDisplay_frame.
Qed.

(** *** The stage pointer *)

Lemma cycleActiveStage_in_range w p :
  pointer w = Some p → 0 ≤ p < stageCount w →
  pointer (cycleActiveStage w) = Some ((p + 1) mod stageCount w).
Proof.
  intros Hp Hr. rewrite cycleActiveStage_pointer, Hp. simpl.
  destruct (Z.eqb_spec (stageCount w) 0) as [E|_]; [lia|].
  f_equal. apply Z.rem_mod_nonneg; lia.
Qed.

Lemma cycleActiveStage_stage_ok w : stage_ok w → stage_ok (cycleActiveStage w).
Proof.
  intros (p & Hp & Hr). exists ((p + 1) mod stageCount w). split.
  - now apply cycleActiveStage_in_range.
  - rewrite (proj2 (proj2 (proj2 (proj2 cycleActiveStage_frame)))).
    apply Z.mod_pos_bound. lia.
Qed.

(** A function that keeps the pointer and the card count keeps the pointer
    in range. *)
Lemma stage_ok_kept f w :
  keeps pointer f → keeps stageCount f → stage_ok w → stage_ok (f w).
Proof. intros Hp Hc (p & Hw & Hr). exists p. now rewrite Hp, Hc. Qed.

Lemma step_stage_ok cfg ev w : stage_ok w → stage_ok (step cfg w ev).
Proof.
  intros Hok. destruct ev as [target|h r now|[|] r1 r2| |m|now|]; simpl.
  - destruct Hok as (p & Hw & Hr). exists p.
    destruct (click_frame target (listeners w) w) as (-> & _ & ->). now split.
  - destruct (List.find _ (timers w)) as [t|]; [|exact Hok].
    assert (Hok1 : stage_ok (if repeats t then w else clearInterval h w))
      by (now destruct (repeats t)).
    destruct (action t); simpl.
    + apply stage_ok_kept; [apply temperatureTick_frame..|exact Hok1].
    + apply stage_ok_kept; [apply pirTick_frame..|exact Hok1].
    + now apply cycleActiveStage_stage_ok.
    + apply stage_ok_kept; [|apply revealCard_frame|exact Hok1].
      apply keeps_pointer_of_state, revealCard_frame.
  - apply stage_ok_kept; [| |exact Hok].
    + apply keeps_pointer_of_state, keeps_andThen; [now intros ?|apply cleanup_frame].
    + apply keeps_stageCount_of_elems, keeps_andThen; [now intros ?|apply cleanup_frame].
  - destruct Hok as (p & Hw & Hr). exists 0. split; [reflexivity|].
    change (0 ≤ 0 < stageCount w). lia.
  - apply stage_ok_kept; [| |exact Hok].
    + apply keeps_pointer_of_state, cleanup_frame.
    + apply keeps_stageCount_of_elems, cleanup_frame.
  - apply stage_ok_kept; [apply switchMode_frame..|exact Hok].
  - apply stage_ok_kept; [|apply updateDisplay_frame|exact Hok].
    apply keeps_pointer_of_state, updateDisplay_frame.
  - apply stage_ok_kept; [| |exact Hok].
    + apply keeps_pointer_of_state, cleanup_frame.
    + apply keeps_stageCount_of_elems, cleanup_frame.
Qed.

Lemma init_pointer cfg page r1 r2 now w :
  pointer (init cfg page r1 r2 now w) = Some 0.
Proof.
  unfold init, andThen, pointer.
  rewrite (proj1 (console_log_frame _)), (proj1 (updateDisplay_frame cfg now)).
  reflexivity.
Qed.

Lemma init_stageCount cfg page r1 r2 now w :
  stageCount (init cfg page r1 r2 now w) = Z.of_nat (length (stage_cards page)).
Proof.
  unfold init, andThen.
  rewrite (keeps_stageCount_of_elems _ (proj1 (proj2 (console_log_frame _)))).
  rewrite (proj2 (proj2 (proj2 (proj2 (updateDisplay_frame cfg now))))). reflexivity.
Qed.

Lemma run_snoc cfg w evs ev : run cfg w (evs ++ [ev]) = step cfg (run cfg w evs) ev.
Proof. unfold run. now rewrite foldl_snoc. Qed.

(** On a page with at least one stage card, the card count is the page's
    and the pointer is in range in every reachable world. *)
Lemma reachable_stage_ok cfg page w :
  (0 < length (stage_cards page))%nat → reachable cfg page w →
  stageCount w = Z.of_nat (length (stage_cards page)) ∧ stage_ok w.
Proof.
  intros Hn (r1 & r2 & now & evs & ->).
  induction evs as [|ev evs IH] using rev_ind.
  - simpl. split; [apply init_stageCount|].
    exists 0. rewrite init_pointer, init_stageCount. split; [reflexivity | lia].
  - rewrite run_snoc. destruct IH as [IHc IHok]. split.
    + rewrite (proj2 (step_frame cfg ev)). exact IHc.
    + now apply step_stage_ok.
Qed.

Lemma iter_cycleActiveStage w p (k : nat) :
  pointer w = Some p → 0 ≤ p < stageCount w →
  pointer (Nat.iter k cycleActiveStage w) = Some ((p + Z.of_nat k) mod stageCount w) ∧
  stageCount (Nat.iter k cycleActiveStage w) = stageCount w.
Proof.
  intros Hp Hr. induction k as [|k [IHp IHc]]; simpl Nat.iter.
  - split; [|reflexivity]. rewrite Hp, Z.add_0_r, Z.mod_small by lia. reflexivity.
  - split.
    + rewrite (cycleActiveStage_in_range _ _ IHp), IHc.
      * f_equal. rewrite Z.add_mod_idemp_l by lia. f_equal. lia.
      * rewrite IHc. apply Z.mod_pos_bound. lia.
    + now rewrite (proj2 (proj2 (proj2 (proj2 cycleActiveStage_frame)))).
Qed.

(** Two offsets below [n] that agree modulo [n] are equal. *)
Lemma mod_offsets_inj (n p i j : Z) :
  0 ≤ i < n → 0 ≤ j < n → (p + i) mod n = (p + j) mod n → i = j.
Proof.
  intros Hi Hj E.
  pose proof (Z.div_mod (p + i) n ltac:(lia)) as Di.
  pose proof (Z.div_mod (p + j) n ltac:(lia)) as Dj.
  rewrite E in Di.
  assert (Hq : i - j = n * ((p + i) / n - (p + j) / n)) by lia.
  assert (Hz : (p + i) / n - (p + j) / n = 0) by nia.
  lia.
Qed.

Lemma cycle_visits_distinct w p :
  pointer w = Some p → 0 ≤ p < stageCount w →
  NoDup ((λ k, pointer (Nat.iter k cycleActiveStage w))
         <$> List.seq 0 (Z.to_nat (stageCount w))).
Proof.
  intros Hp Hr. apply NoDup_fmap_2_strong; [|apply NoDup_seq].
  intros i j Hi Hj E. apply elem_of_seq in Hi, Hj.
  rewrite (proj1 (iter_cycleActiveStage w p i Hp Hr)) in E.
  rewrite (proj1 (iter_cycleActiveStage w p j Hp Hr)) in E.
  injection E as E. apply mod_offsets_inj in E; lia.
Qed.

Lemma cycle_returns w p :
  pointer w = Some p → 0 ≤ p < stageCount w →
  pointer (Nat.iter (Z.to_nat (stageCount w)) cycleActiveStage w) = pointer w.
Proof.
  intros Hp Hr. rewrite (proj1 (iter_cycleActiveStage w p _ Hp Hr)), Hp.
  f_equal. rewrite Z2Nat.id by lia.
  rewrite <- (Z.mul_1_l (stageCount w)) at 1. rewrite Z.mod_add by lia.
  apply Z.mod_small. lia.
Qed.

Lemma animation_tick_fires cfg w h r now t :
  List.find (λ t, handle t =? h) (timers w) = Some t → action t = AnimationTick →
  pointer (step cfg w (Fires h r now)) = pointer (cycleActiveStage w).
Proof.
  intros Hf Ha. simpl. rewrite Hf, Ha. simpl.
  now destruct (repeats t).
Qed.

(** C8: on a page with stage cards, in every reachable world the pointer
    satisfies 0 <= pointer < stageCount; an animation tick moves it to
    (pointer + 1) mod stageCount, from stageCount - 1 to 0; stageCount
    successive ticks visit stageCount distinct values and come back to the
    start; the tick does not read the mode, and a mode switch does not move
    the pointer. *)
Theorem stage_pointer_cycles (cfg : config) (page : document) (w : World) :
  (0 < length (stage_cards page))%nat → reachable cfg page w →
  let N := stageCount w in
  N = Z.of_nat (length (stage_cards page)) ∧
  (∃ p, pointer w = Some p ∧ 0 ≤ p < N ∧
     pointer (cycleActiveStage w) = Some ((p + 1) mod N) ∧
     (p = N - 1 → pointer (cycleActiveStage w) = Some 0) ∧
     (p < N - 1 → pointer (cycleActiveStage w) = Some (p + 1)) ∧
     (∀ k : nat, pointer (Nat.iter k cycleActiveStage w) = Some ((p + Z.of_nat k) mod N)) ∧
     NoDup ((λ k, pointer (Nat.iter k cycleActiveStage w)) <$> List.seq 0 (Z.to_nat N)) ∧
     pointer (Nat.iter (Z.to_nat N) cycleActiveStage w) = pointer w) ∧
  (∀ h r now t, List.find (λ t, handle t =? h) (timers w) = Some t →
     action t = AnimationTick →
     pointer (step cfg w (Fires h r now)) = pointer (cycleActiveStage w)) ∧
  (∀ m, pointer (cycleActiveStage (set_state (set_currentMode m) w))
        = pointer (cycleActiveStage w)) ∧
  (∀ m, pointer (switchMode m w) = pointer w).
Proof.
  intros Hn Hreach N.
  destruct (reachable_stage_ok cfg page w Hn Hreach) as (Hc & p & Hp & Hr).
  split; [exact Hc|]. split; [|split; [|split]].
  - exists p. pose proof (cycleActiveStage_in_range w p Hp Hr) as Hnext. fold N in Hnext.
    repeat split; try lia; try exact Hp; try exact Hnext.
    + intros ->. rewrite Hnext. f_equal.
      replace (N - 1 + 1) with (1 * N) by lia. apply Z.mod_mul. lia.
    + intros Hlt. rewrite Hnext. f_equal. apply Z.mod_small. lia.
    + intros k. apply (iter_cycleActiveStage w p k Hp Hr).
    + apply (cycle_visits_distinct w p Hp Hr).
    + apply (cycle_returns w p Hp Hr).
  - intros h r now t. apply animation_tick_fires.
  - reflexivity.
  - intros m. apply switchMode_frame.
Qed.

Lemma stage_pointer_cycles_witness :
  (0 < length (stage_cards (page_with 3)))%nat ∧
  reachable Config (page_with 3) (init Config (page_with 3) 0.5 0.5 0 World0) ∧
  stageCount (init Config (page_with 3) 0.5 0.5 0 World0) = 3.
Proof.
  assert (Hn : (0 < length (stage_cards (page_with 3)))%nat) by (simpl; lia).
  assert (Hr : reachable Config (page_with 3) (init Config (page_with 3) 0.5 0.5 0 World0))
    by (exists 0.5%Q, 0.5%Q, 0, []; reflexivity).
  split; [exact Hn|]. split; [exact Hr|].
  exact (proj1 (stage_pointer_cycles Config (page_with 3) _ Hn Hr)).
Defined.

(** With no stage card the remainder is NaN, and stays NaN. *)
Lemma no_stage_card_pointer_NaN cfg r1 r2 now (k : nat) :
  pointer (Nat.iter (S k) cycleActiveStage (init cfg (page_with 0) r1 r2 now World0)) = None.
Proof.
  induction k as [|k IH].
  - simpl Nat.iter. rewrite cycleActiveStage_pointer, init_pointer, init_stageCount.
    reflexivity.
  - change (Nat.iter (S (S k)) cycleActiveStage ?w)
      with (cycleActiveStage (Nat.iter (S k) cycleActiveStage w)).
    rewrite cycleActiveStage_pointer, IH. reflexivity.
Qed.

(** *** Listeners and clicks *)

Lemma init_listeners_ok cfg page r1 r2 now : listeners_ok (init cfg page r1 r2 now World0).
Proof.
  unfold listeners_ok, init, andThen. intros target mode.
  rewrite (proj1 (proj2 (proj2 (console_log_frame _)))).
  rewrite (proj1 (proj2 (updateDisplay_frame cfg now))).
  rewrite (proj1 (proj2 (startStageAnimations_frame cfg))).
  rewrite (proj1 (proj2 (proj2 (startRealTimeUpdates_frame cfg r1 r2)))).
  unfold setupEventListeners, set_listeners. cbn [listeners].
  set (w := cacheElements page _).
  rewrite !elem_of_app. intros [H|[H|[H|H]]].
  - cbn in H. inversion H.
  - destruct (refs (elems w) !! "analogBtn"); [|inversion H].
    apply list_elem_of_singleton in H. injection H as -> ->. now left.
  - destruct (refs (elems w) !! "digitalBtn"); [|inversion H].
    apply list_elem_of_singleton in H. injection H as -> ->. now right.
  - apply list_elem_of_In, in_map_iff in H. destruct H as (a & Ha & _). discriminate Ha.
Qed.

Lemma reachable_listeners_ok cfg page w : reachable cfg page w → listeners_ok w.
Proof.
  intros (r1 & r2 & now & evs & ->).
  induction evs as [|ev evs IH] using rev_ind.
  - apply init_listeners_ok.
  - rewrite run_snoc. unfold listeners_ok.
    rewrite (proj1 (step_frame cfg ev)). exact IH.
Qed.

Lemma foldl_fixed {B : Type} (f : World → B → World) (w : World) (l : list B) :
  (∀ b, b ∈ l → f w b = w) → foldl f w l = w.
Proof.
  induction l as [|b l IH]; intros H; simpl; [reflexivity|].
  rewrite (H b) by apply list_elem_of_here. apply IH.
  intros b' Hb'. apply H. now apply list_elem_of_further.
Qed.

(** A click on the button of the active mode changes nothing. *)
Lemma click_active_button cfg w target :
  listeners_ok w →
  (target = "analogBtn" ∧ currentMode (state w) = "analog") ∨
  (target = "digitalBtn" ∧ currentMode (state w) = "digital") →
  step cfg w (Click target) = w.
Proof.
  intros Hok Ht. simpl. apply foldl_fixed. intros [t m|a] Hin; [|reflexivity].
  simpl. destruct (String.eqb_spec t target) as [->|_]; [|reflexivity].
  apply switchMode_same, String.eqb_eq.
  destruct (Hok _ _ Hin) as [[-> ->]|[-> ->]], Ht as [[E Hm]|[E Hm]];
    try discriminate E; exact Hm.
Qed.

(** A switch to another mode is visible: one line on the console, and the
    new mode stored. *)
Lemma switchMode_other_mode mode w :
  mode ≠ currentMode (state w) →
  console (switchMode mode w) = (console w ++ ["🔄 Switching mode to: " +:+ mode])%list ∧
  currentMode (state (switchMode mode w)) = mode.
Proof.
  intros Hne. split; [|apply switchMode_mode].
  rewrite switchMode_unfold.
  - rewrite (proj1 (proj2 (proj2 animateModeTransition_frame))). by_mode mode.
  - apply String.eqb_neq. congruence.
Qed.

(** C7: switchMode called with the active mode returns the world as it is:
    nothing is written to the nodes, the timer table, the console or
    AppState; hence a second call with the same mode changes nothing, and in
    a reachable world neither does a click on the button of the active
    mode. *)
Theorem switchMode_active_mode_noop (w : World) :
  switchMode (currentMode (state w)) w = w ∧
  (∀ mode, switchMode mode (switchMode mode w) = switchMode mode w) ∧
  (∀ cfg, step cfg w (CallSwitchMode (currentMode (state w))) = w) ∧
  (∀ cfg page target, reachable cfg page w →
     (target = "analogBtn" ∧ currentMode (state w) = "analog") ∨
     (target = "digitalBtn" ∧ currentMode (state w) = "digital") →
     step cfg w (Click target) = w).
Proof.
  assert (H : ∀ w', switchMode (currentMode (state w')) w' = w')
    by (intros w'; apply switchMode_same, String.eqb_refl).
  split; [apply H|]. split; [|split].
  - intros mode. rewrite <- (switchMode_mode mode w) at 1. apply H.
  - intros cfg. apply H.
  - intros cfg page target Hr. apply click_active_button.
    exact (reachable_listeners_ok cfg page w Hr).
Qed.

Lemma updateDisplay_not_analog cfg now w :
  currentMode (state w) ≠ "analog" → updateDisplay cfg now w = updateDigitalDisplay w.
Proof.
  intros Hne. unfold updateDisplay.
  destruct (String.eqb_spec (currentMode (state w)) "analog"); [contradiction|reflexivity].
Qed.

(** When the mode is neither of the two names, neither data tick does
    anything. *)
Lemma ticks_idle_in_unknown_mode cfg r now w :
  currentMode (state w) ≠ "analog" → currentMode (state w) ≠ "digital" →
  temperatureTick cfg r now w = w ∧ pirTick cfg r now w = w.
Proof.
  intros Ha Hd. unfold temperatureTick, pirTick.
  destruct (String.eqb_spec (currentMode (state w)) "analog"); [contradiction|].
  destruct (String.eqb_spec (currentMode (state w)) "digital"); [contradiction|].
  split; reflexivity.
Qed.

(** C10: switchMode checks nothing about its argument: an argument that
    differs from the stored mode is logged and stored as the active mode,
    and a stored mode other than "analog", whether "digital" or not, makes
    switchMode use the digital labels and updateDisplay run
    updateDigitalDisplay. *)
Theorem switchMode_unvalidated (mode : string) (w : World) :
  mode ≠ currentMode (state w) →
  currentMode (state (switchMode mode w)) = mode ∧
  console (switchMode mode w) = (console w ++ ["🔄 Switching mode to: " +:+ mode])%list ∧
  (mode ≠ "analog" →
   (∀ cfg now, updateDisplay cfg now (switchMode mode w)
               = updateDigitalDisplay (switchMode mode w)) ∧
   updateModeButtons mode = updateModeButtons "digital" ∧
   updateModeText mode = updateModeText "digital" ∧
   updateSensorDisplay mode = updateSensorDisplay "digital" ∧
   updateProcessingDisplay mode = updateProcessingDisplay "digital" ∧
   updateApplicationDisplay mode = updateApplicationDisplay "digital") ∧
  (∀ cfg now w', currentMode (state w') ≠ "analog" →
     updateDisplay cfg now w' = updateDigitalDisplay w').
Proof.
  intros Hne. destruct (switchMode_other_mode mode w Hne) as [Hc Hm].
  split; [exact Hm|]. split; [exact Hc|]. split.
  - intros Ha. split.
    + intros cfg now. apply updateDisplay_not_analog. now rewrite Hm.
    + unfold updateModeButtons, updateModeText, updateSensorDisplay,
        updateProcessingDisplay, updateApplicationDisplay.
      destruct (String.eqb_spec mode "analog"); [contradiction|]. repeat split.
  - intros cfg now w'. apply updateDisplay_not_analog.
Qed.

Lemma switchMode_unvalidated_witness :
  "thermal" ≠ currentMode (state World0) ∧
  currentMode (state (switchMode "thermal" World0)) = "thermal" ∧
  updateDisplay Config 0 (switchMode "thermal" World0)
  = updateDigitalDisplay (switchMode "thermal" World0).
Proof.
  assert (H : "thermal" ≠ currentMode (state World0)) by discriminate.
  assert (Ha : "thermal" ≠ "analog") by discriminate.
  split; [exact H|].
  pose proof (switchMode_unvalidated "thermal" World0 H) as (Hm & _ & Hd & _).
  split; [exact Hm|]. exact (proj1 (Hd Ha) Config 0).
Defined.

(** ** The digital encoding *)

(** C4, as the code has it: the digital encoding is a function of the
    reading alone; detected gives HIGH, "3.3V" (the reference voltage of
    [Config], written as a literal), the bit '1' and the label "Mouvement";
    not detected gives LOW, "0V", '0' and "Aucun"; these are the texts the
    render puts on the page. *)
Theorem digital_encoding_of_reading (d : app_data) :
  (pirDetected d = true →
   ds_state (digitalSignal d) = "HIGH" ∧ ds_voltage (digitalSignal d) = "3.3V" ∧
   ds_binary (digitalSignal d) = "1" ∧ ds_status (digitalSignal d) = "Mouvement") ∧
  (pirDetected d = false →
   ds_state (digitalSignal d) = "LOW" ∧ ds_voltage (digitalSignal d) = "0V" ∧
   ds_binary (digitalSignal d) = "0" ∧ ds_status (digitalSignal d) = "Aucun") ∧
  (∀ d', pirDetected d' = pirDetected d → digitalSignal d' = digitalSignal d) ∧
  JS.toFixed (JS.Fin (VOLTAGE_REF Config)) 1 +:+ "V" = "3.3V" ∧
  (∀ w, data (state w) = d →
     text_of "gpioState" (updateDigitalDisplay w)
       = (λ _, ds_state (digitalSignal d)) <$> text_of "gpioState" w ∧
     text_of "gpioVoltage" (updateDigitalDisplay w)
       = (λ _, ds_voltage (digitalSignal d)) <$> text_of "gpioVoltage" w ∧
     text_of "pirBinary" (updateDigitalDisplay w)
       = (λ _, ds_binary (digitalSignal d)) <$> text_of "pirBinary" w ∧
     text_of "sensorValue" (updateDigitalDisplay w)
       = (λ _, ds_status (digitalSignal d)) <$> text_of "sensorValue" w).
Proof.
  split; [|split; [|split; [|split]]].
  - intros H. unfold digitalSignal. rewrite H. repeat split.
  - intros H. unfold digitalSignal. rewrite H. repeat split.
  - intros d' H. unfold digitalSignal. now rewrite H.
  - vm_compute. reflexivity.
  - intros w <-. pose proof (updateDigitalDisplay_texts w) as H. cbv zeta in H.
    repeat split; apply H.
Qed.

Lemma digital_encoding_of_reading_witness :
  pirDetected (data AppState) = true ∧
  ds_status (digitalSignal (data AppState)) = "Mouvement".
Proof.
  assert (H : pirDetected (data AppState) = true) by reflexivity.
  split; [exact H|].
  exact (proj2 (proj2 (proj2 (proj1 (digital_encoding_of_reading (data AppState)) H)))).
Defined.

(** C4 as stated fails on the label: for a detected motion the status is
    not "Motion". *)
Lemma digital_status_is_not_Motion :
  let s := digitalSignal (set_pirDetected true (data AppState)) in
  ¬ (ds_state s = "HIGH" ∧ ds_voltage s = "3.3V" ∧ ds_binary s = "1" ∧
     ds_status s = "Motion").
Proof. cbv zeta. intros (_ & _ & _ & H). discriminate H. Qed.

(** * Further properties of the script *)

(** ** Induction over the reachable worlds *)

(** A property kept by each function that an event can run is kept by
    every event. *)
Lemma step_preserves (P : World → Prop) cfg :
  (∀ mode, preserves P (switchMode mode)) →
  (∀ r now, preserves P (temperatureTick cfg r now)) →
  (∀ r now, preserves P (pirTick cfg r now)) →
  preserves P cycleActiveStage →
  (∀ index, preserves P (revealCard index)) →
  (∀ h, preserves P (clearInterval h)) →
  (∀ msg, preserves P (console_log msg)) →
  preserves P cleanup →
  (∀ r1 r2, preserves P (startRealTimeUpdates cfg r1 r2)) →
  preserves P (startStageAnimations cfg) →
  (∀ now, preserves P (updateDisplay cfg now)) →
  ∀ ev, preserves P (λ w, step cfg w ev).
Proof.
  intros Hsw Htt Hpt Hcy Hrv Hcl Hlog Hcu Hrt Hsa Hud ev w Hw.
  destruct ev as [target|h r now|[|] r1 r2| |m|now|]; simpl.
  - assert (H : ∀ ls w', P w' → P (foldl (λ w l, runListener target l w) w' ls)).
    { induction ls as [|l ls IH]; intros w' Hw'; simpl; [exact Hw'|].
      apply IH. destruct l as [t m|a]; simpl; [|exact Hw'].
      destruct (String.eqb t target); [now apply Hsw | exact Hw']. }
    now apply H.
  - destruct (List.find _ (timers w)) as [t|]; [|exact Hw].
    assert (Hw1 : P (if repeats t then w else clearInterval h w))
      by (destruct (repeats t); [exact Hw | now apply Hcl]).
    destruct (action t); simpl; [apply Htt|apply Hpt|apply Hcy|apply Hrv]; exact Hw1.
  - unfold andThen. now apply Hcu, Hlog.
  - unfold andThen. now apply Hsa, Hrt, Hlog.
  - now apply Hcu.
  - now apply Hsw.
  - now apply Hud.
  - now apply Hcu.
Qed.

Lemma reachable_ind_step (P : World → Prop) cfg page :
  (∀ r1 r2 now, P (init cfg page r1 r2 now World0)) →
  (∀ ev, preserves P (λ w, step cfg w ev)) →
  ∀ w, reachable cfg page w → P w.
Proof.
  intros Hinit Hstep w (r1 & r2 & now & evs & ->).
  induction evs as [|ev evs IH] using rev_ind; [apply Hinit|].
  rewrite run_snoc. now apply Hstep.
Qed.

Lemma keeps_preserves {A : Type} (obs : World → A) (a : A) f :
  keeps obs f → preserves (λ w, obs w = a) f.
Proof. intros H w Hw. now rewrite H. Qed.

(** ** The cache of nodes *)

Lemma node_on_element name name' f w :
  node name (on_element name' f w)
  = if decide (name' = name) then f <$> node name w else node name w.
Proof.
  unfold node, on_element. cbn. destruct (decide (name' = name)) as [->|Hne].
  - apply lookup_alter_eq.
  - now apply lookup_alter_ne.
Qed.

Lemma cache_fold_lookup (page : document) (names : list string) (name : string) :
  foldr (λ name (m : gmap string element),
           match byId page !! name with
           | Some e => <[name := e]> m
           | None => m
           end) ∅ names !! name
  = if decide (name ∈ names) then byId page !! name else None.
Proof.
  induction names as [|a names IH]; simpl.
  - rewrite lookup_empty. destruct (decide (name ∈ [])) as [H|_]; [inversion H | reflexivity].
  - destruct (decide (a = name)) as [->|Hne].
    + rewrite decide_True by apply list_elem_of_here.
      destruct (byId page !! name) as [e|] eqn:E.
      * rewrite lookup_insert, decide_True by reflexivity. reflexivity.
      * rewrite IH. now destruct (decide (name ∈ names)).
    + assert (Hiff : name ∈ a :: names ↔ name ∈ names).
      { rewrite elem_of_cons. split; [intros [->|H]; [contradiction|exact H] | auto]. }
      assert (Hin : foldr (λ name (m : gmap string element),
                match byId page !! name with
                | Some e => <[name := e]> m
                | None => m
                end) ∅ names !! name
              = if decide (name ∈ a :: names) then byId page !! name else None).
      { rewrite IH. destruct (decide (name ∈ names)), (decide (name ∈ a :: names));
          tauto || reflexivity. }
      destruct (byId page !! a); [|exact Hin].
      rewrite lookup_insert, decide_False by exact Hne. exact Hin.
Qed.

Lemma cacheElements_lookup_aux (page : document) (w : World) (name : string) :
  node name (cacheElements page w)
  = (if decide (name ∈ element_ids) then byId page !! name else None) ∧
  stageCards (elems (cacheElements page w)) = stage_cards page.
Proof. split; [apply cache_fold_lookup | reflexivity]. Qed.

(** X1: after [cacheElements], a field of [Elements] holds the page's node
    of that id, it is [null] when the page has no such node, and no other
    name is cached; the stage cards are the page's, in order. *)
Theorem cacheElements_lookup (page : document) (w : World) (name : string) :
  node name (cacheElements page w)
  = (if decide (name ∈ element_ids) then byId page !! name else None) ∧
  (byId page !! name = None → node name (cacheElements page w) = None) ∧
  (name ∉ element_ids → node name (cacheElements page w) = None) ∧
  stageCards (elems (cacheElements page w)) = stage_cards page ∧
  state (cacheElements page w) = state w ∧
  timers (cacheElements page w) = timers w.
Proof.
  assert (H : node name (cacheElements page w)
              = if decide (name ∈ element_ids) then byId page !! name else None)
    by apply cache_fold_lookup.
  split; [exact H|]. repeat split.
  - intros Hn. rewrite H, Hn. now destruct (decide _).
  - intros Hn. rewrite H. now rewrite decide_False.
Qed.

Lemma nodes_on_element name f w : nodes (on_element name f w) = nodes w.
Proof. unfold nodes, on_element. cbn. apply dom_alter_L. Qed.

Ltac same_nodes :=
  unfold updateDisplay, updateAnalogDisplay, updateDigitalDisplay, updateModeButtons,
    updateModeText, updateSensorDisplay, updateProcessingDisplay,
    updateApplicationDisplay, setSensorIcon, setElementText, showElement, hideElement,
    animateValueUpdate, andThen;
  repeat match goal with |- context [if ?b then _ else _] => destruct b end;
  rewrite ?nodes_on_element; reflexivity.

Lemma updateDisplay_nodes cfg now : keeps nodes (updateDisplay cfg now).
Proof. intros w. same_nodes. Qed.

Lemma switchMode_nodes mode : keeps nodes (switchMode mode).
Proof.
  intros w. destruct (String.eqb (currentMode (state w)) mode) eqn:E;
    [now rewrite switchMode_same | rewrite switchMode_unfold by exact E].
  unfold animateModeTransition.
  rewrite (keeps_foldl nodes fadeCard _ (λ index w', eq_refl)).
  same_nodes.
Qed.

Lemma temperatureTick_nodes cfg r now : keeps nodes (temperatureTick cfg r now).
Proof.
  intros w. unfold temperatureTick.
  destruct (String.eqb (currentMode (state w)) "analog"); [|reflexivity].
  unfold andThen. now rewrite updateDisplay_nodes.
Qed.

Lemma pirTick_nodes cfg r now : keeps nodes (pirTick cfg r now).
Proof.
  intros w. unfold pirTick.
  destruct (String.eqb (currentMode (state w)) "digital"); [|reflexivity].
  unfold andThen. now rewrite updateDisplay_nodes.
Qed.

Lemma cleanup_nodes : keeps nodes cleanup.
Proof. intros w. unfold nodes. now rewrite (proj1 (proj2 cleanup_frame)). Qed.

Lemma step_nodes cfg ev : keeps nodes (λ w, step cfg w ev).
Proof.
  intros w. apply (step_preserves (λ w', nodes w' = nodes w) cfg); try reflexivity;
    try (intros; apply keeps_preserves; intros w'; reflexivity).
  - intros mode. apply keeps_preserves, switchMode_nodes.
  - intros r now. apply keeps_preserves, temperatureTick_nodes.
  - intros r now. apply keeps_preserves, pirTick_nodes.
  - apply keeps_preserves, cleanup_nodes.
  - intros now. apply keeps_preserves, updateDisplay_nodes.
Qed.

Lemma obs_andThen {A : Type} (obs : World → A) (f g : World → World) (w : World) :
  keeps obs g → obs ((f >>> g) w) = obs (f w).
Proof. intros H. unfold andThen. apply H. Qed.

Lemma keeps_nodes_of_elems f : keeps elems f → keeps nodes f.
Proof. intros H w. unfold nodes. now rewrite H. Qed.

Lemma setupEventListeners_elems page : keeps elems (setupEventListeners page).
Proof. intros w. unfold setupEventListeners, set_listeners. reflexivity. Qed.

Lemma cacheElements_elems page w w' :
  elems (cacheElements page w) = elems (cacheElements page w').
Proof. unfold cacheElements, set_elems. reflexivity. Qed.

Lemma init_nodes cfg page r1 r2 now w :
  nodes (init cfg page r1 r2 now w) = nodes (cacheElements page w).
Proof.
  unfold init.
  rewrite obs_andThen by apply keeps_nodes_of_elems, console_log_frame.
  rewrite obs_andThen by apply updateDisplay_nodes.
  rewrite obs_andThen by apply keeps_nodes_of_elems, startStageAnimations_frame.
  rewrite obs_andThen by apply keeps_nodes_of_elems, startRealTimeUpdates_frame.
  rewrite obs_andThen by apply keeps_nodes_of_elems, setupEventListeners_elems.
  unfold andThen, nodes. now rewrite (cacheElements_elems page _ w).
Qed.

(** X2: the script never adds or drops a cached node: in every reachable
    world a field of [Elements] is non-null exactly when it is one of the
    named fields and the page had a node of that id when [init] ran. *)
Theorem cached_nodes_are_fixed (cfg : config) (page : document) (w : World) (name : string) :
  reachable cfg page w →
  nodes w = nodes (cacheElements page World0) ∧
  (is_Some (node name w) ↔ name ∈ element_ids ∧ is_Some (byId page !! name)).
Proof.
  intros Hr.
  assert (H : nodes w = nodes (cacheElements page World0)).
  { revert w Hr. apply reachable_ind_step.
    - intros r1 r2 now. apply init_nodes.
    - intros ev w Hw. now rewrite step_nodes. }
  split; [exact H|].
  assert (Hn : ∀ x, is_Some (node name x) ↔ name ∈ nodes x)
    by (intros x; unfold node, nodes; symmetry; apply elem_of_dom).
  rewrite Hn, H, <- Hn.
  rewrite (proj1 (cacheElements_lookup_aux page World0 name)).
  destruct (decide (name ∈ element_ids)) as [Hin|Hout].
  - tauto.
  - split; [intros [x Hx]; discriminate Hx | tauto].
Qed.

Lemma World_eta (w : World) :
  w = {| state := state w; elems := elems w; timers := timers w;
         nextHandle := nextHandle w; listeners := listeners w; console := console w |}.
Proof. now destruct w. Qed.

(** An update of a node that changes nothing changes nothing in the
    world. *)
Lemma on_element_id name f w :
  (∀ e, node name w = Some e → f e = e) → on_element name f w = w.
Proof.
  intros H. destruct w as [st [rs cs] ts nh ls co]. unfold on_element, set_elems. cbn in *.
  f_equal. f_equal. now apply alter_id.
Qed.

(** X3: [setElementText] is safe on a missing node and writes one node
    only: on a [null] field, or when the node already shows the text, the
    world is unchanged; otherwise the text read back is the text written,
    every other node is as it was, and writing twice is writing once. *)
Theorem setElementText_writes_one_node (name text : string) (w : World) :
  (node name w = None → setElementText name text w = w) ∧
  (text_of name w = Some text → setElementText name text w = w) ∧
  text_of name (setElementText name text w) = (λ _, text) <$> text_of name w ∧
  (∀ name', name' ≠ name → node name' (setElementText name text w) = node name' w) ∧
  setElementText name text (setElementText name text w) = setElementText name text w ∧
  state (setElementText name text w) = state w ∧
  timers (setElementText name text w) = timers w.
Proof.
  split; [|split; [|split; [|split; [|split]]]].
  - intros Hn. apply on_element_id. intros e He. unfold node in *. congruence.
  - intros Ht. apply on_element_id. intros e He.
    unfold text_of in Ht. fold (node name w) in Ht. rewrite He in Ht.
    injection Ht as Ht. now rewrite decide_True.
  - rewrite text_of_setElementText. now rewrite decide_True.
  - intros name' Hne. unfold setElementText. rewrite node_on_element.
    now rewrite decide_False.
  - apply on_element_id. intros e He.
    unfold setElementText in He. rewrite node_on_element, decide_True in He by reflexivity.
    destruct (node name w) as [e0|]; [|discriminate He]. injection He as <-.
    destruct (decide (textContent e0 = text)) as [Heq|Hne].
    + now rewrite decide_True.
    + now rewrite decide_True.
  - split; reflexivity.
Qed.

(** ** The timer table *)

Lemma handles_ok_same w w' :
  timers w' = timers w → nextHandle w' = nextHandle w → handles_ok w → handles_ok w'.
Proof. unfold handles_ok. intros -> ->. tauto. Qed.

Lemma handles_ok_kept f :
  keeps timers f → keeps nextHandle f → preserves handles_ok f.
Proof. intros Ht Hn w. apply handles_ok_same; [apply Ht | apply Hn]. Qed.

(** Timers registered under the next free handles keep the table in
    order. *)
Lemma handles_ok_extend w w' (new : list timer) :
  timers w' = (timers w ++ new)%list →
  handle <$> new = (λ i, nextHandle w + Z.of_nat i) <$> List.seq 0 (length new) →
  nextHandle w' = nextHandle w + Z.of_nat (length new) →
  handles_ok w → handles_ok w'.
Proof.
  intros Ht Hh Hn (H1 & Hnd & Hall). unfold handles_ok. rewrite Ht, Hn.
  assert (Hnew : Forall (λ t, nextHandle w ≤ handle t
                              < nextHandle w + Z.of_nat (length new)) new).
  { apply Forall_fmap with (f := handle)
      (P := λ h, nextHandle w ≤ h < nextHandle w + Z.of_nat (length new)).
    rewrite Hh. apply Forall_fmap, Forall_forall. intros i Hi.
    apply elem_of_seq in Hi. simpl. lia. }
  split; [lia|]. split.
  - rewrite fmap_app. apply NoDup_app. split; [exact Hnd|]. split.
    + intros h Hin Hin'. apply list_elem_of_fmap in Hin as (t & -> & Ht1).
      apply list_elem_of_fmap in Hin' as (t' & Heq & Ht2).
      rewrite Forall_forall in Hall, Hnew.
      specialize (Hall _ Ht1). specialize (Hnew _ Ht2). lia.
    + rewrite Hh. apply NoDup_fmap_2_strong; [|apply NoDup_seq].
      intros i j _ _ E. lia.
  - apply Forall_app. split.
    + eapply Forall_impl; [exact Hall|]. simpl. intros t Ht1. lia.
    + eapply Forall_impl; [exact Hnew|]. simpl. intros t Ht1. lia.
Qed.

Lemma NoDup_handles_filter (P : timer → Prop) `{∀ t, Decision (P t)} (l : list timer) :
  NoDup (handle <$> l) → NoDup (handle <$> filter P l).
Proof.
  induction l as [|t l IH]; [intros; constructor|].
  rewrite fmap_cons, NoDup_cons. intros [Hnotin Hnd].
  rewrite filter_cons. destruct (decide (P t)); [|now apply IH].
  rewrite fmap_cons, NoDup_cons. split; [|now apply IH].
  intros Hin. apply Hnotin.
  apply list_elem_of_fmap in Hin as (t' & -> & Ht').
  apply list_elem_of_filter in Ht' as [_ Ht']. now apply list_elem_of_fmap_2.
Qed.

Lemma clearInterval_handles_ok h : preserves handles_ok (clearInterval h).
Proof.
  intros w (H1 & Hnd & Hall). unfold handles_ok, clearInterval. cbn.
  split; [exact H1|]. split.
  - now apply NoDup_handles_filter.
  - apply Forall_forall. intros t Ht. apply list_elem_of_filter in Ht as [_ Ht].
    rewrite Forall_forall in Hall. now apply Hall.
Qed.

Lemma clearIfSet_handles_ok i : preserves handles_ok (clearIfSet i).
Proof.
  destruct i as [h|]; simpl; [|now intros w].
  destruct (h =? 0); [now intros w | apply clearInterval_handles_ok].
Qed.

Lemma cleanup_handles_ok : preserves handles_ok cleanup.
Proof.
  intros w Hw. unfold cleanup, andThen.
  apply clearIfSet_handles_ok, clearIfSet_handles_ok, clearIfSet_handles_ok.
  revert Hw. now apply handles_ok_same.
Qed.

(** What [startRealTimeUpdates] followed by [startStageAnimations] leaves in
    the timer table and in [AppState.updateIntervals]. *)
Lemma start_timers cfg r1 r2 w :
  let w' := startStageAnimations cfg (startRealTimeUpdates cfg r1 r2 w) in
  timers w' = (timers w ++ started_timers cfg (nextHandle w))%list ∧
  nextHandle w' = nextHandle w + 3 ∧
  updateIntervals (state w')
  = {| ui_temperature := Some (nextHandle w); ui_pir := Some (nextHandle w + 1);
       ui_animation := Some (nextHandle w + 2) |}.
Proof.
  cbv zeta. split; [|split].
  - unfold startStageAnimations, startRealTimeUpdates, andThen. cbn.
    rewrite <- !app_assoc.
    replace (nextHandle w + 1 + 1) with (nextHandle w + 2) by lia. reflexivity.
  - unfold startStageAnimations, startRealTimeUpdates, andThen. cbn. lia.
  - unfold startStageAnimations, startRealTimeUpdates, andThen. cbn.
    replace (nextHandle w + 1 + 1) with (nextHandle w + 2) by lia. reflexivity.
Qed.

Lemma start_handles_ok cfg r1 r2 w :
  handles_ok w → handles_ok (startStageAnimations cfg (startRealTimeUpdates cfg r1 r2 w)).
Proof.
  destruct (start_timers cfg r1 r2 w) as (Ht & Hn & _).
  apply (handles_ok_extend _ _ (started_timers cfg (nextHandle w))).
  - exact Ht.
  - simpl. rewrite Z.add_0_r. reflexivity.
  - rewrite Hn. reflexivity.
Qed.

Lemma reveal_timers_S h k :
  reveal_timers h (S k)
  = (reveal_timers h k
     ++ [{| handle := h + Z.of_nat k; repeats := false;
            delay := Z.of_nat k * 100; action := CardReveal k |}])%list.
Proof. unfold reveal_timers. now rewrite seq_S, fmap_app. Qed.

Lemma reveal_timers_handles h k :
  handle <$> reveal_timers h k = (λ i, h + Z.of_nat i) <$> List.seq 0 k ∧
  length (reveal_timers h k) = k.
Proof.
  unfold reveal_timers. split.
  - now rewrite <- list_fmap_compose.
  - now rewrite length_fmap, length_seq.
Qed.

(** The world after the first [k] rounds of the [forEach] of
    [animateModeTransition]: the first [k] cards are faded, and their
    reveals are queued under the next [k] handles. *)
Lemma fade_rounds (k : nat) : ∀ w,
  let w' := foldl fadeCard w (List.seq 0 k) in
  timers w' = (timers w ++ reveal_timers (nextHandle w) k)%list ∧
  nextHandle w' = nextHandle w + Z.of_nat k ∧
  state w' = state w ∧ listeners w' = listeners w ∧ console w' = console w ∧
  refs (elems w') = refs (elems w) ∧
  ∀ i, card i w'
       = (if decide (i < k)%nat
          then set_style "transform" "scale(0.95)" ∘ set_style "opacity" "0"
          else id) <$> card i w.
Proof.
  induction k as [|k IH]; intros w; cbv zeta.
  - cbn [foldl List.seq reveal_timers fmap list_fmap]. rewrite app_nil_r, Z.add_0_r.
    repeat split.
    intros i. destruct (decide (i < 0)%nat); [lia|]. now destruct (card i w).
  - rewrite seq_S, foldl_snoc. simpl Nat.add.
    destruct (IH w) as (Ht & Hn & Hs & Hl & Hc & Hr & Hcards).
    set (wk := foldl fadeCard w (List.seq 0 k)) in *.
    split; [|split; [|split; [|split; [|split; [|split]]]]].
    + rewrite reveal_timers_S, app_assoc, <- Ht, <- Hn. reflexivity.
    + unfold fadeCard. cbn. rewrite Hn. lia.
    + exact Hs.
    + exact Hl.
    + exact Hc.
    + exact Hr.
    + intros i. unfold card, fadeCard. cbn.
      destruct (decide (k = i)) as [->|Hne].
      * rewrite list_lookup_alter_eq. fold (card i wk). rewrite Hcards.
        rewrite decide_False, decide_True by lia. fold (card i w).
        now destruct (card i w).
      * rewrite list_lookup_alter_ne by exact Hne. fold (card i wk). rewrite Hcards.
        fold (card i w).
        destruct (decide (i < k)%nat), (decide (i < S k)%nat); try lia; reflexivity.
Qed.

Lemma animateModeTransition_handles_ok : preserves handles_ok animateModeTransition.
Proof.
  intros w. unfold animateModeTransition.
  destruct (fade_rounds (length (stageCards (elems w))) w) as (Ht & Hn & _).
  destruct (reveal_timers_handles (nextHandle w) (length (stageCards (elems w))))
    as [Hh Hlen].
  apply (handles_ok_extend _ _ _ Ht); now rewrite Hlen.
Qed.

Lemma switchMode_handles_ok mode : preserves handles_ok (switchMode mode).
Proof.
  intros w Hw. destruct (String.eqb (currentMode (state w)) mode) eqn:E;
    [now rewrite switchMode_same | rewrite switchMode_unfold by exact E].
  apply animateModeTransition_handles_ok. revert Hw.
  apply handles_ok_same; by_mode mode.
Qed.

Lemma updateDisplay_handles_ok cfg now : preserves handles_ok (updateDisplay cfg now).
Proof.
  apply handles_ok_kept; [apply updateDisplay_frame|].
  intros w. unfold updateDisplay.
  destruct (String.eqb (currentMode (state w)) "analog"); reflexivity.
Qed.

Lemma temperatureTick_handles_ok cfg r now : preserves handles_ok (temperatureTick cfg r now).
Proof.
  intros w Hw. unfold temperatureTick.
  destruct (String.eqb (currentMode (state w)) "analog"); [|exact Hw].
  unfold andThen. apply updateDisplay_handles_ok. revert Hw. now apply handles_ok_same.
Qed.

Lemma pirTick_handles_ok cfg r now : preserves handles_ok (pirTick cfg r now).
Proof.
  intros w Hw. unfold pirTick.
  destruct (String.eqb (currentMode (state w)) "digital"); [|exact Hw].
  unfold andThen. apply updateDisplay_handles_ok. revert Hw. now apply handles_ok_same.
Qed.

Lemma step_handles_ok cfg ev : preserves handles_ok (λ w, step cfg w ev).
Proof.
  apply step_preserves.
  - apply switchMode_handles_ok.
  - apply temperatureTick_handles_ok.
  - apply pirTick_handles_ok.
  - apply handles_ok_kept; now intros w.
  - intros index. apply handles_ok_kept; now intros w.
  - apply clearInterval_handles_ok.
  - intros msg. apply handles_ok_kept; now intros w.
  - apply cleanup_handles_ok.
  - intros r1 r2 w.
    apply (handles_ok_extend _ _
      [ {| handle := nextHandle w; repeats := true; delay := UPDATE_INTERVAL cfg;
           action := TemperatureTick |};
        {| handle := nextHandle w + 1; repeats := true; delay := UPDATE_INTERVAL cfg;
           action := PirTick |} ]).
    + unfold startRealTimeUpdates, andThen. cbn. now rewrite <- app_assoc.
    + simpl. now rewrite Z.add_0_r.
    + unfold startRealTimeUpdates, andThen. cbn. lia.
  - intros w.
    apply (handles_ok_extend _ _
      [ {| handle := nextHandle w; repeats := true; delay := ANIMATION_INTERVAL cfg;
           action := AnimationTick |} ]).
    + reflexivity.
    + simpl. now rewrite Z.add_0_r.
    + reflexivity.
  - apply updateDisplay_handles_ok.
Qed.

Lemma init_timers cfg page r1 r2 now :
  let w := init cfg page r1 r2 now World0 in
  timers w = started_timers cfg 1 ∧ nextHandle w = 4 ∧
  updateIntervals (state w)
  = {| ui_temperature := Some 1; ui_pir := Some 2; ui_animation := Some 3 |}.
Proof.
  cbv zeta. unfold init.
  set (w0 := (console_log "🚀 IoT Visualization System Initializing..."
              >>> cacheElements page >>> setupEventListeners page) World0).
  destruct (start_timers cfg r1 r2 w0) as (Ht & Hn & Hu). cbv zeta in Ht, Hn, Hu.
  split; [|split].
  - rewrite obs_andThen by apply console_log_frame.
    rewrite obs_andThen by apply updateDisplay_frame. exact Ht.
  - rewrite obs_andThen by (intros w; reflexivity).
    rewrite obs_andThen; [exact Hn|].
    intros w. unfold updateDisplay.
    destruct (String.eqb (currentMode (state w)) "analog"); reflexivity.
  - rewrite (obs_andThen (λ w, updateIntervals (state w))) by (intros w; reflexivity).
    rewrite (obs_andThen (λ w, updateIntervals (state w))); [exact Hu|].
    apply (keeps_of_state updateIntervals), updateDisplay_frame.
Qed.

Lemma init_handles_ok cfg page r1 r2 now : handles_ok (init cfg page r1 r2 now World0).
Proof.
  destruct (init_timers cfg page r1 r2 now) as (Ht & Hn & _). cbv zeta in Ht, Hn.
  unfold handles_ok. rewrite Ht, Hn. split; [lia|]. split.
  - simpl. repeat (constructor; [rewrite ?elem_of_cons, ?elem_of_nil; lia|]). constructor.
  - repeat constructor; simpl; lia.
Qed.

Lemma reachable_handles_ok cfg page w : reachable cfg page w → handles_ok w.
Proof.
  revert w. apply reachable_ind_step.
  - apply init_handles_ok.
  - apply step_handles_ok.
Qed.

(** With distinct handles, looking a handle up finds the one timer
    registered under it. *)
Lemma find_by_handle (l : list timer) (h : Z) (t : timer) :
  NoDup (handle <$> l) →
  (List.find (λ t, handle t =? h) l = Some t ↔ t ∈ l ∧ handle t = h).
Proof.
  induction l as [|a l IH]; intros Hnd.
  - simpl. split; [discriminate | intros [H _]; inversion H].
  - rewrite fmap_cons, NoDup_cons in Hnd. destruct Hnd as [Hnotin Hnd]. simpl.
    destruct (Z.eqb_spec (handle a) h) as [Ha|Ha].
    + split.
      * intros [= ->]. split; [apply list_elem_of_here | exact Ha].
      * intros [Hin Hh]. apply elem_of_cons in Hin as [->|Hin]; [reflexivity|].
        exfalso. apply Hnotin. rewrite Ha, <- Hh. now apply list_elem_of_fmap_2.
    + rewrite (IH Hnd). rewrite elem_of_cons. split.
      * intros [Hin Hh]. auto.
      * intros [[->|Hin] Hh]; [contradiction | auto].
Qed.

(** X4: in every reachable world the handles of the timer table are
    positive, pairwise distinct and below the next handle the host gives,
    so that a firing handle designates exactly one timer. *)
Theorem timer_handles_are_distinct (cfg : config) (page : document) (w : World) :
  reachable cfg page w →
  handles_ok w ∧
  (∀ h t, List.find (λ t, handle t =? h) (timers w) = Some t ↔ t ∈ timers w ∧ handle t = h) ∧
  (∀ t1 t2, t1 ∈ timers w → t2 ∈ timers w → handle t1 = handle t2 → t1 = t2).
Proof.
  intros Hr. pose proof (reachable_handles_ok cfg page w Hr) as Hok.
  destruct Hok as (H1 & Hnd & Hall). split; [exact (conj H1 (conj Hnd Hall))|]. split.
  - intros h t. now apply find_by_handle.
  - intros t1 t2 H1' H2' E.
    assert (Hf : List.find (λ t, handle t =? handle t2) (timers w) = Some t1)
      by (now apply find_by_handle).
    assert (Hf' : List.find (λ t, handle t =? handle t2) (timers w) = Some t2)
      by (now apply find_by_handle).
    congruence.
Qed.

Lemma timer_handles_are_distinct_witness :
  reachable Config (page_with 3) (init Config (page_with 3) 0.5 0.5 0 World0) ∧
  handles_ok (init Config (page_with 3) 0.5 0.5 0 World0).
Proof.
  assert (Hr : reachable Config (page_with 3) (init Config (page_with 3) 0.5 0.5 0 World0))
    by (exists 0.5%Q, 0.5%Q, 0, []; reflexivity).
  split; [exact Hr|].
  exact (proj1 (timer_handles_are_distinct Config (page_with 3) _ Hr)).
Defined.

Lemma filter_keeps_all {A : Type} (P : A → Prop) `{∀ x, Decision (P x)} (l : list A) :
  Forall P l → filter P l = l.
Proof.
  induction 1 as [|x l Hx Hl IH]; [reflexivity|].
  now rewrite filter_cons_True, IH.
Qed.

(** What [cleanup] leaves in the timer table when the three stored handles
    are set. *)
Lemma cleanup_timers w a b c :
  updateIntervals (state w)
  = {| ui_temperature := Some a; ui_pir := Some b; ui_animation := Some c |} →
  a ≠ 0 → b ≠ 0 → c ≠ 0 →
  timers (cleanup w)
  = filter (λ t, handle t ≠ c) (filter (λ t, handle t ≠ b)
      (filter (λ t, handle t ≠ a) (timers w))).
Proof.
  intros Hu Ha Hb Hc. unfold cleanup, andThen. rewrite Hu. simpl.
  destruct (Z.eqb_spec a 0); [contradiction|].
  destruct (Z.eqb_spec b 0); [contradiction|].
  destruct (Z.eqb_spec c 0); [contradiction|]. reflexivity.
Qed.

Lemma filter_other_handles (l : list timer) (n h : Z) :
  Forall (λ t, 1 ≤ handle t < n) l → n ≤ h → filter (λ t, handle t ≠ h) l = l.
Proof.
  intros Hall Hle. apply filter_keeps_all.
  eapply Forall_impl; [exact Hall|]. simpl. intros t Ht. lia.
Qed.

(** The three stored handles removed from the three timers they
    designate. *)
Lemma filter_started_timers cfg n :
  filter (λ t, handle t ≠ n + 2) (filter (λ t, handle t ≠ n + 1)
    (filter (λ t, handle t ≠ n) (started_timers cfg n))) = [].
Proof.
  unfold started_timers.
  rewrite (filter_cons_False (λ t, handle t ≠ n)) by (simpl; lia).
  rewrite (filter_cons_True (λ t, handle t ≠ n)) by (simpl; lia).
  rewrite (filter_cons_True (λ t, handle t ≠ n)) by (simpl; lia).
  rewrite filter_nil.
  rewrite (filter_cons_False (λ t, handle t ≠ n + 1)) by (simpl; lia).
  rewrite (filter_cons_True (λ t, handle t ≠ n + 1)) by (simpl; lia).
  rewrite filter_nil.
  rewrite (filter_cons_False (λ t, handle t ≠ n + 2)) by (simpl; lia).
  apply filter_nil.
Qed.

Lemma filter3_other_handles (l : list timer) (n m : Z) :
  Forall (λ t, 1 ≤ handle t < n) l → n ≤ m →
  filter (λ t, handle t ≠ m + 2) (filter (λ t, handle t ≠ m + 1)
    (filter (λ t, handle t ≠ m) l)) = l.
Proof.
  intros Hall Hle.
  rewrite (filter_other_handles l n m), (filter_other_handles l n (m + 1)),
    (filter_other_handles l n (m + 2)) by (assumption || lia). reflexivity.
Qed.

(** X5: cleanup undoes a start: after [startRealTimeUpdates] and
    [startStageAnimations], [cleanup] cancels exactly the three intervals
    they registered, and the timer table is the one from before the start. *)
Theorem cleanup_cancels_started_intervals (cfg : config) (r1 r2 : Q) (w : World) :
  handles_ok w →
  let started := startStageAnimations cfg (startRealTimeUpdates cfg r1 r2 w) in
  timers started = (timers w ++ started_timers cfg (nextHandle w))%list ∧
  timers (cleanup started) = timers w ∧
  state (cleanup started) = state started ∧
  elems (cleanup started) = elems started.
Proof.
  intros (H1 & Hnd & Hall) started.
  destruct (start_timers cfg r1 r2 w) as (Ht & Hn & Hu). fold started in Ht, Hn, Hu.
  split; [exact Ht|]. split; [|split; apply cleanup_frame].
  rewrite (cleanup_timers started _ _ _ Hu) by lia.
  rewrite Ht, !filter_app, filter_started_timers, app_nil_r.
  now apply (filter3_other_handles _ (nextHandle w)).
Qed.

Lemma cleanup_cancels_started_intervals_witness :
  handles_ok World0 ∧
  timers (cleanup (startStageAnimations Config (startRealTimeUpdates Config 0.5 0.5 World0)))
  = timers World0.
Proof.
  assert (H : handles_ok World0).
  { unfold handles_ok. simpl. split; [lia|]. split; constructor. }
  split; [exact H|].
  exact (proj1 (proj2 (cleanup_cancels_started_intervals Config 0.5 0.5 World0 H))).
Defined.

(** X6: a second start without a cleanup in between leaks the first three
    intervals: [cleanup] only cancels the handles stored last, and the
    intervals of the first start stay in the timer table. *)
Theorem restart_without_cleanup_leaks (cfg : config) (r1 r2 r3 r4 : Q) (w : World) :
  handles_ok w →
  let once := startStageAnimations cfg (startRealTimeUpdates cfg r1 r2 w) in
  let twice := startStageAnimations cfg (startRealTimeUpdates cfg r3 r4 once) in
  timers twice
  = (timers w ++ started_timers cfg (nextHandle w)
     ++ started_timers cfg (nextHandle w + 3))%list ∧
  timers (cleanup twice) = (timers w ++ started_timers cfg (nextHandle w))%list.
Proof.
  intros Hok once twice.
  destruct (start_timers cfg r1 r2 w) as (Ht & Hn & Hu). fold once in Ht, Hn, Hu.
  destruct (start_timers cfg r3 r4 once) as (Ht2 & Hn2 & Hu2). fold twice in Ht2, Hn2, Hu2.
  pose proof (start_handles_ok cfg r1 r2 w Hok) as (H1 & Hnd & Hall). fold once in H1, Hnd, Hall.
  rewrite Hn in Ht2, Hu2.
  split; [now rewrite Ht2, Ht, <- app_assoc|].
  rewrite (cleanup_timers twice _ _ _ Hu2) by lia.
  rewrite Ht2, !filter_app, filter_started_timers, app_nil_r.
  rewrite <- Ht. apply (filter3_other_handles _ (nextHandle once)); [exact Hall | lia].
Qed.

Lemma restart_without_cleanup_leaks_witness :
  handles_ok World0 ∧
  timers (cleanup (startStageAnimations Config (startRealTimeUpdates Config 0.5 0.5
            (startStageAnimations Config (startRealTimeUpdates Config 0.5 0.5 World0)))))
  = started_timers Config 1.
Proof.
  assert (H : handles_ok World0).
  { unfold handles_ok. simpl. split; [lia|]. split; constructor. }
  split; [exact H|].
  exact (proj2 (restart_without_cleanup_leaks Config 0.5 0.5 0.5 0.5 World0 H)).
Defined.

(** ** Construction with an invalid configuration *)

Lemma detection_chance_above_one cfg r w :
  (r < 1)%Q → (1 < PIR_DETECTION_CHANCE cfg)%Q →
  pirDetected (data (state (updatePIRData cfg r w))) = true.
Proof.
  intros Hr Hc.
  change ((match Qcompare r (PIR_DETECTION_CHANCE cfg) with Lt => true | _ => false end)
          = true).
  destruct (Qcompare r (PIR_DETECTION_CHANCE cfg)) eqn:E; try reflexivity.
  - apply Qeq_alt in E. lra.
  - apply Qgt_alt in E. lra.
Qed.

Lemma detection_chance_below_zero cfg r w :
  (0 <= r)%Q → (PIR_DETECTION_CHANCE cfg < 0)%Q →
  pirDetected (data (state (updatePIRData cfg r w))) = false.
Proof.
  intros Hr Hc.
  change ((match Qcompare r (PIR_DETECTION_CHANCE cfg) with Lt => true | _ => false end)
          = false).
  destruct (Qcompare r (PIR_DETECTION_CHANCE cfg)) eqn:E; try reflexivity.
  apply Qlt_alt in E. lra.
Qed.

Lemma le_lt_false x y : JS.le x y → JS.lt y x = false.
Proof.
  destruct x as [a|[|]|], y as [b|[|]|]; cbn; try contradiction; auto.
  intros H. destruct (Qcompare_spec b a) as [E|E|E]; [reflexivity | exfalso; lra | reflexivity].
Qed.

(** With an inverted temperature range the offset that a draw adds to
    TEMP_MIN is never positive. *)
Lemma inverted_range_offset cfg r :
  (0 <= r)%Q → (TEMP_MAX cfg <= TEMP_MIN cfg)%Q →
  JS.lt (JS.Fin 0)
    (JS.mul (JS.Fin r) (JS.sub (JS.Fin (TEMP_MAX cfg)) (JS.Fin (TEMP_MIN cfg)))) = false.
Proof.
  intros Hr Hc. rewrite sub_Fin.
  pose proof (round_mono (TEMP_MAX cfg + - TEMP_MIN cfg) 0 ltac:(lra)) as Hs.
  change (JS.round 0) with (JS.Fin 0) in Hs.
  destruct (JS.round (TEMP_MAX cfg + - TEMP_MIN cfg)) as [s|[|]|]; cbn [JS.le] in Hs;
    try contradiction.
  - rewrite mul_Fin. apply le_lt_false. change (JS.Fin 0) with (JS.round 0).
    apply round_mono.
    assert (H : (0 <= r * - s)%Q) by (apply Qmult_le_0_compat; lra).
    assert (E : (r * s == - (r * - s))%Q) by ring.
    rewrite E. set (a := (r * - s)%Q) in *. lra.
  - cbn [JS.mul]. destruct (JS.is_zero r); [reflexivity|].
    unfold JS.is_negative. destruct (Qcompare_spec r 0) as [E|E|E];
      [reflexivity | exfalso; lra | reflexivity].
Qed.

(** C3, as the code has it: nothing validates the configuration.  With an
    invalid configuration [init] leaves the engine running, and the invalid
    value is used as it is: with ADC_BITS <= 0 the bit string is left
    without padding ("101011101000" at the draw 0.5 with ADC_BITS = 0), with
    TEMP_MAX <= TEMP_MIN no draw adds a positive offset to TEMP_MIN
    (TEMP_MAX = 10 gives the code 1861 at the draw 0.5), with a detection
    chance above 1 every draw detects a motion and with a chance below 0
    none does. *)
Theorem construction_never_rejects (cfg : config) (page : document) (r1 r2 : Q) (now : Z) :
  invalid_configuration cfg →
  engine_running cfg (init cfg page r1 r2 now World0) ∧
  (ADC_BITS cfg ≤ 0 → ∀ d, as_binary (analogSignal cfg d) = JS.toString2 (adcValue d)) ∧
  text_of "binaryValue" (init (with_ADC_BITS 0 Config) (page_with 3) 0.5 0.5 0 World0)
    = Some "101011101000" ∧
  ((0 <= r1)%Q → (TEMP_MAX cfg <= TEMP_MIN cfg)%Q →
   JS.lt (JS.Fin 0)
     (JS.mul (JS.Fin r1) (JS.sub (JS.Fin (TEMP_MAX cfg)) (JS.Fin (TEMP_MIN cfg)))) = false) ∧
  adcValue (data (state (init (with_TEMP_MAX 10 Config) (page_with 3) 0.5 0.5 0 World0)))
    = JS.Int 1861 ∧
  ((r2 < 1)%Q → (1 < PIR_DETECTION_CHANCE cfg)%Q →
   pirDetected (data (state (updatePIRData cfg r2 World0))) = true) ∧
  ((0 <= r2)%Q → (PIR_DETECTION_CHANCE cfg < 0)%Q →
   pirDetected (data (state (updatePIRData cfg r2 World0))) = false) ∧
  pirDetected (data (state
    (init (with_PIR_DETECTION_CHANCE 2 Config) (page_with 3) 0.5 (JS.double 0.999) 0 World0)))
    = true.
Proof.
  intros _. split.
  - destruct (init_timers cfg page r1 r2 now) as (Ht & _ & Hu). cbv zeta in Ht, Hu.
    exists 1. split; [exact Ht | exact Hu].
  - split.
    { intros Hb d. cbn [as_binary analogSignal]. unfold JS.padStart.
      replace (Z.to_nat (ADC_BITS cfg)) with 0%nat by lia. reflexivity. }
    split; [vm_compute; reflexivity|].
    split; [apply inverted_range_offset|].
    split; [vm_compute; reflexivity|].
    split; [apply detection_chance_above_one|].
    split; [apply detection_chance_below_zero | vm_compute; reflexivity].
Qed.

Lemma construction_never_rejects_witness :
  invalid_configuration (with_ADC_BITS 0 Config) ∧
  engine_running (with_ADC_BITS 0 Config)
    (init (with_ADC_BITS 0 Config) (page_with 3) 0.5 0.5 0 World0).
Proof.
  assert (H : invalid_configuration (with_ADC_BITS 0 Config)) by (left; simpl; lia).
  split; [exact H|].
  exact (proj1 (construction_never_rejects (with_ADC_BITS 0 Config) (page_with 3)
                  0.5 0.5 0 H)).
Defined.

(** C3 as stated fails: ADC_BITS = 0 is an invalid configuration, and
    construction with it leaves a running engine. *)
Lemma zero_bits_configuration_is_accepted :
  ¬ (invalid_configuration (with_ADC_BITS 0 Config) →
     ¬ engine_running (with_ADC_BITS 0 Config)
         (init (with_ADC_BITS 0 Config) (page_with 3) 0.5 0.5 0 World0)).
Proof.
  intros H. apply H; [left; simpl; lia|].
  destruct (init_timers (with_ADC_BITS 0 Config) (page_with 3) 0.5 0.5 0) as (Ht & _ & Hu).
  cbv zeta in Ht, Hu. exists 1. split; [exact Ht | exact Hu].
Qed.

(** ** The analog reading along the event loop *)

(** The variant of [step_preserves] for properties that need the draws of
    the events to lie in [[0, 1)]. *)
Lemma step_preserves_draws (P : World → Prop) cfg :
  (∀ mode, preserves P (switchMode mode)) →
  (∀ r now, unit_draw r → preserves P (temperatureTick cfg r now)) →
  (∀ r now, unit_draw r → preserves P (pirTick cfg r now)) →
  preserves P cycleActiveStage →
  (∀ index, preserves P (revealCard index)) →
  (∀ h, preserves P (clearInterval h)) →
  (∀ msg, preserves P (console_log msg)) →
  preserves P cleanup →
  (∀ r1 r2, unit_draw r1 → unit_draw r2 → preserves P (startRealTimeUpdates cfg r1 r2)) →
  preserves P (startStageAnimations cfg) →
  (∀ now, preserves P (updateDisplay cfg now)) →
  ∀ ev, draws_ok ev → preserves P (λ w, step cfg w ev).
Proof.
  intros Hsw Htt Hpt Hcy Hrv Hcl Hlog Hcu Hrt Hsa Hud ev Hev w Hw.
  destruct ev as [target|h r now|[|] r1 r2| |m|now|]; simpl in *.
  - assert (H : ∀ ls w', P w' → P (foldl (λ w l, runListener target l w) w' ls)).
    { induction ls as [|l ls IH]; intros w' Hw'; simpl; [exact Hw'|].
      apply IH. destruct l as [t m|a]; simpl; [|exact Hw'].
      destruct (String.eqb t target); [now apply Hsw | exact Hw']. }
    now apply H.
  - destruct (List.find _ (timers w)) as [t|]; [|exact Hw].
    assert (Hw1 : P (if repeats t then w else clearInterval h w))
      by (destruct (repeats t); [exact Hw | now apply Hcl]).
    destruct (action t); simpl;
      [now apply Htt | now apply Hpt | now apply Hcy | now apply Hrv].
  - unfold andThen. now apply Hcu, Hlog.
  - unfold andThen. destruct Hev as [Hr1 Hr2]. now apply Hsa, Hrt, Hlog.
  - now apply Hcu.
  - now apply Hsw.
  - now apply Hud.
  - now apply Hcu.
Qed.

(** A property of the analog reading alone is kept by every function that
    does not sample a temperature. *)
Lemma analog_data_property (Q : JS.number * JS.number * JS.integral → Prop) cfg :
  (∀ r w, Q (analog_data (updateTemperatureData cfg r w))) →
  (∀ mode, preserves (λ w, Q (analog_data w)) (switchMode mode)) ∧
  (∀ r now, preserves (λ w, Q (analog_data w)) (temperatureTick cfg r now)) ∧
  (∀ r now, preserves (λ w, Q (analog_data w)) (pirTick cfg r now)) ∧
  preserves (λ w, Q (analog_data w)) cycleActiveStage ∧
  (∀ index, preserves (λ w, Q (analog_data w)) (revealCard index)) ∧
  (∀ h, preserves (λ w, Q (analog_data w)) (clearInterval h)) ∧
  (∀ msg, preserves (λ w, Q (analog_data w)) (console_log msg)) ∧
  preserves (λ w, Q (analog_data w)) cleanup ∧
  (∀ r1 r2, preserves (λ w, Q (analog_data w)) (startRealTimeUpdates cfg r1 r2)) ∧
  preserves (λ w, Q (analog_data w)) (startStageAnimations cfg) ∧
  (∀ now, preserves (λ w, Q (analog_data w)) (updateDisplay cfg now)).
Proof.
  intros Hs.
  assert (Hst : ∀ f, keeps state f → preserves (λ w, Q (analog_data w)) f).
  { intros f Hf w Hw. unfold analog_data. now rewrite Hf. }
  repeat split.
  - intros mode w Hw. unfold analog_data.
    now rewrite (proj2 (proj2 (proj2 (proj2 (switchMode_frame mode))))).
  - intros r now w Hw. unfold temperatureTick.
    destruct (String.eqb (currentMode (state w)) "analog"); [|exact Hw].
    unfold andThen, analog_data. rewrite (proj1 (updateDisplay_frame cfg now)). apply Hs.
  - intros r now w Hw. unfold pirTick.
    destruct (String.eqb (currentMode (state w)) "digital"); [|exact Hw].
    unfold andThen, analog_data. rewrite (proj1 (updateDisplay_frame cfg now)). exact Hw.
  - intros w Hw. exact Hw.
  - intros index. apply Hst, revealCard_frame.
  - intros h. apply Hst, clearInterval_frame.
  - intros msg. apply Hst, console_log_frame.
  - apply Hst, cleanup_frame.
  - intros r1 r2 w Hw. exact (Hs r1 w).
  - intros w Hw. exact Hw.
  - intros now. apply Hst, updateDisplay_frame.
Qed.

Lemma startRealTimeUpdates_analog_data cfg r1 r2 w :
  analog_data (startRealTimeUpdates cfg r1 r2 w)
  = analog_data (updateTemperatureData cfg r1 w).
Proof. reflexivity. Qed.

Lemma init_analog_data cfg page r1 r2 now :
  ∃ w, analog_data (init cfg page r1 r2 now World0)
       = analog_data (updateTemperatureData cfg r1 w).
Proof.
  exists ((console_log "🚀 IoT Visualization System Initializing..."
           >>> cacheElements page >>> setupEventListeners page) World0).
  unfold init.
  rewrite (obs_andThen analog_data) by (intros w; reflexivity).
  rewrite (obs_andThen analog_data)
    by (intros w; unfold analog_data; now rewrite (proj1 (updateDisplay_frame cfg now))).
  rewrite (obs_andThen analog_data) by (intros w; reflexivity).
  apply startRealTimeUpdates_analog_data.
Qed.

(** X7: in every reachable world the stored voltage and ADC code are the
    ones that the two formulas of [updateTemperatureData] give, in the
    arithmetic of the language, from the stored temperature and from the
    stored voltage; the literal of [AppState], whose voltage 2.45 and code
    3041 do not match its temperature 22.5, is replaced before the first
    render. *)
Theorem analog_reading_stays_consistent (cfg : config) (page : document) (w : World) :
  reachable cfg page w →
  analog_consistent cfg w ∧ ¬ analog_consistent Config World0.
Proof.
  intros Hr. split.
  - revert w Hr.
    pose proof (analog_data_property
      (λ '(t, v, c), v = voltageOf cfg t ∧ c = adcValueOf cfg v) cfg
      (λ r w, conj eq_refl eq_refl)) as H.
    apply reachable_ind_step.
    + intros r1 r2 now. destruct (init_analog_data cfg page r1 r2 now) as [w0 E].
      unfold analog_consistent.
      change ((λ '(t, v, c), v = voltageOf cfg t ∧ c = adcValueOf cfg v)
              (analog_data (init cfg page r1 r2 now World0))).
      rewrite E. split; reflexivity.
    + apply step_preserves; apply H.
  - intros [_ H]. vm_compute in H. discriminate H.
Qed.

Lemma analog_reading_stays_consistent_witness :
  reachable Config (page_with 3) (init Config (page_with 3) 0.5 0.5 0 World0) ∧
  analog_consistent Config (init Config (page_with 3) 0.5 0.5 0 World0).
Proof.
  assert (Hr : reachable Config (page_with 3) (init Config (page_with 3) 0.5 0.5 0 World0))
    by (exists 0.5%Q, 0.5%Q, 0, []; reflexivity).
  split; [exact Hr|].
  exact (proj1 (analog_reading_stays_consistent Config (page_with 3) _ Hr)).
Defined.

(** X8: with the default [Config] and draws in [[0, 1)], the ADC code stored
    after [init] and after any sequence of events is in [2481, 3102], and its
    bit string has exactly 12 binary digits. *)
Theorem stored_code_stays_in_range (page : document) (r1 r2 : Q) (now : Z)
    (evs : list event) :
  unit_draw r1 → Forall draws_ok evs →
  let w := run Config (init Config page r1 r2 now World0) evs in
  (∃ code, adcValue (data (state w)) = JS.Int code ∧ 2481 ≤ code ≤ 3102) ∧
  String.length (as_binary (analogSignal Config (data (state w)))) = 12%nat ∧
  binary_digits (as_binary (analogSignal Config (data (state w)))).
Proof.
  intros Hr1 Hevs w.
  set (P := λ w : World, ∃ code, adcValue (data (state w)) = JS.Int code ∧ 2481 ≤ code ≤ 3102).
  assert (Hrange : P w).
  { subst w. revert Hevs.
    induction evs as [|ev evs IH] using rev_ind; intros Hevs.
    - destruct (init_analog_data Config page r1 r2 now) as [w0 E]. simpl.
      change ((λ '(_, _, c), ∃ code, c = JS.Int code ∧ 2481 ≤ code ≤ 3102)
              (analog_data (init Config page r1 r2 now World0))).
      rewrite E. destruct Hr1. now apply default_code_range.
    - rewrite run_snoc. apply Forall_app in Hevs as [Hevs Hev].
      rewrite Forall_singleton in Hev. specialize (IH Hevs).
      apply (step_preserves_draws P Config); try exact Hev; try exact IH; unfold P.
      + intros mode w Hw.
        now rewrite (proj2 (proj2 (proj2 (proj2 (switchMode_frame mode))))).
      + intros r now' [H0 H1] w Hw. unfold temperatureTick.
        destruct (String.eqb (currentMode (state w)) "analog"); [|exact Hw].
        unfold andThen. rewrite (proj1 (updateDisplay_frame Config now')).
        now apply default_code_range.
      + intros r now' _ w Hw. unfold pirTick.
        destruct (String.eqb (currentMode (state w)) "digital"); [|exact Hw].
        unfold andThen. now rewrite (proj1 (updateDisplay_frame Config now')).
      + intros w Hw. exact Hw.
      + intros index w Hw. exact Hw.
      + intros h w Hw. exact Hw.
      + intros msg w Hw. exact Hw.
      + intros w Hw. now rewrite (proj1 cleanup_frame).
      + intros r3 r4 [H0 H1] _ w Hw.
        assert (E : adcValue (data (state (startRealTimeUpdates Config r3 r4 w)))
                    = adcValue (sampled Config r3 w)) by reflexivity.
        rewrite E. exact (default_code_range r3 w H0 H1).
      + intros w Hw. exact Hw.
      + intros now' w Hw. now rewrite (proj1 (updateDisplay_frame Config now')). }
  split; [exact Hrange|]. destruct Hrange as (c & Ec & Hc).
  destruct (padStart_binary_width c 12) as (Hl & Hd & _); [lia | lia |].
  cbn [as_binary analogSignal ADC_BITS Config]. rewrite Ec. cbn [JS.toString2].
  split; [exact Hl | exact Hd].
Qed.

Lemma stored_code_stays_in_range_witness :
  unit_draw 0.5 ∧ Forall draws_ok [Fires 1 0.25 0; CallSwitchMode "digital"] ∧
  ∃ code,
    adcValue (data (state (run Config (init Config (page_with 3) 0.5 0.5 0 World0)
                             [Fires 1 0.25 0; CallSwitchMode "digital"]))) = JS.Int code ∧
    2481 ≤ code ≤ 3102.
Proof.
  assert (H1 : unit_draw 0.5) by (split; [vm_compute; discriminate | reflexivity]).
  assert (H2 : Forall draws_ok [Fires 1 0.25 0; CallSwitchMode "digital"]).
  { repeat constructor. vm_compute; discriminate. }
  split; [exact H1|]. split; [exact H2|].
  exact (proj1 (stored_code_stays_in_range (page_with 3) 0.5 0.5 0 _ H1 H2)).
Defined.

(** ** When the bit string has the configured width *)

Lemma binary_digits_app_inv (s1 s2 : string) :
  binary_digits (s1 +:+ s2) → binary_digits s2.
Proof.
  unfold binary_digits. rewrite string_chars_app, Forall_app. tauto.
Qed.

Lemma minus_sign_not_binary (s : string) : ¬ binary_digits ("-" +:+ s).
Proof.
  unfold binary_digits. simpl. intros H. inversion H as [|c l [Hc|Hc] _]; discriminate Hc.
Qed.

Lemma padStart_digits_inv (s : string) (width : Z) :
  binary_digits (JS.padStart s width "0") → binary_digits s.
Proof.
  unfold JS.padStart. destruct (_ <=? _)%nat; [tauto|]. apply binary_digits_app_inv.
Qed.

Lemma no_letter_is_binary (c : ascii) (s : string) :
  c ≠ "0"%char → c ≠ "1"%char → ¬ binary_digits (String c s).
Proof.
  unfold binary_digits. simpl. intros H0 H1 H.
  inversion H as [|c' l [Hc|Hc] _]; contradiction.
Qed.

(** X9: for any configuration with ADC_BITS >= 1 and any stored code, the
    bit string of the analog render has exactly ADC_BITS binary digits if
    and only if the code is an integer with 0 <= code < 2^ADC_BITS: a larger
    code gives a longer string, a negative one a string with a minus sign
    and an infinity or NaN its name, since [padStart] only adds
    characters. *)
Theorem bits_have_configured_width_iff (cfg : config) (d : app_data) :
  1 ≤ ADC_BITS cfg →
  let bits := as_binary (analogSignal cfg d) in
  (String.length bits = Z.to_nat (ADC_BITS cfg) ∧ binary_digits bits)
  ↔ ∃ code, adcValue d = JS.Int code ∧ 0 ≤ code < 2 ^ ADC_BITS cfg.
Proof.
  intros Hw bits. subst bits. cbn [as_binary analogSignal]. split.
  - intros [Hlen Hdig]. destruct (adcValue d) as [code|[|]|]; cbn [JS.toString2] in *.
    + exists code. split; [reflexivity|].
      destruct (Z.lt_ge_cases code 0) as [Hneg|Hpos].
      * exfalso. destruct code as [|p|p]; try lia.
        apply padStart_digits_inv in Hdig. simpl JS.binary in Hdig.
        now apply minus_sign_not_binary in Hdig.
      * split; [exact Hpos|]. destruct (Z.lt_ge_cases code (2 ^ ADC_BITS cfg)) as [|Hge];
          [assumption|].
        pose proof (padStart_overflow code (ADC_BITS cfg) ltac:(lia) Hge). lia.
    + exfalso. apply padStart_digits_inv in Hdig.
      now apply (minus_sign_not_binary "Infinity") in Hdig.
    + exfalso. apply padStart_digits_inv in Hdig.
      revert Hdig. apply no_letter_is_binary; discriminate.
    + exfalso. apply padStart_digits_inv in Hdig.
      revert Hdig. apply no_letter_is_binary; discriminate.
  - intros (code & -> & Hr). cbn [JS.toString2].
    destruct (padStart_binary_width code (ADC_BITS cfg) Hw Hr) as (Hl & Hd & _).
    split; assumption.
Qed.

Lemma bits_have_configured_width_iff_witness :
  1 ≤ ADC_BITS Config ∧
  ¬ (String.length
       (as_binary (analogSignal Config (set_adcValue (JS.Int 4096) (data AppState))))
     = Z.to_nat (ADC_BITS Config) ∧
     binary_digits
       (as_binary (analogSignal Config (set_adcValue (JS.Int 4096) (data AppState))))).
Proof.
  assert (H : 1 ≤ ADC_BITS Config) by (simpl; lia).
  split; [exact H|].
  intros Hb.
  apply (proj1 (bits_have_configured_width_iff Config
                  (set_adcValue (JS.Int 4096) (data AppState)) H)) in Hb.
  destruct Hb as (code & Ec & Hc). simpl in Ec. injection Ec as <-. simpl in Hc. lia.
Defined.

(** ** The motion draw *)

Lemma pir_threshold_aux cfg r w :
  pirDetected (data (state (updatePIRData cfg r w))) = true
  ↔ (r < PIR_DETECTION_CHANCE cfg)%Q.
Proof.
  change (pirDetected (data (state (updatePIRData cfg r w))))
    with (match Qcompare r (PIR_DETECTION_CHANCE cfg) with Lt => true | _ => false end).
  destruct (Qcompare r (PIR_DETECTION_CHANCE cfg)) eqn:E.
  - apply Qeq_alt in E. split; [discriminate | lra].
  - apply Qlt_alt in E. tauto.
  - apply Qgt_alt in E. split; [discriminate | lra].
Qed.

(** X10: [updatePIRData] stores "detected" exactly when the draw is below
    PIR_DETECTION_CHANCE, and writes nothing else; for draws in [[0, 1)] a
    chance of 0 or less never detects and a chance of 1 or more always
    does. *)
Theorem pir_detection_threshold (cfg : config) (r : Q) (w : World) :
  let w' := updatePIRData cfg r w in
  (pirDetected (data (state w')) = true ↔ (r < PIR_DETECTION_CHANCE cfg)%Q) ∧
  ((0 <= r)%Q → (PIR_DETECTION_CHANCE cfg <= 0)%Q → pirDetected (data (state w')) = false) ∧
  ((r < 1)%Q → (1 <= PIR_DETECTION_CHANCE cfg)%Q → pirDetected (data (state w')) = true) ∧
  analog_data w' = analog_data w ∧ pointer w' = pointer w ∧ mode_of w' = mode_of w ∧
  elems w' = elems w ∧ timers w' = timers w.
Proof.
  cbv zeta.
  assert (H : pirDetected (data (state (updatePIRData cfg r w)))
              = match Qcompare r (PIR_DETECTION_CHANCE cfg) with Lt => true | _ => false end)
    by reflexivity.
  assert (Hiff : pirDetected (data (state (updatePIRData cfg r w))) = true
                 ↔ (r < PIR_DETECTION_CHANCE cfg)%Q).
  { rewrite H. destruct (Qcompare r (PIR_DETECTION_CHANCE cfg)) eqn:E.
    - apply Qeq_alt in E. split; [discriminate | lra].
    - apply Qlt_alt in E. tauto.
    - apply Qgt_alt in E. split; [discriminate | lra]. }
  split; [exact Hiff|]. split; [|split; [|repeat split]].
  - intros H0 Hc. apply not_true_is_false. intros E. apply Hiff in E. lra.
  - intros H1 Hc. apply Hiff. lra.
Qed.

(** ** Which tick does the work *)

Lemma kinds_ok_same w w' : timers w' = timers w → kinds_ok w → kinds_ok w'.
Proof. unfold kinds_ok. now intros ->. Qed.

Lemma kinds_ok_extend w w' new :
  timers w' = (timers w ++ new)%list → Forall timer_kind_ok new → kinds_ok w → kinds_ok w'.
Proof. unfold kinds_ok. intros -> Hn Hw. apply Forall_app. now split. Qed.

Lemma kinds_ok_filter (P : timer → Prop) `{∀ t, Decision (P t)} w :
  kinds_ok w → kinds_ok (set_timers (filter P) w).
Proof.
  unfold kinds_ok. cbn. rewrite !Forall_forall. intros Hw t Ht.
  apply list_elem_of_filter in Ht as [_ Ht]. now apply Hw.
Qed.

Lemma clearIfSet_kinds_ok i : preserves kinds_ok (clearIfSet i).
Proof.
  destruct i as [h|]; simpl; [|now intros w].
  destruct (h =? 0); [now intros w|]. intros w. apply kinds_ok_filter.
Qed.

Lemma reveal_timers_kinds h k : Forall timer_kind_ok (reveal_timers h k).
Proof.
  unfold reveal_timers. apply Forall_fmap, Forall_forall. intros i _. reflexivity.
Qed.

Lemma step_kinds_ok cfg ev : preserves kinds_ok (λ w, step cfg w ev).
Proof.
  apply step_preserves.
  - intros mode w Hw. destruct (String.eqb (currentMode (state w)) mode) eqn:E;
      [now rewrite switchMode_same | rewrite switchMode_unfold by exact E].
    unfold animateModeTransition.
    match goal with |- kinds_ok (foldl fadeCard ?w0 (List.seq 0 ?k)) =>
      destruct (fade_rounds k w0) as (Ht & _);
      apply (kinds_ok_extend w0 _ _ Ht (reveal_timers_kinds _ _)) end.
    revert Hw. apply kinds_ok_same. by_mode mode.
  - intros r now w Hw. revert Hw. apply kinds_ok_same.
    unfold temperatureTick. destruct (String.eqb _ _); [|reflexivity].
    unfold andThen. now rewrite (proj1 (proj2 (proj2 (updateDisplay_frame cfg now)))).
  - intros r now w Hw. revert Hw. apply kinds_ok_same.
    unfold pirTick. destruct (String.eqb _ _); [|reflexivity].
    unfold andThen. now rewrite (proj1 (proj2 (proj2 (updateDisplay_frame cfg now)))).
  - now intros w.
  - now intros index w.
  - intros h w. apply kinds_ok_filter.
  - now intros msg w.
  - intros w Hw. unfold cleanup, andThen.
    apply clearIfSet_kinds_ok, clearIfSet_kinds_ok, clearIfSet_kinds_ok. exact Hw.
  - intros r1 r2 w.
    apply (kinds_ok_extend _ _
      [ {| handle := nextHandle w; repeats := true; delay := UPDATE_INTERVAL cfg;
           action := TemperatureTick |};
        {| handle := nextHandle w + 1; repeats := true; delay := UPDATE_INTERVAL cfg;
           action := PirTick |} ]).
    + unfold startRealTimeUpdates, andThen. cbn. now rewrite <- app_assoc.
    + repeat constructor.
  - intros w.
    apply (kinds_ok_extend _ _
      [ {| handle := nextHandle w; repeats := true; delay := ANIMATION_INTERVAL cfg;
           action := AnimationTick |} ]); [reflexivity | repeat constructor].
  - intros now w Hw. revert Hw. apply kinds_ok_same, updateDisplay_frame.
Qed.

Lemma reachable_kinds_ok cfg page w : reachable cfg page w → kinds_ok w.
Proof.
  revert w. apply reachable_ind_step; [|apply step_kinds_ok].
  intros r1 r2 now. unfold kinds_ok.
  rewrite (proj1 (init_timers cfg page r1 r2 now)). repeat constructor.
Qed.

Lemma switchMode_mode_init_aux cfg page r1 r2 now :
  currentMode (state (init cfg page r1 r2 now World0)) = "analog".
Proof.
  unfold init.
  rewrite (obs_andThen (λ w, currentMode (state w))) by (intros w; reflexivity).
  rewrite (obs_andThen (λ w, currentMode (state w)))
    by apply (keeps_of_state currentMode), updateDisplay_frame.
  rewrite (obs_andThen (λ w, currentMode (state w))) by (intros w; reflexivity).
  rewrite (obs_andThen (λ w, currentMode (state w))) by (intros w; reflexivity).
  reflexivity.
Qed.

(** X11: both data intervals keep running in either mode, and each tests
    the mode when it fires: in a reachable world a firing temperature
    interval changes nothing unless the mode is "analog", a firing PIR
    interval changes nothing unless the mode is "digital", and the interval
    of the active mode replaces its own reading only. *)
Theorem inactive_mode_tick_is_idle (cfg : config) (page : document) (w : World)
    (h : Z) (r : Q) (now : Z) (t : timer) :
  reachable cfg page w → t ∈ timers w → handle t = h →
  (action t = TemperatureTick → currentMode (state w) ≠ "analog" →
   step cfg w (Fires h r now) = w) ∧
  (action t = PirTick → currentMode (state w) ≠ "digital" →
   step cfg w (Fires h r now) = w) ∧
  (action t = TemperatureTick → currentMode (state w) = "analog" →
   data (state (step cfg w (Fires h r now))) = sampled cfg r w ∧
   timers (step cfg w (Fires h r now)) = timers w) ∧
  (action t = PirTick → currentMode (state w) = "digital" →
   analog_data (step cfg w (Fires h r now)) = analog_data w ∧
   (pirDetected (data (state (step cfg w (Fires h r now)))) = true
    ↔ (r < PIR_DETECTION_CHANCE cfg)%Q) ∧
   timers (step cfg w (Fires h r now)) = timers w).
Proof.
  intros Hr Hin Hh.
  pose proof (reachable_handles_ok cfg page w Hr) as (_ & Hnd & _).
  pose proof (reachable_kinds_ok cfg page w Hr) as Hk.
  assert (Hf : List.find (λ t, handle t =? h) (timers w) = Some t)
    by (now apply find_by_handle).
  assert (Hrep : timer_kind_ok t) by (unfold kinds_ok in Hk; rewrite Forall_forall in Hk; auto).
  unfold timer_kind_ok in Hrep.
  simpl step. rewrite Hf.
  split; [|split; [|split]]; intros Ha Hm; rewrite Ha in Hrep |- *; rewrite Hrep; simpl.
  - unfold temperatureTick.
    destruct (String.eqb_spec (currentMode (state w)) "analog"); [contradiction|reflexivity].
  - unfold pirTick.
    destruct (String.eqb_spec (currentMode (state w)) "digital"); [contradiction|reflexivity].
  - unfold temperatureTick. rewrite Hm. simpl String.eqb. unfold andThen. split.
    + now rewrite (proj1 (updateDisplay_frame cfg now)).
    + now rewrite (proj1 (proj2 (proj2 (updateDisplay_frame cfg now)))).
  - unfold pirTick. rewrite Hm. simpl String.eqb. unfold andThen. split; [|split].
    + unfold analog_data. now rewrite (proj1 (updateDisplay_frame cfg now)).
    + rewrite (proj1 (updateDisplay_frame cfg now)). apply pir_threshold_aux.
    + now rewrite (proj1 (proj2 (proj2 (updateDisplay_frame cfg now)))).
Qed.

Lemma inactive_mode_tick_is_idle_witness :
  let w := init Config (page_with 3) 0.5 0.5 0 World0 in
  reachable Config (page_with 3) w ∧
  step Config w (Fires 2 0.5 0) = w.
Proof.
  cbv zeta.
  assert (Hr : reachable Config (page_with 3) (init Config (page_with 3) 0.5 0.5 0 World0))
    by (exists 0.5%Q, 0.5%Q, 0, []; reflexivity).
  split; [exact Hr|].
  refine (proj1 (proj2 (inactive_mode_tick_is_idle Config (page_with 3) _ 2 0.5 0
    {| handle := 2; repeats := true; delay := 3000; action := PirTick |} Hr _ eq_refl))
    eq_refl _).
  - rewrite (proj1 (init_timers Config (page_with 3) 0.5 0.5 0)).
    apply list_elem_of_further, list_elem_of_here.
  - rewrite (switchMode_mode_init_aux Config (page_with 3) 0.5 0.5 0). discriminate.
Defined.

(** ** What a mode switch shows *)

Lemma text_of_on_element_other name name' f w :
  name' ≠ name → text_of name (on_element name' f w) = text_of name w.
Proof.
  intros Hne. unfold text_of. fold (node name (on_element name' f w)) (node name w).
  now rewrite node_on_element, decide_False.
Qed.

Lemma text_of_on_element_keeps name name' f w :
  (∀ e, textContent (f e) = textContent e) →
  text_of name (on_element name' f w) = text_of name w.
Proof.
  intros Hf. unfold text_of. fold (node name (on_element name' f w)) (node name w).
  rewrite node_on_element. destruct (decide (name' = name)) as [_|_]; [|reflexivity].
  destruct (node name w) as [e0|]; [|reflexivity]. cbn. now rewrite Hf.
Qed.

(** The nodes after a mode switch are those written by the five label
    updates; the transition animation touches the stage cards only. *)
Lemma switchMode_refs mode w :
  String.eqb (currentMode (state w)) mode = false →
  refs (elems (switchMode mode w))
  = refs (elems ((updateModeButtons mode >>> updateModeText mode
                  >>> updateSensorDisplay mode >>> updateProcessingDisplay mode
                  >>> updateApplicationDisplay mode) w)).
Proof.
  intros E. rewrite switchMode_unfold by exact E. unfold animateModeTransition.
  match goal with |- refs (elems (foldl fadeCard ?w0 (List.seq 0 ?k))) = _ =>
    destruct (fade_rounds k w0) as (_ & _ & _ & _ & _ & Hr & _); rewrite Hr end.
  by_mode mode.
Qed.

Ltac skip_writes H :=
  unfold updateModeButtons, updateModeText, updateSensorDisplay, updateProcessingDisplay,
    updateApplicationDisplay, setSensorIcon, setElementText, showElement, hideElement,
    andThen;
  repeat match goal with |- context [if String.eqb ?m "analog" then _ else _] =>
    destruct (String.eqb m "analog") end;
  repeat first
    [ rewrite text_of_on_element_keeps by reflexivity
    | rewrite text_of_on_element_other by (intros <-; apply H; set_solver) ];
  reflexivity.

Lemma switchMode_keeps_text (mode : string) (w : World) (name : string) :
  name ∉ ["modeText"; "sensorTitle"; "sensorDescription"; "processingDescription";
          "appAction"] →
  text_of name (switchMode mode w) = text_of name w.
Proof.
  intros Hname.
  destruct (String.eqb (currentMode (state w)) mode) eqn:E;
    [now rewrite switchMode_same|].
  transitivity (text_of name ((updateModeButtons mode >>> updateModeText mode
                  >>> updateSensorDisplay mode >>> updateProcessingDisplay mode
                  >>> updateApplicationDisplay mode) w)).
  - unfold text_of. now rewrite (switchMode_refs mode w E).
  - skip_writes Hname.
Qed.

(** X12: a mode switch does not render the reading: [switchMode] rewrites
    the mode text, the sensor title and description, the processing
    description and the application action only; every other text of the
    page, the sensor value among them, and the stored data stay those of
    the previous mode until the next tick of the new mode. *)
Theorem switchMode_does_not_render (mode : string) (w : World) (name : string) :
  name ∉ ["modeText"; "sensorTitle"; "sensorDescription"; "processingDescription";
          "appAction"] →
  text_of name (switchMode mode w) = text_of name w ∧
  data (state (switchMode mode w)) = data (state w).
Proof.
  intros Hname. split; [now apply switchMode_keeps_text | apply switchMode_frame].
Qed.

Lemma switchMode_does_not_render_witness :
  ("sensorValue" ∉ ["modeText"; "sensorTitle"; "sensorDescription"; "processingDescription";
                    "appAction"]) ∧
  text_of "sensorValue" (switchMode "digital" (init Config (page_with 3) 0.5 0.5 0 World0))
  = text_of "sensorValue" (init Config (page_with 3) 0.5 0.5 0 World0).
Proof.
  assert (H : "sensorValue" ∉ ["modeText"; "sensorTitle"; "sensorDescription";
                               "processingDescription"; "appAction"]).
  { rewrite !not_elem_of_cons. repeat split; try discriminate. apply not_elem_of_nil. }
  split; [exact H|].
  exact (proj1 (switchMode_does_not_render "digital" _ "sensorValue" H)).
Defined.

Lemma node_switchMode name mode w :
  String.eqb (currentMode (state w)) mode = false →
  node name (switchMode mode w)
  = node name ((updateModeButtons mode >>> updateModeText mode
                >>> updateSensorDisplay mode >>> updateProcessingDisplay mode
                >>> updateApplicationDisplay mode) w).
Proof. intros E. unfold node. now rewrite switchMode_refs. Qed.

Lemma effect_on_element n h :
  effect (on_element n h) (λ name, if decide (n = name) then h else id).
Proof.
  intros name w. rewrite node_on_element.
  destruct (decide (n = name)); [reflexivity|]. now destruct (node name w).
Qed.

Lemma reveal_timers_from h first count :
  reveal_timer h <$> List.seq first (S count)
  = reveal_timer h first :: (reveal_timer h <$> List.seq (S first) count).
Proof. reflexivity. Qed.

Lemma effect_andThen f1 f2 g1 g2 :
  effect f1 g1 → effect f2 g2 → effect (f1 >>> f2) (λ name, g2 name ∘ g1 name).
Proof.
  intros H1 H2 name w. unfold andThen. rewrite H2, H1.
  now destruct (node name w).
Qed.

Ltac effects :=
  repeat first [ eapply effect_andThen | eapply effect_on_element ].

Ltac on_names :=
  cbv beta;
  repeat first [ rewrite decide_True by reflexivity
               | rewrite decide_False by discriminate ];
  unfold compose, id.

(** What the five label updates of [switchMode] do to each node, read off
    their composition. *)
Lemma labels_effect (mode : string) :
  let analog := String.eqb mode "analog" in
  ∃ g, effect (updateModeButtons mode >>> updateModeText mode
               >>> updateSensorDisplay mode >>> updateProcessingDisplay mode
               >>> updateApplicationDisplay mode) g ∧
    (∀ e, "active" ∈ classList (g "analogBtn" e) ↔ analog = true) ∧
    (∀ e, "active" ∈ classList (g "digitalBtn" e) ↔ analog = false) ∧
    (∀ e, style (g "analogProcessing" e) !! "display"
          = Some (if analog then "grid" else "none")) ∧
    (∀ e, style (g "digitalProcessing" e) !! "display"
          = Some (if analog then "none" else "grid")) ∧
    (∀ e, textContent (g "modeText" e)
          = if analog then "Capteur Analogique" else "Capteur Numérique") ∧
    (∀ e, textContent (g "sensorTitle" e)
          = if analog then "Capteur Analogique" else "Capteur PIR") ∧
    (∀ e, textContent (g "processingDescription" e)
          = if analog then "ADC + Codage" else "Codage Direct") ∧
    (∀ e, textContent (g "appAction" e) = if analog then "Chauffage" else "Éclairage") ∧
    (∀ e, innerHTML (g "sensorIconWrapper" e)
          = Some (if analog then AnalogSensorIcon else DigitalSensorIcon)).
Proof.
  cbv zeta.
  unfold updateModeButtons, updateModeText, updateSensorDisplay, updateProcessingDisplay,
    updateApplicationDisplay, setSensorIcon, setElementText, showElement, hideElement.
  destruct (String.eqb mode "analog"); eexists; (split; [effects|]).
  all: repeat match goal with |- _ ∧ _ => split end; intros e; on_names; simpl.
  all: try (rewrite lookup_insert_eq; reflexivity).
  all: try (destruct (decide _) as [->|]; reflexivity).
  all: try reflexivity.
  all: split; try discriminate; try (intros _; reflexivity).
  all: try (intros _; apply elem_of_union_r, elem_of_singleton_2; reflexivity).
  all: intros Hin; apply elem_of_difference in Hin as [_ Hn]; exfalso;
    apply Hn, elem_of_singleton_2; reflexivity.
Qed.

(** X13: after a switch to another mode the two mode buttons are never
    both marked: the analog button carries the class "active" exactly when
    the new mode is "analog", the digital button exactly when it is not. *)
Theorem switchMode_marks_one_button (mode : string) (w : World) :
  mode ≠ currentMode (state w) →
  (∀ e, node "analogBtn" (switchMode mode w) = Some e →
        ("active" ∈ classList e ↔ mode = "analog")) ∧
  (∀ e, node "digitalBtn" (switchMode mode w) = Some e →
        ("active" ∈ classList e ↔ mode ≠ "analog")).
Proof.
  intros Hne.
  assert (E : String.eqb (currentMode (state w)) mode = false)
    by (apply String.eqb_neq; congruence).
  destruct (labels_effect mode) as (g & Hg & Ha & Hd & _). cbv zeta in Ha, Hd.
  rewrite !(node_switchMode _ mode w E), !Hg. split; intros e He.
  - destruct (node "analogBtn" w) as [e0|]; [|discriminate He].
    injection He as <-. rewrite Ha. apply String.eqb_eq.
  - destruct (node "digitalBtn" w) as [e0|]; [|discriminate He].
    injection He as <-. rewrite Hd. apply String.eqb_neq.
Qed.

Lemma switchMode_marks_one_button_witness :
  "digital" ≠ currentMode (state (init Config (page_with 3) 0.5 0.5 0 World0)) ∧
  ∀ e, node "analogBtn" (switchMode "digital" (init Config (page_with 3) 0.5 0.5 0 World0))
       = Some e → "active" ∉ classList e.
Proof.
  assert (H : "digital" ≠ currentMode
                (state (init Config (page_with 3) 0.5 0.5 0 World0)))
    by (rewrite switchMode_mode_init_aux; discriminate).
  split; [exact H|].
  intros e He Hin.
  apply (proj1 (switchMode_marks_one_button "digital" _ H) e He) in Hin. discriminate Hin.
Defined.

(** X14: after a switch to another mode the labels and the panels agree
    with the new mode: for "analog" the analog panel is shown as a grid and
    the digital one hidden, the mode text is "Capteur Analogique" and the
    action "Chauffage"; for any other mode the digital panel is shown, the
    analog one hidden, and the texts are "Capteur Numérique", "Capteur PIR"
    and "Éclairage". *)
Theorem switchMode_shows_one_panel (mode : string) (w : World) :
  mode ≠ currentMode (state w) →
  let w' := switchMode mode w in
  let analog := String.eqb mode "analog" in
  (∀ e, node "analogProcessing" w' = Some e →
        style e !! "display" = Some (if analog then "grid" else "none")) ∧
  (∀ e, node "digitalProcessing" w' = Some e →
        style e !! "display" = Some (if analog then "none" else "grid")) ∧
  text_of "modeText" w'
    = (λ _, if analog then "Capteur Analogique" else "Capteur Numérique")
      <$> text_of "modeText" w ∧
  text_of "sensorTitle" w'
    = (λ _, if analog then "Capteur Analogique" else "Capteur PIR")
      <$> text_of "sensorTitle" w ∧
  text_of "processingDescription" w'
    = (λ _, if analog then "ADC + Codage" else "Codage Direct")
      <$> text_of "processingDescription" w ∧
  text_of "appAction" w'
    = (λ _, if analog then "Chauffage" else "Éclairage") <$> text_of "appAction" w ∧
  (∀ e, node "sensorIconWrapper" w' = Some e →
        innerHTML e = Some (if analog then AnalogSensorIcon else DigitalSensorIcon)).
Proof.
  intros Hne w' analog. subst w' analog.
  assert (E : String.eqb (currentMode (state w)) mode = false)
    by (apply String.eqb_neq; congruence).
  destruct (labels_effect mode) as (g & Hg & _ & _ & Hap & Hdp & Hmt & Hst & Hpd & Haa & Hic).
  cbv zeta in Hap, Hdp, Hmt, Hst, Hpd, Haa, Hic.
  assert (Ht : ∀ name, text_of name (switchMode mode w)
                       = (textContent ∘ g name) <$> node name w).
  { intros name. unfold text_of. fold (node name (switchMode mode w)).
    rewrite (node_switchMode _ mode w E), Hg. now destruct (node name w). }
  assert (Hn : ∀ name, text_of name w = textContent <$> node name w) by reflexivity.
  rewrite !Ht, !Hn, !(node_switchMode _ mode w E), !Hg.
  split; [|split; [|split; [|split; [|split; [|split]]]]].
  - intros e He. destruct (node "analogProcessing" w); [|discriminate He].
    injection He as <-. apply Hap.
  - intros e He. destruct (node "digitalProcessing" w); [|discriminate He].
    injection He as <-. apply Hdp.
  - destruct (node "modeText" w); [|reflexivity]. simpl. now rewrite Hmt.
  - destruct (node "sensorTitle" w); [|reflexivity]. simpl. now rewrite Hst.
  - destruct (node "processingDescription" w); [|reflexivity]. simpl. now rewrite Hpd.
  - destruct (node "appAction" w); [|reflexivity]. simpl. now rewrite Haa.
  - intros e He. destruct (node "sensorIconWrapper" w); [|discriminate He].
    injection He as <-. apply Hic.
Qed.

Lemma switchMode_shows_one_panel_witness :
  "digital" ≠ currentMode (state (init Config (page_with 3) 0.5 0.5 0 World0)) ∧
  text_of "appAction" (switchMode "digital" (init Config (page_with 3) 0.5 0.5 0 World0))
  = (λ _, "Éclairage") <$> text_of "appAction" (init Config (page_with 3) 0.5 0.5 0 World0).
Proof.
  assert (H : "digital" ≠ currentMode
                (state (init Config (page_with 3) 0.5 0.5 0 World0)))
    by (rewrite switchMode_mode_init_aux; discriminate).
  split; [exact H|].
  exact (proj1 (proj2 (proj2 (proj2 (proj2 (proj2
    (switchMode_shows_one_panel "digital" _ H))))))).
Defined.

(** ** The highlighted stage card *)

Lemma updateStageCardState_styles (c : element) :
  highlighted (updateStageCardState true c) ∧ plain (updateStageCardState false c).
Proof.
  unfold highlighted, plain, updateStageCardState, compose, set_style. simpl.
  repeat split; repeat first [ rewrite lookup_insert_eq | rewrite lookup_insert_ne by discriminate ];
    reflexivity.
Qed.

Lemma card_cycleActiveStage i w :
  card i (cycleActiveStage w)
  = updateStageCardState
      (bool_decide (Some (Z.of_nat i) = pointer (cycleActiveStage w))) <$> card i w.
Proof. unfold card, cycleActiveStage. cbn. rewrite list_lookup_imap. reflexivity. Qed.

(** X16: after an animation tick every stage card carries one of the two
    styles, and the highlighted one is exactly the card whose index is the
    new pointer; with the pointer in range that card exists, so exactly one
    card is highlighted; when the pointer is NaN none is. *)
Theorem tick_highlights_the_pointer_card (w : World) (i : nat) (c : element) :
  card i (cycleActiveStage w) = Some c →
  (Some (Z.of_nat i) = pointer (cycleActiveStage w) → highlighted c) ∧
  (Some (Z.of_nat i) ≠ pointer (cycleActiveStage w) → plain c) ∧
  (highlighted c ↔ Some (Z.of_nat i) = pointer (cycleActiveStage w)) ∧
  (stage_ok w → ∃ j c', pointer (cycleActiveStage w) = Some (Z.of_nat j) ∧
                        card j (cycleActiveStage w) = Some c' ∧ highlighted c') ∧
  (pointer (cycleActiveStage w) = None → plain c).
Proof.
  intros Hc. rewrite card_cycleActiveStage in Hc.
  destruct (card i w) as [c0|] eqn:Ei; [|discriminate Hc]. injection Hc as <-.
  pose proof (updateStageCardState_styles c0) as [Hhi Hpl].
  assert (H1 : Some (Z.of_nat i) = pointer (cycleActiveStage w) →
               highlighted (updateStageCardState
                 (bool_decide (Some (Z.of_nat i) = pointer (cycleActiveStage w))) c0))
    by (intros E; now rewrite bool_decide_eq_true_2).
  assert (H2 : Some (Z.of_nat i) ≠ pointer (cycleActiveStage w) →
               plain (updateStageCardState
                 (bool_decide (Some (Z.of_nat i) = pointer (cycleActiveStage w))) c0))
    by (intros E; now rewrite bool_decide_eq_false_2).
  split; [exact H1|]. split; [exact H2|]. split; [|split].
  - split; [|exact H1]. intros Hh.
    destruct (decide (Some (Z.of_nat i) = pointer (cycleActiveStage w))) as [|Hne];
      [assumption|].
    destruct (H2 Hne) as (Hb & _). destruct Hh as (Hb' & _). congruence.
  - intros Hok. pose proof (cycleActiveStage_stage_ok w Hok) as (p & Hp & Hr).
    rewrite (proj2 (proj2 (proj2 (proj2 cycleActiveStage_frame)))) in Hr.
    exists (Z.to_nat p).
    assert (Hlt : (Z.to_nat p < length (stageCards (elems w)))%nat)
      by (unfold stageCount in Hr; lia).
    destruct (lookup_lt_is_Some_2 _ _ Hlt) as [cj Hcj].
    exists (updateStageCardState true cj). rewrite Z2Nat.id by lia. split; [exact Hp|].
    split; [|apply updateStageCardState_styles].
    rewrite card_cycleActiveStage. unfold card. rewrite Hcj. simpl. f_equal.
    rewrite bool_decide_eq_true_2; [reflexivity|]. rewrite Hp, Z2Nat.id by lia. reflexivity.
  - intros Hn. apply H2. rewrite Hn. discriminate.
Qed.

Lemma tick_highlights_the_pointer_card_witness :
  ∃ c, card 1 (cycleActiveStage (init Config (page_with 3) 0.5 0.5 0 World0)) = Some c ∧
       highlighted c.
Proof.
  assert (H : card 1 (cycleActiveStage (init Config (page_with 3) 0.5 0.5 0 World0))
              = Some (updateStageCardState true blank)) by (vm_compute; reflexivity).
  exists (updateStageCardState true blank). split; [exact H|].
  apply (proj1 (tick_highlights_the_pointer_card _ 1 _ H)).
  vm_compute. reflexivity.
Defined.

(** ** The transition animation *)

Lemma run_handles_ok cfg evs : ∀ w, handles_ok w → handles_ok (run cfg w evs).
Proof.
  induction evs as [|ev evs IH]; intros w Hw; [exact Hw|].
  simpl. apply IH. now apply step_handles_ok.
Qed.

Lemma reveal_events_S h k r now :
  reveal_events h (S k) r now
  = (reveal_events h k r now ++ [Fires (h + Z.of_nat k) r now])%list.
Proof. unfold reveal_events. now rewrite seq_S, fmap_app. Qed.

(** The world after the first [j] reveals of a transition over [n] cards
    have fired. *)
Lemma reveal_rounds cfg (w : World) (r : Q) (now : Z) (j : nat) :
  handles_ok w → (j ≤ length (stageCards (elems w)))%nat →
  let n := length (stageCards (elems w)) in
  let wj := run cfg (animateModeTransition w) (reveal_events (nextHandle w) j r now) in
  timers wj = (timers w ++ (reveal_timer (nextHandle w) <$> List.seq j (n - j)))%list ∧
  state wj = state w ∧ refs (elems wj) = refs (elems w) ∧
  console wj = console w ∧ listeners wj = listeners w ∧
  ∀ i, card i wj
       = (if decide (i < j)%nat
          then (set_style "transform" "scale(1)" ∘ set_style "opacity" "1"
                ∘ set_style "transition" "all 0.5s ease")
               ∘ (set_style "transform" "scale(0.95)" ∘ set_style "opacity" "0")
          else set_style "transform" "scale(0.95)" ∘ set_style "opacity" "0")
         <$> card i w.
Proof.
  intros Hok. induction j as [|j IH]; intros Hj n wj; subst n wj.
  - unfold reveal_events. simpl run. unfold animateModeTransition.
    destruct (fade_rounds (length (stageCards (elems w))) w)
      as (Ht & _ & Hs & Hl & Hc & Hr & Hcards).
    rewrite Nat.sub_0_r. split; [exact Ht|]. repeat split; try assumption.
    intros i. rewrite Hcards. destruct (decide (i < 0)%nat) as [|_]; [lia|].
    destruct (card i w) as [c|] eqn:Ei; [|now destruct (decide _)].
    rewrite decide_True; [reflexivity|].
    apply lookup_lt_is_Some. unfold card in Ei. now rewrite Ei.
  - destruct (IH ltac:(lia)) as (Ht & Hs & Hr & Hc & Hl & Hcards).
    rewrite reveal_events_S, run_snoc.
    set (wj := run cfg (animateModeTransition w) (reveal_events (nextHandle w) j r now)) in *.
    assert (Hokj : handles_ok wj)
      by (apply run_handles_ok, animateModeTransition_handles_ok, Hok).
    replace (length (stageCards (elems w)) - j)%nat
      with (S (length (stageCards (elems w)) - S j)) in Ht by lia.
    rewrite reveal_timers_from in Ht.
    assert (Hf : List.find (λ t, handle t =? nextHandle w + Z.of_nat j) (timers wj)
                 = Some (reveal_timer (nextHandle w) j)).
    { apply find_by_handle; [apply Hokj|]. split; [|reflexivity].
      rewrite Ht. apply elem_of_app. right. apply list_elem_of_here. }
    simpl step. rewrite Hf. simpl repeats. simpl action. simpl runCallback.
    destruct Hok as (H1 & Hnd & Hall).
    split; [|split; [|split; [|split; [|split]]]]; try assumption.
    + change (timers (revealCard j (clearInterval (nextHandle w + Z.of_nat j) wj)))
        with (filter (λ t, handle t ≠ nextHandle w + Z.of_nat j) (timers wj)).
      rewrite Ht, filter_app. f_equal.
      * apply (filter_other_handles _ (nextHandle w)); [exact Hall | lia].
      * rewrite filter_cons_False by (simpl; lia).
        apply filter_keeps_all, Forall_fmap, Forall_forall.
        intros i Hi. apply elem_of_seq in Hi. simpl. lia.
    + intros i. unfold card, revealCard. cbn.
      destruct (decide (j = i)) as [->|Hne].
      * rewrite list_lookup_alter_eq. fold (card i wj). rewrite Hcards.
        rewrite decide_False, decide_True by lia. fold (card i w).
        now destruct (card i w).
      * rewrite list_lookup_alter_ne by exact Hne. fold (card i wj). rewrite Hcards.
        fold (card i w).
        destruct (decide (i < j)%nat), (decide (i < S j)%nat); try lia; reflexivity.
Qed.

(** X15: a mode transition completes: [animateModeTransition] fades every
    stage card and queues one one-shot timeout per card, with the delay
    100 ms times the card's index; once these timeouts have fired, every
    card has opacity 1 and scale 1 again, the timer table is the one from
    before the transition, and nothing else has changed. *)
Theorem mode_transition_completes (cfg : config) (w : World) (r : Q) (now : Z) :
  handles_ok w →
  let n := length (stageCards (elems w)) in
  let faded := animateModeTransition w in
  let revealed := run cfg faded (reveal_events (nextHandle w) n r now) in
  timers faded = (timers w ++ reveal_timers (nextHandle w) n)%list ∧
  (∀ i c, card i faded = Some c →
     style c !! "opacity" = Some "0" ∧ style c !! "transform" = Some "scale(0.95)") ∧
  timers revealed = timers w ∧
  (∀ i c, card i revealed = Some c →
     style c !! "opacity" = Some "1" ∧ style c !! "transform" = Some "scale(1)" ∧
     style c !! "transition" = Some "all 0.5s ease") ∧
  length (stageCards (elems revealed)) = n ∧
  state revealed = state w ∧ refs (elems revealed) = refs (elems w) ∧
  console revealed = console w.
Proof.
  intros Hok n faded revealed.
  destruct (reveal_rounds cfg w r now 0 Hok ltac:(lia)) as (Ht0 & _ & _ & _ & _ & Hc0).
  destruct (reveal_rounds cfg w r now n Hok ltac:(lia)) as (Ht & Hs & Hr & Hc & Hl & Hcards).
  fold n in Ht0, Ht. fold revealed in Ht, Hs, Hr, Hc, Hl, Hcards.
  change (run cfg (animateModeTransition w) (reveal_events (nextHandle w) 0 r now))
    with faded in Ht0, Hc0.
  rewrite Nat.sub_0_r in Ht0. rewrite Nat.sub_diag in Ht. simpl in Ht. rewrite app_nil_r in Ht.
  split; [exact Ht0|]. split; [|split; [exact Ht|split; [|split]]].
  - intros i c Hi. rewrite Hc0 in Hi. destruct (decide (i < 0)%nat); [lia|].
    destruct (card i w) as [c0|]; [|discriminate Hi]. injection Hi as <-.
    unfold compose, set_style. simpl.
    rewrite lookup_insert_ne by discriminate. rewrite !lookup_insert_eq. now split.
  - intros i c Hi. rewrite Hcards in Hi.
    destruct (card i w) as [c0|] eqn:Ei; [|now destruct (decide _)].
    assert (Hlt : (i < n)%nat) by (apply lookup_lt_is_Some; unfold card in Ei; now rewrite Ei).
    rewrite decide_True in Hi by exact Hlt. injection Hi as <-.
    unfold compose, set_style. simpl.
    rewrite lookup_insert_eq.
    rewrite lookup_insert_ne, lookup_insert_eq by discriminate.
    rewrite !(lookup_insert_ne _ "transform") by discriminate.
    rewrite (lookup_insert_ne _ "opacity") by discriminate.
    rewrite lookup_insert_eq. repeat split.
  - apply Nat.le_antisymm.
    + apply Nat.nlt_ge. intros Hlt.
      destruct (lookup_lt_is_Some_2 _ _ Hlt) as [c Hcn].
      change (card n revealed = Some c) in Hcn. rewrite Hcards in Hcn.
      assert (Hnone : card n w = None) by (apply lookup_ge_None_2; lia).
      rewrite Hnone in Hcn. now destruct (decide _).
    + apply Nat.nlt_ge. intros Hlt.
      assert (Hi : (length (stageCards (elems revealed)) < n)%nat) by exact Hlt.
      destruct (lookup_lt_is_Some_2 (stageCards (elems w)) _ Hi) as [c Hcn].
      assert (Hnone : card (length (stageCards (elems revealed))) revealed = None)
        by (apply lookup_ge_None_2; lia).
      rewrite Hcards in Hnone. unfold card in Hnone at 1. rewrite Hcn in Hnone.
      now destruct (decide _).
  - repeat split; assumption.
Qed.

Lemma mode_transition_completes_witness :
  handles_ok (init Config (page_with 3) 0.5 0.5 0 World0) ∧
  length (stageCards (elems (init Config (page_with 3) 0.5 0.5 0 World0))) = 3%nat ∧
  timers (animateModeTransition (init Config (page_with 3) 0.5 0.5 0 World0))
  = (started_timers Config 1 ++ reveal_timers 4 3)%list ∧
  (∃ c, card 1 (animateModeTransition (init Config (page_with 3) 0.5 0.5 0 World0)) = Some c ∧
        style c !! "opacity" = Some "0" ∧ style c !! "transform" = Some "scale(0.95)") ∧
  (∃ c, card 1 (run Config (animateModeTransition (init Config (page_with 3) 0.5 0.5 0 World0))
                  (reveal_events 4 3 0.5 0)) = Some c ∧
        style c !! "opacity" = Some "1" ∧ style c !! "transform" = Some "scale(1)") ∧
  timers (run Config (animateModeTransition (init Config (page_with 3) 0.5 0.5 0 World0))
            (reveal_events 4 3 0.5 0))
  = started_timers Config 1.
Proof.
  pose proof (init_handles_ok Config (page_with 3) 0.5 0.5 0) as H.
  destruct (init_timers Config (page_with 3) 0.5 0.5 0) as (Ht & Hn & _).
  cbv zeta in Ht, Hn.
  assert (Hl : length (stageCards (elems (init Config (page_with 3) 0.5 0.5 0 World0)))
               = 3%nat) by (vm_compute; reflexivity).
  pose proof (mode_transition_completes Config _ 0.5 0 H) as T. cbv zeta in T.
  rewrite Ht, Hn, Hl in T. destruct T as (T1 & T2 & T3 & T4 & _).
  split; [exact H|]. split; [exact Hl|]. split; [exact T1|]. split; [|split; [|exact T3]].
  - assert (E : is_Some (card 1 (animateModeTransition
                                   (init Config (page_with 3) 0.5 0.5 0 World0))))
      by (vm_compute; eauto).
    destruct E as [c E]. exists c. split; [exact E|]. exact (T2 1%nat c E).
  - assert (E : is_Some (card 1 (run Config (animateModeTransition
                                     (init Config (page_with 3) 0.5 0.5 0 World0))
                                   (reveal_events 4 3 0.5 0))))
      by (vm_compute; eauto).
    destruct E as [c E]. exists c. split; [exact E|].
    destruct (T4 1%nat c E) as (O & S & _). split; [exact O | exact S].
Defined.

(** ** Clicks *)

Lemma setupEventListeners_listeners page w :
  listeners (setupEventListeners page w)
  = (listeners w
     ++ (match node "analogBtn" w with
         | Some _ => [ClickSwitches "analogBtn" "analog"]
         | None => []
         end)
     ++ (match node "digitalBtn" w with
         | Some _ => [ClickSwitches "digitalBtn" "digital"]
         | None => []
         end)
     ++ map ClickScrolls (List.seq 0 (anchors page)))%list.
Proof. reflexivity. Qed.

Lemma init_listeners cfg page r1 r2 now :
  listeners (init cfg page r1 r2 now World0) = page_listeners page.
Proof.
  unfold init.
  rewrite obs_andThen by apply console_log_frame.
  rewrite obs_andThen by apply updateDisplay_frame.
  rewrite obs_andThen by apply startStageAnimations_frame.
  rewrite obs_andThen by apply startRealTimeUpdates_frame.
  unfold andThen. rewrite setupEventListeners_listeners.
  rewrite !(proj1 (cacheElements_lookup_aux page _ _)).
  rewrite decide_True by apply list_elem_of_here.
  rewrite decide_True by apply list_elem_of_further, list_elem_of_here.
  reflexivity.
Qed.

Lemma reachable_listeners cfg page w :
  reachable cfg page w → listeners w = page_listeners page.
Proof.
  revert w. apply reachable_ind_step.
  - apply init_listeners.
  - intros ev w Hw. now rewrite (proj1 (step_frame cfg ev)).
Qed.

Lemma click_scrolls target (anchors : list nat) (w : World) :
  foldl (λ w l, runListener target l w) w (map ClickScrolls anchors) = w.
Proof. induction anchors as [|a l IH]; simpl; [reflexivity | exact IH]. Qed.

(** X17: in a reachable world a click on a mode button of the page runs
    [switchMode] with that button's mode; a click on a button that the page
    does not have, or on any other node, changes nothing. *)
Theorem click_runs_switchMode (cfg : config) (page : document) (w : World) :
  reachable cfg page w →
  (is_Some (byId page !! "analogBtn") →
   step cfg w (Click "analogBtn") = switchMode "analog" w) ∧
  (is_Some (byId page !! "digitalBtn") →
   step cfg w (Click "digitalBtn") = switchMode "digital" w) ∧
  (byId page !! "analogBtn" = None → step cfg w (Click "analogBtn") = w) ∧
  (byId page !! "digitalBtn" = None → step cfg w (Click "digitalBtn") = w) ∧
  (∀ target, target ≠ "analogBtn" → target ≠ "digitalBtn" →
             step cfg w (Click target) = w).
Proof.
  intros Hr. pose proof (reachable_listeners cfg page w Hr) as Hl.
  unfold step. rewrite Hl. unfold page_listeners.
  split; [|split; [|split; [|split]]].
  - intros [e He]. rewrite He, !foldl_app, click_scrolls.
    destruct (byId page !! "digitalBtn"); reflexivity.
  - intros [e He]. rewrite He, !foldl_app, click_scrolls.
    destruct (byId page !! "analogBtn"); reflexivity.
  - intros He. rewrite He, !foldl_app, click_scrolls.
    destruct (byId page !! "digitalBtn"); reflexivity.
  - intros He. rewrite He, !foldl_app, click_scrolls.
    destruct (byId page !! "analogBtn"); reflexivity.
  - intros target Ha Hd. rewrite !foldl_app, click_scrolls.
    assert (Ea : String.eqb "analogBtn" target = false) by (apply String.eqb_neq; congruence).
    assert (Ed : String.eqb "digitalBtn" target = false) by (apply String.eqb_neq; congruence).
    destruct (byId page !! "analogBtn"), (byId page !! "digitalBtn");
      cbn [foldl runListener]; rewrite ?Ea, ?Ed; reflexivity.
Qed.

Lemma click_runs_switchMode_witness :
  reachable Config (page_with 3) (init Config (page_with 3) 0.5 0.5 0 World0) ∧
  step Config (init Config (page_with 3) 0.5 0.5 0 World0) (Click "digitalBtn")
  = switchMode "digital" (init Config (page_with 3) 0.5 0.5 0 World0).
Proof.
  assert (Hr : reachable Config (page_with 3) (init Config (page_with 3) 0.5 0.5 0 World0))
    by (exists 0.5%Q, 0.5%Q, 0, []; reflexivity).
  split; [exact Hr|].
  apply (proj1 (proj2 (click_runs_switchMode Config (page_with 3) _ Hr))).
  vm_compute. eexists. reflexivity.
Defined.

(** ** The first tick after a switch *)

Lemma sensorValue_not_a_label :
  "sensorValue" ∉ ["modeText"; "sensorTitle"; "sensorDescription";
                   "processingDescription"; "appAction"].
Proof. rewrite !not_elem_of_cons. repeat split; try discriminate. apply not_elem_of_nil. Qed.

Lemma binaryValue_not_a_label :
  "binaryValue" ∉ ["modeText"; "sensorTitle"; "sensorDescription";
                   "processingDescription"; "appAction"].
Proof. rewrite !not_elem_of_cons. repeat split; try discriminate. apply not_elem_of_nil. Qed.

(** X18: the reading of the new mode appears with the first tick of that
    mode, not with the switch: after a switch to "digital" the sensor value
    still shows the old text, and the next PIR tick writes "Mouvement" or
    "Aucun" according to the draw; after a switch to "analog" the next
    temperature tick writes the bits of the new code. *)
Theorem first_tick_after_switch_renders (cfg : config) (w : World) (r : Q) (now : Z) :
  (let w1 := switchMode "digital" w in
   let w2 := pirTick cfg r now w1 in
   text_of "sensorValue" w1 = text_of "sensorValue" w ∧
   (pirDetected (data (state w2)) = true ↔ (r < PIR_DETECTION_CHANCE cfg)%Q) ∧
   text_of "sensorValue" w2
     = (λ _, if pirDetected (data (state w2)) then "Mouvement" else "Aucun")
       <$> text_of "sensorValue" w) ∧
  (let w1 := switchMode "analog" w in
   let w2 := temperatureTick cfg r now w1 in
   text_of "binaryValue" w1 = text_of "binaryValue" w ∧
   data (state w2) = sampled cfg r w1 ∧
   text_of "binaryValue" w2
     = (λ _, as_binary (analogSignal cfg (sampled cfg r w1))) <$> text_of "binaryValue" w).
Proof.
  split; cbv zeta.
  - pose proof (switchMode_keeps_text "digital" w _ sensorValue_not_a_label) as Hk.
    split; [exact Hk|].
    assert (Hm : currentMode (state (switchMode "digital" w)) = "digital")
      by apply switchMode_mode.
    unfold pirTick. rewrite Hm. simpl String.eqb. unfold andThen, updateDisplay.
    change (currentMode (state (updatePIRData cfg r (switchMode "digital" w))))
      with (currentMode (state (switchMode "digital" w))).
    rewrite Hm. simpl String.eqb.
    rewrite (proj1 updateDigitalDisplay_frame). split; [apply pir_threshold_aux|].
    rewrite (proj1 (updateDigitalDisplay_texts _)).
    change (text_of "sensorValue" (updatePIRData cfg r (switchMode "digital" w)))
      with (text_of "sensorValue" (switchMode "digital" w)).
    rewrite Hk. rewrite (proj1 updateDigitalDisplay_frame). reflexivity.
  - pose proof (switchMode_keeps_text "analog" w _ binaryValue_not_a_label) as Hk.
    split; [exact Hk|].
    assert (Hm : currentMode (state (switchMode "analog" w)) = "analog")
      by apply switchMode_mode.
    unfold temperatureTick. rewrite Hm. simpl String.eqb. unfold andThen, updateDisplay.
    change (currentMode (state (updateTemperatureData cfg r (switchMode "analog" w))))
      with (currentMode (state (switchMode "analog" w))).
    rewrite Hm. simpl String.eqb.
    rewrite (proj1 (updateAnalogDisplay_frame cfg now)). split; [reflexivity|].
    rewrite (proj2 (proj2 (updateAnalogDisplay_texts cfg now _))).
    change (text_of "binaryValue" (updateTemperatureData cfg r (switchMode "analog" w)))
      with (text_of "binaryValue" (switchMode "analog" w)).
    now rewrite Hk.
Qed.

(** ** What cleanup cancels *)

Lemma clearIfSet_timers i w :
  timers (clearIfSet i w) = filter (λ t, ¬ stored_in i t) (timers w).
Proof.
  destruct i as [h|]; simpl.
  - destruct (Z.eqb_spec h 0) as [->|Hh].
    + symmetry. apply filter_keeps_all, Forall_forall. intros t _ [Hn _]. now apply Hn.
    + cbn. apply list_filter_iff. intros t. split.
      * intros Hne [_ He]. contradiction.
      * intros Hns He. apply Hns. now split.
  - symmetry. apply filter_keeps_all, Forall_forall. intros t _ H. exact H.
Qed.

Lemma cleanup_timers_filter w :
  timers (cleanup w) = filter (λ t, ¬ cancelled_by_cleanup w t) (timers w).
Proof.
  unfold cleanup, andThen. rewrite !clearIfSet_timers.
  change (timers (console_log "🧹 Cleaning up..." w)) with (timers w).
  rewrite !list_filter_filter. apply list_filter_iff. intros t.
  unfold cancelled_by_cleanup. tauto.
Qed.

(** X19: [cleanup] cancels exactly the timers registered under the
    non-zero handles stored in [AppState.updateIntervals] and keeps every
    other timer; it leaves the stored handles in place, so a second cleanup
    cancels nothing more, and on an engine that never started it only
    writes its console line. *)
Theorem cleanup_cancels_stored_handles (w : World) :
  (∀ t, t ∈ timers (cleanup w) ↔ t ∈ timers w ∧ ¬ cancelled_by_cleanup w t) ∧
  timers (cleanup (cleanup w)) = timers (cleanup w) ∧
  state (cleanup w) = state w ∧ elems (cleanup w) = elems w ∧
  listeners (cleanup w) = listeners w ∧
  console (cleanup w) = (console w ++ ["🧹 Cleaning up..."])%list ∧
  (updateIntervals (state w)
   = {| ui_temperature := None; ui_pir := None; ui_animation := None |} →
   timers (cleanup w) = timers w).
Proof.
  split; [|split; [|split; [|split; [|split; [|split]]]]].
  - intros t. rewrite cleanup_timers_filter, list_elem_of_filter. tauto.
  - rewrite (cleanup_timers_filter (cleanup w)), (cleanup_timers_filter w).
    rewrite list_filter_filter. apply list_filter_iff. intros t.
    unfold cancelled_by_cleanup. rewrite (proj1 cleanup_frame). tauto.
  - apply cleanup_frame.
  - apply cleanup_frame.
  - apply cleanup_frame.
  - unfold cleanup, andThen. rewrite !(proj2 (proj2 (proj2 (clearIfSet_frame _)))).
    reflexivity.
  - intros Hu. rewrite cleanup_timers_filter. apply filter_keeps_all, Forall_forall.
    intros t _. unfold cancelled_by_cleanup. rewrite Hu. simpl. tauto.
Qed.

Lemma find_none_of_all {A : Type} (f : A → bool) (l : list A) :
  (∀ x, x ∈ l → f x = false) → List.find f l = None.
Proof.
  induction l as [|a l IH]; intros H; simpl; [reflexivity|].
  rewrite (H a) by apply list_elem_of_here. apply IH.
  intros x Hx. apply H. now apply list_elem_of_further.
Qed.

(** X20: an interval that [cleanup] has cancelled does not fire any more:
    after [cleanup], an event for a non-zero handle stored in
    [AppState.updateIntervals] finds no timer and leaves the world as it
    is. *)
Theorem cancelled_interval_never_fires (cfg : config) (w : World) (h : Z) (r : Q) (now : Z) :
  h ≠ 0 →
  Some h = ui_temperature (updateIntervals (state w)) ∨
  Some h = ui_pir (updateIntervals (state w)) ∨
  Some h = ui_animation (updateIntervals (state w)) →
  List.find (λ t, handle t =? h) (timers (cleanup w)) = None ∧
  step cfg (cleanup w) (Fires h r now) = cleanup w.
Proof.
  intros Hh Hs.
  assert (Hf : List.find (λ t, handle t =? h) (timers (cleanup w)) = None).
  { apply find_none_of_all. intros t Ht.
    rewrite cleanup_timers_filter in Ht. apply list_elem_of_filter in Ht as [Hn _].
    apply Z.eqb_neq. intros He. apply Hn. unfold cancelled_by_cleanup.
    destruct Hs as [<-|[<-|<-]]; simpl; auto. }
  split; [exact Hf|]. simpl. now rewrite Hf.
Qed.

Lemma cancelled_interval_never_fires_witness :
  (1 ≠ 0) ∧
  step Config (cleanup (init Config (page_with 3) 0.5 0.5 0 World0)) (Fires 1 0.5 0)
  = cleanup (init Config (page_with 3) 0.5 0.5 0 World0).
Proof.
  assert (H : 1 ≠ 0) by lia.
  split; [exact H|].
  refine (proj2 (cancelled_interval_never_fires Config _ 1 0.5 0 H _)).
  left. now rewrite (proj2 (proj2 (init_timers Config (page_with 3) 0.5 0.5 0))).
Defined.

Lemma cached_nodes_are_fixed_witness :
  reachable Config (page_with 3) (init Config (page_with 3) 0.5 0.5 0 World0) ∧
  (is_Some (node "sensorValue" (init Config (page_with 3) 0.5 0.5 0 World0))
   ↔ "sensorValue" ∈ element_ids ∧ is_Some (byId (page_with 3) !! "sensorValue")).
Proof.
  assert (Hr : reachable Config (page_with 3) (init Config (page_with 3) 0.5 0.5 0 World0))
    by (exists 0.5%Q, 0.5%Q, 0, []; reflexivity).
  split; [exact Hr|].
  exact (proj2 (cached_nodes_are_fixed Config (page_with 3) _ "sensorValue" Hr)).
Defined.
